(** * ORB_SLAM2 [include/Parameter.h]: the parameter registry and its
      synchronisation with the Pangolin control panel

    A shallow embedding of [Parameter<T>], [ParameterBase::parametersDict]
    and [ParameterManager] (the binding table [pangolinParams],
    [createPangolinEntries], [updateParameters], [getParameter],
    [updateValue]), followed by the properties established about them.

    Conventions of the embedding.
    - Objects live on a heap: a [Parameter<T>] is addressed by a natural
      number (its [this] pointer), a [ParameterBase*] is an [option addr]
      with [None] for [nullptr].  Reading through [nullptr] or through the
      address of a destroyed object is undefined behaviour in C++; the
      embedding makes it the outcome [Undefined].
    - [std::map] is a list of key/value pairs kept in ascending key order,
      which is the order its iterators walk.
    - C++ exceptions ([boost::bad_lexical_cast], [boost::bad_get],
      [std::bad_function_call] and what a callback throws) are the outcome
      [Thrown], carrying the state reached when they were raised.
    - [LOG], [DLOG], the invocation of [mOnUpdateCallback] and the
      construction of a [pangolin::Var] are recorded, in order, in an event
      log.  What a callback does is outside this header: it is taken to
      return or to throw, and not to call into the header.
    - A program is a sequence of calls on the header ([Call]), with the
      user acting on the controls in between; [reaches] relates a state to
      the states such a sequence leads to. *)

From Stdlib Require Import ZArith Bool List Ascii String Lia.
From Stdlib Require Import Numbers.DecimalString Numbers.DecimalZ Numbers.DecimalN.
From Stdlib Require Import Floats.SpecFloat.
From Stdlib Require Import Sorting.Sorted.
From stdpp Require Import base option list gmap.

Import ListNotations.
Local Open Scope string_scope.
Local Open Scope list_scope.
Local Open Scope Z_scope.

(** ** Enumerations *)

Inductive ParameterGroup : Type :=
| PARAMETER
| MAIN
| ORBEXTRACTOR
| INITIALIZATION
| TRACKING
| RELOCALIZATION
| LOCAL_MAPPING
| LOOP_CLOSING
| UNDEFINED.

(** The enumerators' values, which order the keys of the outer maps. *)
Definition group_index (g : ParameterGroup) : N :=
  match g with
  | PARAMETER => 0
  | MAIN => 1
  | ORBEXTRACTOR => 2
  | INITIALIZATION => 3
  | TRACKING => 4
  | RELOCALIZATION => 5
  | LOCAL_MAPPING => 6
  | LOOP_CLOSING => 7
  | UNDEFINED => 8
  end%N.

Inductive ParameterCategory : Type :=
| MINMAX
| BOOL
| TEXTINPUT
| UNDEFINED_CATEGORY.

#[global] Instance ParameterCategory_eq_dec : EqDecision ParameterCategory.
Proof. solve_decision. Defined.

#[global] Instance ParameterGroup_eq_dec : EqDecision ParameterGroup.
Proof. solve_decision. Defined.

(** ** [ParameterVariant]: [boost::variant<bool, int, float, double>]

    The template argument [T] ranges over the four alternatives.  [int]
    values are integers (this header performs no arithmetic on them, so no
    wrap-around is ever computed); [float] and [double] values are IEEE 754
    data, compared with the IEEE comparison ([NaN != NaN] is true). *)

Inductive ValueType : Type := T_bool | T_int | T_float | T_double.

(** The test on the alternative held, made by [boost::get] and by the
    dispatch on [which()]. *)
Definition ValueType_eq_dec (a b : ValueType) : {a = b} + {a <> b}.
Proof. decide equality. Defined.

Definition carrier (T : ValueType) : Type :=
  match T with
  | T_bool => bool
  | T_int => Z
  | T_float => spec_float
  | T_double => spec_float
  end.

Abbreviation ParameterVariant := (sigT carrier).

(** [variant.which()] *)
Definition which (v : ParameterVariant) : nat :=
  match projT1 v with
  | T_bool => 0
  | T_int => 1
  | T_float => 2
  | T_double => 3
  end%nat.

(** [a != b] at type [T] *)
Definition neq (T : ValueType) : carrier T -> carrier T -> bool :=
  match T with
  | T_bool => fun a b => negb (Bool.eqb a b)
  | T_int => fun a b => negb (Z.eqb a b)
  | T_float => fun a b => negb (SFeqb a b)
  | T_double => fun a b => negb (SFeqb a b)
  end.

(** [T(b)] for a [bool] [b], and [T(0)]: the conversions the constructors'
    member initialisers perform. *)
Definition of_bool (T : ValueType) (b : bool) : carrier T :=
  match T with
  | T_bool => b
  | T_int => if b then 1 else 0
  | T_float => if b then S754_finite false 8388608 (-23) else S754_zero false
  | T_double => if b then S754_finite false 4503599627370496 (-52) else S754_zero false
  end.

Definition zero (T : ValueType) : carrier T := of_bool T false.

(** ** [std::map]

    A map is the list of its entries in strictly ascending key order.
    [find] is [std::map::find] (with [None] for [end()]), [assign k v] is
    [m[k] = v], and [at_or_default d k] reads [m[k]] when a missing key reads
    as the value-initialised [d]. *)

Module StdMap.
Section WithOrder.
Context {K V : Type} (cmp : K -> K -> comparison).

Fixpoint find (k : K) (m : list (K * V)) : option V :=
  match m with
  | [] => None
  | (k', v) :: m' =>
      match cmp k k' with
      | Eq => Some v
      | Lt => None
      | Gt => find k m'
      end
  end.

Fixpoint assign (k : K) (v : V) (m : list (K * V)) : list (K * V) :=
  match m with
  | [] => [(k, v)]
  | (k', v') :: m' =>
      match cmp k k' with
      | Eq => (k, v) :: m'
      | Lt => (k, v) :: m
      | Gt => (k', v') :: assign k v m'
      end
  end.

Definition at_or_default (d : V) (k : K) (m : list (K * V)) : V :=
  match find k m with
  | Some v => v
  | None => d
  end.

Definition keys (m : list (K * V)) : list K := map fst m.
End WithOrder.
End StdMap.

Definition group_compare (a b : ParameterGroup) : comparison :=
  N.compare (group_index a) (group_index b).

(** [std::string::operator<] compares byte-wise, as [String.compare] does. *)
Definition name_compare : string -> string -> comparison := String.compare.

(** ** Objects *)

Abbreviation addr := nat (only parsing).
Abbreviation vaddr := nat (only parsing).

(** [ParameterBase*] *)
Abbreviation ParameterBasePtr := (option nat).
Definition nullptr : ParameterBasePtr := None.

(** [std::function<void(void)>], as far as the header can tell what a
    call of it does.  Without a target the call throws
    [std::bad_function_call]; a target returns or throws.  What the target
    does besides is outside this header. *)
Inductive StdFunction : Type :=
| empty_function
| target_returns
| target_throws.

(** [Parameter<T>] (named [ParameterT], [Parameter] being a keyword). *)
Record ParameterT (T : ValueType) : Type := mkParameter {
  mCategory : ParameterCategory;
  mMinValue : carrier T;
  mMaxValue : carrier T;
  mValue : carrier T;
  mName : string;
  mGroup : ParameterGroup;
  mChangedThroughPangolin : bool;
  mChangedInCode : bool;
  mOnUpdateCallback : StdFunction
}.

Arguments mkParameter {T}.
Arguments mCategory {T}.
Arguments mMinValue {T}.
Arguments mMaxValue {T}.
Arguments mValue {T}.
Arguments mName {T}.
Arguments mGroup {T}.
Arguments mChangedThroughPangolin {T}.
Arguments mChangedInCode {T}.
Arguments mOnUpdateCallback {T}.

(** An object seen through [ParameterBase*]: its dynamic type and itself. *)
Abbreviation ParameterBase := (sigT ParameterT).

(** Modelled from the spec: [pangolin::Var<T>] and
    [pangolin::Var<std::string>] belong to the Pangolin library, which is
    not among the sources.  Section 6 of the spec asks of a control that it
    can be created with an initial value, read, and overwritten: a control
    is a cell that holds a value, returned by [Get()] and replaced by
    [operator=]. *)
Inductive Var : Type :=
| Var_T (T : ValueType) (v : carrier T)
| Var_string (s : string).

(** [PangolinVariants]: a tagged pointer to a control. *)
Inductive PangolinVariants : Type :=
| PV_T (T : ValueType) (p : vaddr)
| PV_string (p : vaddr).

(** Modelled from the spec: the macros [LOG] and [DLOG] come from
    [Logging.h], which is not among the sources; the spec says of them that a
    warning or a diagnostic is produced.  Each use is recorded as an event
    ([DLOG] lines being those of a debug build), and so are the two other
    things the program lets the outside see besides its state: the calls of
    [mOnUpdateCallback] and the controls it asks Pangolin for. *)
Inductive Event : Type :=
| LOG_WARNING_Duplicate (name : string)
| LOG_WARNING_Deleted (name : string)
| DLOG_WARNING_NoParameter (name : string)
| DLOG_WARNING_NoGroup (group : ParameterGroup)
| DLOG_INFO_Value (name : string) (v : ParameterVariant)
| Callback (a : addr)
| NewToggle (label : string) (v toggle : ParameterVariant)
| NewRange (label : string) (v lo hi : ParameterVariant)
| NewText (label : string) (text : string).

Abbreviation ParameterDictionary :=
  (list (ParameterGroup * list (string * ParameterBasePtr))).

Abbreviation ParameterPairMap :=
  (list (ParameterGroup * list (string * (ParameterBasePtr * PangolinVariants)))).

(** The program state: the live [Parameter] objects, the controls created
    with [new] (never deleted, so addressed by allocation index), the two
    static maps and the event log (oldest first). *)
Record World : Type := mkWorld {
  params : gmap addr ParameterBase;
  vars : list Var;
  parametersDict : ParameterDictionary;
  pangolinParams : ParameterPairMap;
  log : list Event
}.

Definition set_params (f : gmap addr ParameterBase -> gmap addr ParameterBase) (w : World) : World :=
  mkWorld (f (params w)) (vars w) (parametersDict w) (pangolinParams w) (log w).
Definition set_vars (f : list Var -> list Var) (w : World) : World :=
  mkWorld (params w) (f (vars w)) (parametersDict w) (pangolinParams w) (log w).
Definition set_parametersDict (f : ParameterDictionary -> ParameterDictionary) (w : World) : World :=
  mkWorld (params w) (vars w) (f (parametersDict w)) (pangolinParams w) (log w).
Definition set_pangolinParams (f : ParameterPairMap -> ParameterPairMap) (w : World) : World :=
  mkWorld (params w) (vars w) (parametersDict w) (f (pangolinParams w)) (log w).
Definition set_log (f : list Event -> list Event) (w : World) : World :=
  mkWorld (params w) (vars w) (parametersDict w) (pangolinParams w) (f (log w)).

Definition empty_world : World := mkWorld ∅ [] [] [] [].

(** ** Outcomes and the state monad of the embedding *)

(** The exceptions that can leave the functions of the header: the two of
    [boost], [std::bad_function_call] from the call of an empty
    [std::function], and whatever a callback throws. *)
Inductive Exn : Type :=
| bad_lexical_cast
| bad_get
| bad_function_call
| callback_exception.

(** The ways in which a run can leave defined behaviour: a read through
    [nullptr], through the address of a destroyed object, through a
    [static_cast] to the wrong [Parameter<T>], or through a pointer to no
    control. *)
Inductive UB : Type := NullDereference | UseAfterDestroy | BadCast | WildVar.

(** The outcome of a run: a result and the state reached, an exception and
    the state reached when it was raised, or undefined behaviour. *)
Inductive Res (A : Type) : Type :=
| Done (a : A) (w : World)
| Thrown (e : Exn) (w : World)
| Undefined (u : UB).

Arguments Done {A}.
Arguments Thrown {A}.
Arguments Undefined {A}.

Definition M (A : Type) : Type := World -> Res A.

Definition ret {A} (a : A) : M A := fun w => Done a w.

Definition bind {A B} (m : M A) (k : A -> M B) : M B :=
  fun w =>
    match m w with
    | Done a w' => k a w'
    | Thrown e w' => Thrown e w'
    | Undefined u => Undefined u
    end.

Definition throw {A} (e : Exn) : M A := fun w => Thrown e w.
Definition undefined {A} (u : UB) : M A := fun _ => Undefined u.
Definition get_world : M World := fun w => Done w w.
Definition modify_world (f : World -> World) : M unit := fun w => Done tt (f w).

Declare Scope cpp_scope.
Delimit Scope cpp_scope with cpp.
Notation "x <- m ;; k" := (bind m (fun x => k))
  (at level 100, m at next level, right associativity) : cpp_scope.
Notation "m ;; k" := (bind m (fun _ => k))
  (at level 100, right associativity) : cpp_scope.
Local Open Scope cpp_scope.

(** A range-for over a snapshot of a container. *)
Fixpoint for_each {A} (f : A -> M unit) (l : list A) : M unit :=
  match l with
  | [] => ret tt
  | x :: l' => f x ;; for_each f l'
  end.

(** An event is appended to the log. *)
Definition emit (e : Event) : M unit := modify_world (set_log (fun l => l ++ [e])).

(** ** Access to objects through pointers *)

(** [*param] for a [ParameterBase* param] *)
Definition deref (param : ParameterBasePtr) : M ParameterBase :=
  fun w =>
    match param with
    | None => Undefined NullDereference
    | Some a =>
        match params w !! a with
        | Some o => Done o w
        | None => Undefined UseAfterDestroy
        end
    end.

(** [*param = o], for a [param] just read through *)
Definition store (param : ParameterBasePtr) (o : ParameterBase) : M unit :=
  match param with
  | None => undefined NullDereference
  | Some a => modify_world (set_params (insert a o))
  end.

(** The virtual getters of [ParameterBase], as [Parameter<T>] overrides
    them, on the object and through a pointer. *)
Definition variant_of (o : ParameterBase) : ParameterVariant :=
  existT (projT1 o) (mValue (projT2 o)).
Definition min_of (o : ParameterBase) : ParameterVariant :=
  existT (projT1 o) (mMinValue (projT2 o)).
Definition max_of (o : ParameterBase) : ParameterVariant :=
  existT (projT1 o) (mMaxValue (projT2 o)).
Definition category_of (o : ParameterBase) : ParameterCategory := mCategory (projT2 o).
Definition name_of (o : ParameterBase) : string := mName (projT2 o).
Definition group_of (o : ParameterBase) : ParameterGroup := mGroup (projT2 o).

(** [param->getVariant()] and the like: the object is read through the
    pointer. *)
Definition getVariant (param : ParameterBasePtr) : M ParameterVariant :=
  o <- deref param ;; ret (variant_of o).
Definition getMinValue (param : ParameterBasePtr) : M ParameterVariant :=
  o <- deref param ;; ret (min_of o).
Definition getMaxValue (param : ParameterBasePtr) : M ParameterVariant :=
  o <- deref param ;; ret (max_of o).
Definition getCategory (param : ParameterBasePtr) : M ParameterCategory :=
  o <- deref param ;; ret (category_of o).
Definition getName (param : ParameterBasePtr) : M string :=
  o <- deref param ;; ret (name_of o).
Definition getGroup (param : ParameterBasePtr) : M ParameterGroup :=
  o <- deref param ;; ret (group_of o).

(** [boost::get<T>(variant)]: throws [bad_get] on another alternative. *)
Definition boost_get (T : ValueType) (v : ParameterVariant) : M (carrier T) :=
  match ValueType_eq_dec (projT1 v) T with
  | left e => ret (eq_rect (projT1 v) carrier (projT2 v) T e)
  | right _ => throw bad_get
  end.

(** [static_cast<Parameter<T>*>(param)] followed by a member access.  The
    cast is unchecked: on an object of another type the access is
    undefined. *)
Definition static_cast (T : ValueType) (param : ParameterBasePtr) : M (ParameterT T) :=
  o <- deref param ;;
  match ValueType_eq_dec (projT1 o) T with
  | left e => ret (eq_rect (projT1 o) ParameterT (projT2 o) T e)
  | right _ => undefined BadCast
  end.

(** Assignments to the three members that change after construction. *)
Definition with_mValue {T} (v : carrier T) (p : ParameterT T) : ParameterT T :=
  mkParameter (mCategory p) (mMinValue p) (mMaxValue p) v (mName p) (mGroup p)
    (mChangedThroughPangolin p) (mChangedInCode p) (mOnUpdateCallback p).
Definition with_mChangedThroughPangolin {T} (b : bool) (p : ParameterT T) : ParameterT T :=
  mkParameter (mCategory p) (mMinValue p) (mMaxValue p) (mValue p) (mName p) (mGroup p)
    b (mChangedInCode p) (mOnUpdateCallback p).
Definition with_mChangedInCode {T} (b : bool) (p : ParameterT T) : ParameterT T :=
  mkParameter (mCategory p) (mMinValue p) (mMaxValue p) (mValue p) (mName p) (mGroup p)
    (mChangedThroughPangolin p) b (mOnUpdateCallback p).

(** A member assignment through [static_cast<Parameter<T>*>(param)]. *)
Definition write_member (T : ValueType) (param : ParameterBasePtr)
    (f : ParameterT T -> ParameterT T) : M unit :=
  p <- static_cast T param ;; store param (existT T (f p)).

(** [param->setValueInternal(value)] with a [value] of type [T]: the
    virtual overload for [T], which only [Parameter<T>] overrides; the
    other overloads keep [ParameterBase]'s empty body. *)
Definition setValueInternal (T : ValueType) (param : ParameterBasePtr) (value : carrier T) : M unit :=
  o <- deref param ;;
  match ValueType_eq_dec T (projT1 o) with
  | left e => store param (existT (projT1 o) (with_mValue (eq_rect T carrier value (projT1 o) e) (projT2 o)))
  | right _ => ret tt
  end.

(** [mOnUpdateCallback()]: the call of a [std::function].  The event
    [Callback] records that the target was entered. *)
Definition call_function (a : addr) (f : StdFunction) : M unit :=
  match f with
  | empty_function => throw bad_function_call
  | target_returns => emit (Callback a)
  | target_throws => emit (Callback a) ;; throw callback_exception
  end.

(** [param->onUpdate()]: [Parameter<T>::onUpdate] calls the callback. *)
Definition onUpdate (param : ParameterBasePtr) : M unit :=
  o <- deref param ;;
  match param with
  | Some a => call_function a (mOnUpdateCallback (projT2 o))
  | None => undefined NullDereference
  end.

(** ** The public interface of [Parameter<T>] *)

(** [getValue()] *)
Definition getValue {T} (p : ParameterT T) : carrier T := mValue p.

(** [setValue(value)]: [mValue = value; mChangedInCode = true;] *)
Definition setValue {T} (value : carrier T) (p : ParameterT T) : ParameterT T :=
  with_mChangedInCode true (with_mValue value p).

(** [checkAndResetIfChanged()]: the result and the object after the call *)
Definition checkAndResetIfChanged {T} (p : ParameterT T) : bool * ParameterT T :=
  if mChangedThroughPangolin p
  then (true, with_mChangedThroughPangolin false p)
  else (false, p).

(** The same calls made on an object in the heap, through a
    [Parameter<T>*]. *)
Definition call_getValue (T : ValueType) (this : ParameterBasePtr) : M (carrier T) :=
  p <- static_cast T this ;; ret (getValue p).

Definition call_setValue (T : ValueType) (this : ParameterBasePtr) (value : carrier T) : M unit :=
  write_member T this (setValue value).

Definition call_checkAndResetIfChanged (T : ValueType) (this : ParameterBasePtr) : M bool :=
  p <- static_cast T this ;;
  store this (existT T (snd (checkAndResetIfChanged p))) ;;
  ret (fst (checkAndResetIfChanged p)).

(** ** Constructors and destructor *)

(** [d[g].find(n)] on a two-level map, as far as its result goes *)
Definition dict_find {V} (g : ParameterGroup) (n : string)
    (d : list (ParameterGroup * list (string * V))) : option V :=
  StdMap.find name_compare n (StdMap.at_or_default group_compare [] g d).

(** [m[g][n] = v] on a two-level map *)
Definition assign2 {V} (g : ParameterGroup) (n : string) (v : V)
    (m : list (ParameterGroup * list (string * V))) : list (ParameterGroup * list (string * V)) :=
  StdMap.assign group_compare g
    (StdMap.assign name_compare n v (StdMap.at_or_default group_compare [] g m)) m.

(** [m[g]] evaluated for its reference: a missing key is inserted with an
    empty inner map. *)
Definition touch {V} (g : ParameterGroup)
    (m : list (ParameterGroup * list (string * V))) : list (ParameterGroup * list (string * V)) :=
  match StdMap.find group_compare g m with
  | Some _ => m
  | None => StdMap.assign group_compare g [] m
  end.

(** The body shared by the three constructors, run after the member
    initialisers have built the object at [this]. *)
Definition register (this : addr) (name : string) (group : ParameterGroup) : M unit :=
  w <- get_world ;;
  match dict_find group name (parametersDict w) with
  | Some _ => emit (LOG_WARNING_Duplicate name)
  | None => ret tt
  end ;;
  modify_world (set_parametersDict (assign2 group name (Some this))).

(** [Parameter(name, value, toggle, group, onUpdateCallback)] *)
Definition Parameter_toggle (T : ValueType) (this : addr) (name : string)
    (value toggle : bool) (group : ParameterGroup) (onUpdateCallback : StdFunction) : M unit :=
  modify_world (set_params (insert this
    (existT T (mkParameter BOOL (zero T) (of_bool T toggle) (of_bool T value)
                 name group false false onUpdateCallback)))) ;;
  register this name group.

(** [Parameter(name, value, minValue, maxValue, group, onUpdateCallback)] *)
Definition Parameter_minmax (T : ValueType) (this : addr) (name : string)
    (value minValue maxValue : carrier T) (group : ParameterGroup)
    (onUpdateCallback : StdFunction) : M unit :=
  modify_world (set_params (insert this
    (existT T (mkParameter MINMAX minValue maxValue value name group false false
                 onUpdateCallback)))) ;;
  register this name group.

(** [Parameter(name, value, group, onUpdateCallback)] *)
Definition Parameter_text (T : ValueType) (this : addr) (name : string)
    (value : carrier T) (group : ParameterGroup) (onUpdateCallback : StdFunction) : M unit :=
  modify_world (set_params (insert this
    (existT T (mkParameter TEXTINPUT (zero T) (zero T) value name group false false
                 onUpdateCallback)))) ;;
  register this name group.

(** [~Parameter()] *)
Definition Parameter_dtor (this : addr) : M unit :=
  o <- deref (Some this) ;;
  emit (LOG_WARNING_Deleted (name_of o)) ;;
  modify_world (set_parametersDict (assign2 (group_of o) (name_of o) nullptr)) ;;
  modify_world (set_params (delete this)).

(** ** [ParameterManager] *)

(** [getParameter<T>(group, name)].  The [static_cast] to [Parameter<T>*]
    checks nothing, so [T] plays no part in the result. *)
Definition getParameter (T : ValueType) (group : ParameterGroup) (name : string) : M ParameterBasePtr :=
  w <- get_world ;;
  match StdMap.find group_compare group (parametersDict w) with
  | Some _ =>
      match dict_find group name (parametersDict w) with
      | Some param => ret param
      | None => emit (DLOG_WARNING_NoParameter name) ;; ret nullptr
      end
  | None => emit (DLOG_WARNING_NoGroup group) ;; ret nullptr
  end.

(** Controls.  [new_Var] is [new pangolin::Var<..>(..)]: the control is
    appended to the store and its index is its address. *)
Definition new_Var (v : Var) (e : Event) : M vaddr :=
  w <- get_world ;;
  emit e ;;
  modify_world (set_vars (fun l => l ++ [v])) ;;
  ret (length (vars w)).

(** [boost::get<pangolin::Var<T>*>(pango_var_variant)] and
    [boost::get<pangolin::Var<std::string>*>(pango_var_variant)] *)
Definition boost_get_Var (T : ValueType) (pv : PangolinVariants) : M vaddr :=
  match pv with
  | PV_T T' p => if ValueType_eq_dec T' T then ret p else throw bad_get
  | PV_string _ => throw bad_get
  end.

Definition boost_get_Var_string (pv : PangolinVariants) : M vaddr :=
  match pv with
  | PV_T _ _ => throw bad_get
  | PV_string p => ret p
  end.

(** [pango_var->Get()] *)
Definition Var_Get (T : ValueType) (pango_var : vaddr) : M (carrier T) :=
  fun w =>
    match vars w !! pango_var with
    | Some (Var_T T' v) =>
        match ValueType_eq_dec T' T with
        | left e => Done (eq_rect T' carrier v T e) w
        | right _ => Undefined WildVar
        end
    | _ => Undefined WildVar
    end.

Definition Var_Get_string (pango_var : vaddr) : M string :=
  fun w =>
    match vars w !! pango_var with
    | Some (Var_string s) => Done s w
    | _ => Undefined WildVar
    end.

(** [pango_var->operator=(value)] *)
Definition Var_assign (T : ValueType) (pango_var : vaddr) (value : carrier T) : M unit :=
  _ <- Var_Get T pango_var ;;
  modify_world (set_vars (insert pango_var (Var_T T value))).

Definition Var_assign_string (pango_var : vaddr) (value : string) : M unit :=
  _ <- Var_Get_string pango_var ;;
  modify_world (set_vars (insert pango_var (Var_string value))).

(** The two conversions between values and text come from outside the
    repository: [std::to_string] and [boost::lexical_cast<T>], the latter
    throwing [bad_lexical_cast] (here: [None]) on text it cannot convert. *)
Class TextConversions : Type := {
  to_string : forall T : ValueType, carrier T -> string;
  lexical_cast : forall T : ValueType, string -> option (carrier T)
}.

Section Manager.
Context `{TextConversions}.

(** [boost::lexical_cast<T>(s)] *)
Definition boost_lexical_cast (T : ValueType) (s : string) : M (carrier T) :=
  match lexical_cast T s with
  | Some v => ret v
  | None => throw bad_lexical_cast
  end.

(** [createPangolinEntry<T>(param, panel_name)] *)
Definition createPangolinEntry (T : ValueType) (param : ParameterBasePtr) (panel_name : string) : M unit :=
  category <- getCategory param ;;
  match category with
  | BOOL =>
      name <- getName param ;;
      v <- getVariant param ;;
      value <- boost_get T v ;;
      mx <- getMaxValue param ;;
      toggle <- boost_get T mx ;;
      pango_var <- new_Var (Var_T T value)
        (NewToggle (panel_name ++ "." ++ name)%string (existT T value) (existT T toggle)) ;;
      group <- getGroup param ;;
      modify_world (set_pangolinParams (assign2 group name (param, PV_T T pango_var)))
  | MINMAX =>
      name <- getName param ;;
      v <- getVariant param ;;
      value <- boost_get T v ;;
      mn <- getMinValue param ;;
      lo <- boost_get T mn ;;
      mx <- getMaxValue param ;;
      hi <- boost_get T mx ;;
      pango_var <- new_Var (Var_T T value)
        (NewRange (panel_name ++ "." ++ name)%string (existT T value) (existT T lo) (existT T hi)) ;;
      group <- getGroup param ;;
      modify_world (set_pangolinParams (assign2 group name (param, PV_T T pango_var)))
  | TEXTINPUT =>
      name <- getName param ;;
      v <- getVariant param ;;
      value <- boost_get T v ;;
      pango_var <- new_Var (Var_string (to_string T value))
        (NewText (panel_name ++ "." ++ name)%string (to_string T value)) ;;
      group <- getGroup param ;;
      modify_world (set_pangolinParams (assign2 group name (param, PV_string pango_var)))
  | UNDEFINED_CATEGORY => ret tt
  end.

(** [createPangolinEntries(panel_name, target_group)] *)
Definition createPangolinEntries (panel_name : string) (target_group : ParameterGroup) : M unit :=
  modify_world (set_parametersDict (touch target_group)) ;;
  w <- get_world ;;
  for_each
    (fun it =>
       let param := snd it in
       v <- getVariant param ;;
       match which v with
       | 0%nat => createPangolinEntry T_bool param panel_name
       | 1%nat => createPangolinEntry T_int param panel_name
       | 2%nat => createPangolinEntry T_float param panel_name
       | 3%nat => createPangolinEntry T_double param panel_name
       | _ => ret tt
       end)
    (StdMap.at_or_default group_compare [] target_group (parametersDict w)).

(** [updateValue<T>(param, pango_var_variant)] *)
Definition updateValue (T : ValueType) (param : ParameterBasePtr)
    (pango_var_variant : PangolinVariants) : M unit :=
  v <- getVariant param ;;
  param_value <- boost_get T v ;;
  category <- getCategory param ;;
  match category with
  | TEXTINPUT =>
      pango_var <- boost_get_Var_string pango_var_variant ;;
      text <- Var_Get_string pango_var ;;
      pango_var_value <- boost_lexical_cast T text ;;
      p <- static_cast T param ;;
      if mChangedInCode p then
        Var_assign_string pango_var (to_string T param_value) ;;
        write_member T param (with_mChangedInCode false) ;;
        name <- getName param ;;
        emit (DLOG_INFO_Value name (existT T param_value)) ;;
        onUpdate param
      else if neq T pango_var_value param_value then
        setValueInternal T param pango_var_value ;;
        write_member T param (with_mChangedThroughPangolin true) ;;
        v' <- getVariant param ;;
        param_value' <- boost_get T v' ;;
        name <- getName param ;;
        emit (DLOG_INFO_Value name (existT T param_value')) ;;
        onUpdate param
      else ret tt
  | _ =>
      pango_var <- boost_get_Var T pango_var_variant ;;
      shown <- Var_Get T pango_var ;;
      if neq T shown param_value then
        p <- static_cast T param ;;
        (if mChangedInCode p then
           Var_assign T pango_var param_value ;;
           write_member T param (with_mChangedInCode false) ;;
           name <- getName param ;;
           emit (DLOG_INFO_Value name (existT T param_value))
         else
           shown' <- Var_Get T pango_var ;;
           setValueInternal T param shown' ;;
           write_member T param (with_mChangedThroughPangolin true) ;;
           v' <- getVariant param ;;
           param_value' <- boost_get T v' ;;
           name <- getName param ;;
           emit (DLOG_INFO_Value name (existT T param_value'))) ;;
        onUpdate param
      else ret tt
  end.

(** The body of the inner loop of [updateParameters], for one entry of
    [pangolinParams]. *)
Definition update_entry (entry : ParameterBasePtr * PangolinVariants) : M unit :=
  let pango_var_variant := snd entry in
  let param := fst entry in
  v <- getVariant param ;;
  let type := which v in
  if Nat.eqb type 0 then updateValue T_bool param pango_var_variant
  else if Nat.eqb type 1 then updateValue T_int param pango_var_variant
  else if Nat.eqb type 2 then updateValue T_float param pango_var_variant
  else if Nat.eqb type 3 then updateValue T_double param pango_var_variant
  else ret tt.

(** [updateParameters()] *)
Definition updateParameters : M unit :=
  w <- get_world ;;
  for_each
    (fun it_groups => for_each (fun it => update_entry (snd it)) (snd it_groups))
    (pangolinParams w).

End Manager.

(** ** A reference instance of the text conversions

    The conversions of the C++ library in the "C" locale, on decimal
    numerals: [std::to_string] prints an [int] in decimal (a [bool] is
    promoted to [int]) and a [float] or [double] as [printf("%f")] does,
    with six digits after the point; [boost::lexical_cast] accepts the whole
    text or nothing.  The general results below hold for every instance of
    [TextConversions]; this one supplies concrete runs. *)

Module CLocale.

Definition decimal (n : Z) : string := NilZero.string_of_int (Z.to_int n).

Definition is_digit (c : ascii) : bool :=
  ((48 <=? N_of_ascii c) && (N_of_ascii c <=? 57))%N.

Fixpoint all_digits (s : string) : bool :=
  match s with
  | EmptyString => true
  | String c s' => is_digit c && all_digits s'
  end.

(** The value of a string of digits ([0] for the empty string). *)
Definition digits_value (s : string) : Z :=
  match NilEmpty.uint_of_string s with
  | Some u => Z.of_N (N.of_uint u)
  | None => 0
  end.

(** A leading sign, and the rest. *)
Definition split_sign (s : string) : bool * string :=
  match s with
  | String "-"%char s' => (true, s')
  | String "+"%char s' => (false, s')
  | _ => (false, s)
  end.

Definition sign_text (negative : bool) : string := if negative then "-" else "".

(** [std::to_string(int)] *)
Definition to_string_int (n : Z) : string := decimal n.

(** [boost::lexical_cast<int>]: an optional sign, at least one digit, and
    a value that fits 32 bits. *)
Definition lexical_cast_int (s : string) : option Z :=
  let (negative, digits) := split_sign s in
  if (0 <? String.length digits)%nat && all_digits digits then
    let n := if negative then - digits_value digits else digits_value digits in
    if (-2147483648 <=? n) && (n <=? 2147483647) then Some n else None
  else None.

(** [boost::lexical_cast<bool>]: the last character is ['0'] or ['1'];
    before it come an optional sign (['-'] only for a zero) and zeros. *)
Fixpoint zeros_then_bit (s : string) : option bool :=
  match s with
  | EmptyString => None
  | String "0"%char EmptyString => Some false
  | String "1"%char EmptyString => Some true
  | String "0"%char s' => zeros_then_bit s'
  | String _ _ => None
  end.

Definition lexical_cast_bool (s : string) : option bool :=
  match s with
  | String "+"%char (String _ _ as s') => zeros_then_bit s'
  | String "-"%char (String _ _ as s') =>
      match zeros_then_bit s' with
      | Some false => Some false
      | _ => None
      end
  | _ => zeros_then_bit s
  end.

(** [printf("%f")]: the exact value, rounded to the nearest multiple of
    [10^-6] (ties to even). *)
Definition round_half_even (num den : Z) : Z :=
  let q := num / den in
  let r := num mod den in
  match Z.compare (2 * r) den with
  | Lt => q
  | Gt => q + 1
  | Eq => if Z.even q then q else q + 1
  end.

Definition six_digits (n : Z) : string :=
  match decimal (1000000 + n) with
  | String _ s => s
  | EmptyString => EmptyString
  end.

Definition to_string_fp (x : spec_float) : string :=
  match x with
  | S754_zero s => sign_text s ++ "0.000000"
  | S754_infinity s => sign_text s ++ "inf"
  | S754_nan => "nan"
  | S754_finite s m e =>
      let micro :=
        if 0 <=? e
        then Zpos m * 2 ^ e * 1000000
        else round_half_even (Zpos m * 1000000) (2 ^ (- e)) in
      sign_text s ++ decimal (micro / 1000000) ++ "." ++ six_digits (micro mod 1000000)
  end.

(** Text up to the first character satisfying [stop], and what follows
    that character. *)
Fixpoint split_at (stop : ascii -> bool) (s : string) : string * option string :=
  match s with
  | EmptyString => (EmptyString, None)
  | String c s' =>
      if stop c then (EmptyString, Some s')
      else let (a, b) := split_at stop s' in (String c a, b)
  end.

Definition is_point (c : ascii) : bool := Ascii.eqb c ".".
Definition is_exp (c : ascii) : bool := Ascii.eqb c "e" || Ascii.eqb c "E".

(** A decimal numeral [digits.digits] with an optional exponent, as the
    pair of an integer [n] and a power of ten [k]: the value [n * 10^k]. *)
Definition parse_decimal (s : string) : option (Z * Z) :=
  let (mantissa, exponent) := split_at is_exp s in
  let (whole, fraction) := split_at is_point mantissa in
  let frac := match fraction with Some f => f | None => EmptyString end in
  let exp10 :=
    match exponent with
    | None => Some 0
    | Some e =>
        let (negative, digits) := split_sign e in
        if (0 <? String.length digits)%nat && all_digits digits
        then Some (if negative then - digits_value digits else digits_value digits)
        else None
    end in
  match exp10 with
  | Some k =>
      if all_digits whole && all_digits frac
         && (0 <? String.length whole + String.length frac)%nat
      then Some (digits_value (whole ++ frac), k - Z.of_nat (String.length frac))
      else None
  | None => None
  end.

(** The nearest representable value (ties to even) of [n * 10^k] in the
    format of precision [prec] and exponent bound [emax]; a numeral too
    large for the format is rejected. *)
Definition nearest (prec emax : Z) (negative : bool) (n k : Z) : option spec_float :=
  match n with
  | Zpos m =>
      let r :=
        if 0 <=? k
        then binary_normalize prec emax (Zpos m * 10 ^ k) 0 false
        else SFdiv prec emax (S754_finite false m 0)
               (S754_finite false (Z.to_pos (10 ^ (- k))) 0) in
      match r with
      | S754_infinity _ => None
      | _ => Some (if negative then SFopp r else r)
      end
  | _ => Some (S754_zero negative)
  end.

Fixpoint lower (s : string) : string :=
  match s with
  | EmptyString => EmptyString
  | String c s' =>
      String (if ((65 <=? N_of_ascii c) && (N_of_ascii c <=? 90))%N
              then ascii_of_N (N_of_ascii c + 32) else c) (lower s')
  end.

Definition lexical_cast_fp (prec emax : Z) (s : string) : option spec_float :=
  let (negative, body) := split_sign s in
  if String.eqb (lower body) "nan" then Some S754_nan
  else if String.eqb (lower body) "inf" || String.eqb (lower body) "infinity"
  then Some (S754_infinity negative)
  else
    match parse_decimal body with
    | Some (n, k) => nearest prec emax negative n k
    | None => None
    end.

#[export] Instance conversions : TextConversions := {|
  to_string := fun T =>
    match T return carrier T -> string with
    | T_bool => fun b => to_string_int (if b then 1 else 0)
    | T_int => to_string_int
    | T_float => to_string_fp
    | T_double => to_string_fp
    end;
  lexical_cast := fun T =>
    match T return string -> option (carrier T) with
    | T_bool => lexical_cast_bool
    | T_int => lexical_cast_int
    | T_float => lexical_cast_fp 24 128
    | T_double => lexical_cast_fp 53 1024
    end
|}.

End CLocale.

(** * Notions used in the statements *)

(** ** The binding table as a list *)

(** The entries of [pangolinParams] in iteration order. *)
Definition entries (w : World) : list (ParameterBasePtr * PangolinVariants) :=
  concat (map (fun it_groups => map snd (snd it_groups)) (pangolinParams w)).

(** The control a variant points to. *)
Definition var_of (pv : PangolinVariants) : nat :=
  match pv with
  | PV_T _ p => p
  | PV_string p => p
  end.

(** No parameter and no control is bound twice. *)
Definition unshared (l : list (ParameterBasePtr * PangolinVariants)) : Prop :=
  NoDup (map fst l) /\ NoDup (map (fun e => var_of (snd e)) l).

(** ** One reconciliation, in closed form *)

(** The state after a reconciliation that pushed the internal value to
    the control, which now holds [shown] ... *)
Definition pushed (T : ValueType) (a : addr) (va : vaddr) (p : ParameterT T)
    (shown : Var) (w : World) : World :=
  mkWorld (<[a := existT T (with_mChangedInCode false p)]> (params w))
          (<[va := shown]> (vars w))
          (parametersDict w) (pangolinParams w)
          (log w ++ [DLOG_INFO_Value (mName p) (existT T (mValue p)); Callback a]).

(** ... and after one that pulled the value [x] of the control in. *)
Definition pulled (T : ValueType) (a : addr) (p : ParameterT T)
    (x : carrier T) (w : World) : World :=
  mkWorld (<[a := existT T (with_mChangedThroughPangolin true (with_mValue x p))]> (params w))
          (vars w) (parametersDict w) (pangolinParams w)
          (log w ++ [DLOG_INFO_Value (mName p) (existT T x); Callback a]).

(** The states in which the callback is called: the writes of the push,
    or of the pull, are made and the value is logged. *)
Definition pushing (T : ValueType) (a : addr) (va : vaddr) (p : ParameterT T)
    (shown : Var) (w : World) : World :=
  mkWorld (<[a := existT T (with_mChangedInCode false p)]> (params w))
          (<[va := shown]> (vars w))
          (parametersDict w) (pangolinParams w)
          (log w ++ [DLOG_INFO_Value (mName p) (existT T (mValue p))]).

Definition pulling (T : ValueType) (a : addr) (p : ParameterT T)
    (x : carrier T) (w : World) : World :=
  mkWorld (<[a := existT T (with_mChangedThroughPangolin true (with_mValue x p))]> (params w))
          (vars w) (parametersDict w) (pangolinParams w)
          (log w ++ [DLOG_INFO_Value (mName p) (existT T x)]).

(** The outcome of the call of the callback [f] made in the state
    [before], [after] being the state once the target is entered: an empty
    [f] throws at once, a target returns or throws. *)
Definition called (f : StdFunction) (before after : World) : Res unit :=
  match f with
  | empty_function => Thrown bad_function_call before
  | target_returns => Done tt after
  | target_throws => Thrown callback_exception after
  end.

(** The state after a reconciliation that completes, for a control of the
    parameter's own type ... *)
Definition after_typed (T : ValueType) (a va : nat) (p : ParameterT T)
    (x : carrier T) (w : World) : World :=
  if neq T x (mValue p) then
    if mChangedInCode p
    then pushed T a va p (Var_T T (mValue p)) w
    else pulled T a p x w
  else w.

(** ... and for a text control whose text converts to [e]. *)
Definition after_text `{TextConversions} (T : ValueType) (a va : nat) (p : ParameterT T)
    (e : carrier T) (w : World) : World :=
  if mChangedInCode p
  then pushed T a va p (Var_string (to_string T (mValue p))) w
  else if neq T e (mValue p) then pulled T a p e w else w.

(** [boost::get<T>] as a partial function *)
Definition as_type (T : ValueType) (v : ParameterVariant) : option (carrier T) :=
  match ValueType_eq_dec (projT1 v) T with
  | left e => Some (eq_rect (projT1 v) carrier (projT2 v) T e)
  | right _ => None
  end.

(** The value a control shows, read at type [T]: [pango_var->Get()], and
    for a text control its conversion by [boost::lexical_cast<T>]. *)
Definition shown_value `{TextConversions} (T : ValueType) (pv : PangolinVariants)
    (w : World) : option (carrier T) :=
  match pv with
  | PV_T _ va =>
      match vars w !! va with
      | Some (Var_T T' x) => as_type T (existT T' x)
      | _ => None
      end
  | PV_string va =>
      match vars w !! va with
      | Some (Var_string s) => lexical_cast T s
      | _ => None
      end
  end.

(** A control of the kind that goes with the parameter's category: what
    [createPangolinEntry] makes, and what a reconciliation needs in order to
    complete. *)
Definition fits `{TextConversions} {T} (p : ParameterT T) (pv : PangolinVariants)
    (c : Var) (x : carrier T) : Prop :=
  match pv with
  | PV_T T' _ => T' = T /\ c = Var_T T x /\ mCategory p <> TEXTINPUT
  | PV_string _ =>
      exists s, c = Var_string s /\ lexical_cast T s = Some x /\ mCategory p = TEXTINPUT
  end.

(** The parameter after a pull of the value [x]. *)
Definition pull {T} (x : carrier T) (p : ParameterT T) : ParameterT T :=
  with_mChangedThroughPangolin true (with_mValue x p).

(** What a completed reconciliation leaves in the parameter, given the
    value [x] the control showed ... *)
Definition reconciled {T} (p : ParameterT T) (x : carrier T) : ParameterT T :=
  match mCategory p with
  | TEXTINPUT =>
      if mChangedInCode p then with_mChangedInCode false p
      else if neq T x (mValue p) then pull x p else p
  | _ =>
      if neq T x (mValue p)
      then if mChangedInCode p then with_mChangedInCode false p else pull x p
      else p
  end.

(** ... and in the control, given what it held. *)
Definition control_after `{TextConversions} {T} (p : ParameterT T) (x : carrier T) (c : Var) : Var :=
  match mCategory p with
  | TEXTINPUT =>
      if mChangedInCode p then Var_string (to_string T (mValue p)) else c
  | _ =>
      if neq T x (mValue p) && mChangedInCode p then Var_T T (mValue p) else c
  end.

(** What the push writes to the control: the value, or its text. *)
Definition pushed_control `{TextConversions} {T} (p : ParameterT T) : Var :=
  match mCategory p with
  | TEXTINPUT => Var_string (to_string T (mValue p))
  | _ => Var_T T (mValue p)
  end.

(** ... and whether the callback was invoked. *)
Definition fires {T} (p : ParameterT T) (x : carrier T) : bool :=
  match mCategory p with
  | TEXTINPUT => mChangedInCode p || neq T x (mValue p)
  | _ => neq T x (mValue p)
  end.

(** The condition under which a reconciliation takes the value of the
    control into the parameter: no pending internal change, and a control
    that shows another value. *)
Definition pulls {T} (p : ParameterT T) (x : carrier T) : bool :=
  negb (mChangedInCode p) && neq T x (mValue p).

(** ** What a pass leaves alone *)

(** How many times the callback of the object at [a] was invoked. *)
Fixpoint callbacks (a : nat) (l : list Event) : nat :=
  match l with
  | [] => 0%nat
  | Callback b :: l' => ((if Nat.eqb a b then 1 else 0) + callbacks a l')%nat
  | _ :: l' => callbacks a l'
  end.

(** Two states agree on what an entry refers to. *)
Definition same_at (a va : nat) (w1 w2 : World) : Prop :=
  params w1 !! a = params w2 !! a /\
  vars w1 !! va = vars w2 !! va /\
  callbacks a (log w1) = callbacks a (log w2).

(** A reconciliation pass touches nothing but the parameters and controls
    of its entries, and calls no other callback than theirs. *)
Record frame (w w' : World) (addrs : list ParameterBasePtr) (vaddrs : list nat) : Prop := {
  frame_params : forall a, Some a ∉ addrs -> params w' !! a = params w !! a;
  frame_vars : forall va, va ∉ vaddrs -> vars w' !! va = vars w !! va;
  frame_callbacks : forall a, Some a ∉ addrs -> callbacks a (log w') = callbacks a (log w);
  frame_dict : parametersDict w' = parametersDict w;
  frame_pango : pangolinParams w' = pangolinParams w
}.

(** ** Entries that cannot echo *)

(** [v == v]: false for a NaN only. *)
Definition self_equal (T : ValueType) (v : carrier T) : bool := negb (neq T v v).

(** The hypothesis under which a pass cannot leave a difference behind for
    the next pass to find: the value of the parameter and the value shown by
    the control compare equal to themselves, and the text written for a
    pending internal change converts back to a value equal to the
    parameter's. *)
Definition echo_free `{TextConversions} (w : World)
    (entry : ParameterBasePtr * PangolinVariants) : bool :=
  match fst entry with
  | Some a =>
      match params w !! a return bool with
      | Some o =>
          let T := projT1 o in
          let p := projT2 o in
          self_equal T (mValue p) &&
          match snd entry with
          | PV_T _ va =>
              match vars w !! va with
              | Some (Var_T T' x) => self_equal T' x
              | _ => true
              end
          | PV_string va =>
              match vars w !! va with
              | Some (Var_string s) =>
                  match lexical_cast T s with
                  | Some e => self_equal T e
                  | None => true
                  end &&
                  (if mChangedInCode p
                   then match lexical_cast T (to_string T (mValue p)) with
                        | Some e => negb (neq T e (mValue p))
                        | None => false
                        end
                   else true)
              | _ => true
              end
          end
      | None => true
      end
  | None => true
  end.

(** An entry on which a reconciliation finds nothing to do. *)
Definition settled `{TextConversions} (w : World)
    (entry : ParameterBasePtr * PangolinVariants) : Prop :=
  exists T a (p : ParameterT T),
    fst entry = Some a /\ params w !! a = Some (existT T p) /\
    match snd entry with
    | PV_T T' va =>
        T' = T /\ exists x, vars w !! va = Some (Var_T T x) /\
                   mCategory p <> TEXTINPUT /\ neq T x (mValue p) = false
    | PV_string va =>
        exists s e, vars w !! va = Some (Var_string s) /\
                    mCategory p = TEXTINPUT /\ lexical_cast T s = Some e /\
                    mChangedInCode p = false /\ neq T e (mValue p) = false
    end.

(** ** Declarations and the invariant of the registry *)

(** The laws of a three-way comparison that make a strict total order. *)
Class OrderLaws {K : Type} (cmp : K -> K -> comparison) : Prop := {
  cmp_eq : forall a b, cmp a b = Eq -> a = b;
  cmp_antisym : forall a b, cmp a b = CompOpp (cmp b a);
  cmp_trans : forall a b c, cmp a b = Lt -> cmp b c = Lt -> cmp a c = Lt
}.

(** The invariant of a [std::map]: keys strictly ascending. *)
Definition ascending {K V : Type} (cmp : K -> K -> comparison) (m : list (K * V)) : Prop :=
  StronglySorted (fun a b => cmp a b = Lt) (StdMap.keys m).

(** A declaration of a parameter: one of the three constructors, with the
    address the object is built at. *)
Inductive Declaration : Type :=
| Toggle (T : ValueType) (this : nat) (name : string) (value toggle : bool)
    (group : ParameterGroup) (onUpdateCallback : StdFunction)
| Range (T : ValueType) (this : nat) (name : string) (value minValue maxValue : carrier T)
    (group : ParameterGroup) (onUpdateCallback : StdFunction)
| Text (T : ValueType) (this : nat) (name : string) (value : carrier T)
    (group : ParameterGroup) (onUpdateCallback : StdFunction).

(** The constructor call a declaration stands for. *)
Definition declare (d : Declaration) : M unit :=
  match d with
  | Toggle T this name value toggle group cb =>
      Parameter_toggle T this name value toggle group cb
  | Range T this name value lo hi group cb =>
      Parameter_minmax T this name value lo hi group cb
  | Text T this name value group cb => Parameter_text T this name value group cb
  end.

(** Its address, name and group. *)
Definition decl_this (d : Declaration) : nat :=
  match d with
  | Toggle _ this _ _ _ _ _ | Range _ this _ _ _ _ _ _ | Text _ this _ _ _ _ => this
  end.

Definition decl_name (d : Declaration) : string :=
  match d with
  | Toggle _ _ name _ _ _ _ | Range _ _ name _ _ _ _ _ | Text _ _ name _ _ _ => name
  end.

Definition decl_group (d : Declaration) : ParameterGroup :=
  match d with
  | Toggle _ _ _ _ _ group _ | Range _ _ _ _ _ _ group _ | Text _ _ _ _ group _ => group
  end.

(** The object a declaration builds. *)
Definition decl_object (d : Declaration) : ParameterBase :=
  match d with
  | Toggle T _ name value toggle group cb =>
      existT T (mkParameter BOOL (zero T) (of_bool T toggle) (of_bool T value)
                  name group false false cb)
  | Range T _ name value lo hi group cb =>
      existT T (mkParameter MINMAX lo hi value name group false false cb)
  | Text T _ name value group cb =>
      existT T (mkParameter TEXTINPUT (zero T) (zero T) value name group false false cb)
  end.

(** The names [createPangolinEntries] iterates over for a group: the keys
    of [parametersDict[group]], in the order of the map. *)
Definition registered_names (g : ParameterGroup) (w : World) : list string :=
  StdMap.keys (StdMap.at_or_default group_compare [] g (parametersDict w)).

(** The labels of the controls created so far, in order of creation. *)
Fixpoint labels (l : list Event) : list string :=
  match l with
  | [] => []
  | NewToggle label _ _ :: l' => label :: labels l'
  | NewRange label _ _ _ :: l' => label :: labels l'
  | NewText label _ :: l' => label :: labels l'
  | _ :: l' => labels l'
  end.

(** A slot of the registry that holds the address of a live object of
    that name, built by one of the constructors. *)
Definition slot_ok (w : World) (slot : string * ParameterBasePtr) : Prop :=
  exists a o, snd slot = Some a /\ params w !! a = Some o /\
              name_of o = fst slot /\ category_of o <> UNDEFINED_CATEGORY.

(** The invariant of the registry: both levels of the map ascending, and
    every slot good. *)
Record registry_ok (w : World) : Prop := {
  outer_ascending : ascending group_compare (parametersDict w);
  inner_ascending : Forall (fun it => ascending name_compare (snd it)) (parametersDict w);
  slots_ok : Forall (fun it => Forall (slot_ok w) (snd it)) (parametersDict w)
}.

(** ** Sample states *)

(** The user acting on the panel: the control at [va] is given a new
    content. *)
Definition user_sets (va : nat) (c : Var) (w : World) : World :=
  set_vars (insert va c) w.

(** The state a run ends in ([Undefined] leaves none: the initial one is
    returned). *)
Definition state_after {A} (m : M A) (w : World) : World :=
  match m w with
  | Done _ w' => w'
  | Thrown _ w' => w'
  | Undefined _ => w
  end.

Module Demo.
Import CLocale.

(** [double] literals: 0.0, 1.0, 5.0, 7.5, 10.0, and [2^-30]. *)
Definition d0 : carrier T_double := S754_zero false.
Definition d1 : carrier T_double := S754_finite false 4503599627370496 (-52).
Definition d5 : carrier T_double := S754_finite false 5629499534213120 (-50).
Definition d7_5 : carrier T_double := S754_finite false 8444249301319680 (-50).
Definition d10 : carrier T_double := S754_finite false 5629499534213120 (-49).
Definition d_tiny : carrier T_double := S754_finite false 4503599627370496 (-82).

(** [Parameter<double> gain("gain", 1.0, 0.0, 10.0, MAIN, cb)], built at
    address [1], then [createPangolinEntries("menu", MAIN)]. *)
Definition gain : ParameterT T_double :=
  mkParameter MINMAX d0 d10 d1 "gain" MAIN false false target_returns.

Definition gain_bound : World :=
  state_after (Parameter_minmax T_double 1 "gain" d1 d0 d10 MAIN target_returns ;;
               createPangolinEntries "menu" MAIN) empty_world.
End Demo.

Module DemoText.
Import CLocale.

(** [double] literal 0.5. *)
Definition d0_5 : carrier T_double := S754_finite false 4503599627370496 (-53).

(** [Parameter<double> scale("scale", 0.5, MAIN, cb)], built at address
    [1], then [createPangolinEntries("menu", MAIN)]: a text control
    holding ["0.500000"]. *)
Definition scale : ParameterT T_double :=
  mkParameter TEXTINPUT Demo.d0 Demo.d0 d0_5 "scale" MAIN false false target_returns.

Definition scale_bound : World :=
  state_after (Parameter_text T_double 1 "scale" d0_5 MAIN target_returns ;;
               createPangolinEntries "menu" MAIN) empty_world.
End DemoText.

Module DemoTracking.
Import CLocale.

(** [Parameter<int> threshold("threshold", 3, TRACKING, cb)] at address
    [1] (a text control) and [Parameter<int> window("window", 5, 0, 10,
    TRACKING, cb)] at address [2] (a slider), then
    [createPangolinEntries("menu", TRACKING)]. *)
Definition threshold : ParameterT T_int :=
  @mkParameter T_int TEXTINPUT 0 0 3 "threshold" TRACKING false false target_returns.

Definition window : ParameterT T_int :=
  @mkParameter T_int MINMAX 0 10 5 "window" TRACKING false false target_returns.

Definition tracking_bound : World :=
  state_after (Parameter_text T_int 1 "threshold" 3 TRACKING target_returns ;;
               Parameter_minmax T_int 2 "window" 5 0 10 TRACKING target_returns ;;
               createPangolinEntries "menu" TRACKING) empty_world.
End DemoTracking.

Module DemoNaN.
Import CLocale.

(** [Parameter<float> exposure("exposure", NAN, 0.0f, 1.0f, MAIN, cb)] at
    address [1], then [createPangolinEntries("menu", MAIN)]. *)
Definition exposure_bound : World :=
  state_after (Parameter_minmax T_float 1 "exposure" S754_nan (zero T_float)
                 (of_bool T_float true) MAIN target_returns ;;
               createPangolinEntries "menu" MAIN) empty_world.
End DemoNaN.

(** The user types ["abc"] in the text control of [threshold] and moves
    the slider of [window] to 7. *)
Definition abc_typed : World :=
  user_sets 1 (Var_T T_int 7) (user_sets 0 (Var_string "abc") DemoTracking.tracking_bound).

(** ["zoom"] is declared before ["alpha"]. *)
Definition zoom_then_alpha : list Declaration :=
  [Range T_int 1 "zoom" 2 1 8 MAIN target_returns; Range T_int 2 "alpha" 50 0 100 MAIN target_returns].

(** ** The rest of the interface *)

(** [operator()()]: [return getValue();] *)
Definition call_operator (T : ValueType) (this : ParameterBasePtr) : M (carrier T) :=
  call_getValue T this.

(** ** The state as a history of calls *)

(** Both levels of a two-level map are well-formed [std::map]s. *)
Definition well_formed {V} (m : list (ParameterGroup * list (string * V))) : Prop :=
  ascending group_compare m /\
  Forall (fun it => ascending name_compare (snd it)) m.

(** A declaration is one of [(g, n)]. *)
Definition declares (g : ParameterGroup) (n : string) (d : Declaration) : bool :=
  bool_decide (decl_group d = g) && String.eqb (decl_name d) n.

(** The address of the object built by the last declaration of [(g, n)]. *)
Fixpoint last_declared (g : ParameterGroup) (n : string) (ds : list Declaration) : option nat :=
  match ds with
  | [] => None
  | d :: ds' =>
      match last_declared g n ds' with
      | Some a => Some a
      | None => if declares g n d then Some (decl_this d) else None
      end
  end.

(** One warning for each declaration of a group and name that an
    [earlier] declaration has used. *)
Fixpoint duplicate_warnings (earlier ds : list Declaration) : list Event :=
  match ds with
  | [] => []
  | d :: ds' =>
      (if existsb (declares (decl_group d) (decl_name d)) earlier
       then [LOG_WARNING_Duplicate (decl_name d)]
       else [])
      ++ duplicate_warnings (earlier ++ [d]) ds'
  end.

(** The registry holds no dangling pointer: a slot is null or holds the
    address of a live object of the slot's group and name. *)
Record registry_sound (w : World) : Prop := {
  sound_maps : well_formed (parametersDict w);
  sound_slots : forall g n a,
    dict_find g n (parametersDict w) = Some (Some a) ->
    exists o, params w !! a = Some o /\ group_of o = g /\ name_of o = n
}.

(** What an object keeps from its construction on: its dynamic type, its
    category, its bounds, its name, its group and its callback. *)
Definition identity_of (o : ParameterBase) :
    ParameterCategory * ParameterVariant * ParameterVariant * string * ParameterGroup *
    StdFunction :=
  (category_of o, min_of o, max_of o, name_of o, group_of o, mOnUpdateCallback (projT2 o)).

(** A binding as [createPangolinEntry] makes it: a live parameter and a
    control of the kind that goes with its type and category. *)
Definition bound (w : World) (entry : ParameterBasePtr * PangolinVariants) : Prop :=
  exists a T (p : ParameterT T),
    fst entry = Some a /\ params w !! a = Some (existT T p) /\
    match snd entry with
    | PV_T T' va =>
        T' = T /\ mCategory p <> TEXTINPUT /\ exists x, vars w !! va = Some (Var_T T x)
    | PV_string va =>
        mCategory p = TEXTINPUT /\ exists s, vars w !! va = Some (Var_string s)
    end.

(** The control [createPangolinEntry] creates for a parameter, and the
    pointer to it that goes into the binding. *)
Definition control_pointer {T} (p : ParameterT T) (va : nat) : PangolinVariants :=
  match mCategory p with
  | TEXTINPUT => PV_string va
  | _ => PV_T T va
  end.

(** The kind of a control: the type of the value it holds, or text. *)
Definition kind (c : Var) : option ValueType :=
  match c with
  | Var_T T _ => Some T
  | Var_string _ => None
  end.

(** The events of a reconciliation: the value logged and the callback. *)
Definition reconciliation_event (e : Event) : bool :=
  match e with
  | DLOG_INFO_Value _ _ | Callback _ => true
  | _ => false
  end.

(** What a reconciliation pass leaves as it is: the two maps, the set of
    objects and the identity of each, the set of controls and the kind of
    each; and what it adds to the log. *)
Record tick_frame (w w' : World) : Prop := {
  tf_dict : parametersDict w' = parametersDict w;
  tf_pango : pangolinParams w' = pangolinParams w;
  tf_identity : forall a, identity_of <$> params w' !! a = identity_of <$> params w !! a;
  tf_kind : forall va, kind <$> vars w' !! va = kind <$> vars w !! va;
  tf_length : length (vars w') = length (vars w);
  tf_log : exists l, log w' = log w ++ l /\ forallb reconciliation_event l = true
}.

(** Every object and every control of [w] is still there in [w'], with
    the identity and the kind it had. *)
Definition evolves (w w' : World) : Prop :=
  (forall a o, params w !! a = Some o ->
     exists o', params w' !! a = Some o' /\ identity_of o' = identity_of o) /\
  (forall va c, vars w !! va = Some c ->
     exists c', vars w' !! va = Some c' /\ kind c' = kind c).

(** A pointer to a text control. *)
Definition is_text (pv : PangolinVariants) : bool :=
  match pv with
  | PV_string _ => true
  | PV_T _ _ => false
  end.



(** A step that creates and destroys nothing and leaves the two maps as
    they are. *)
Definition quiet_step (w w' : World) : Prop :=
  evolves w w' /\
  parametersDict w' = parametersDict w /\
  pangolinParams w' = pangolinParams w.

(** The state of a program that has destroyed no parameter: every slot of
    the registry and every binding holds a live object, and every binding a
    control of the right kind. *)
Record safe (w : World) : Prop := {
  safe_registry : registry_ok w;
  safe_bindings : Forall (bound w) (entries w)
}.

(** The calls a program can make on the header, and the user's action on
    a control of the panel: [UserEdit] is [user_sets], the overwrite of the
    content of a control (modelled from the spec, as the controls are: the
    spec has the user change a control between two passes). *)
Inductive Call : Type :=
| Construct (d : Declaration)
| Destroy (a : nat)
| SetValue (T : ValueType) (a : nat) (v : carrier T)
| CheckAndResetIfChanged (T : ValueType) (a : nat)
| GetParameter (T : ValueType) (g : ParameterGroup) (n : string)
| CreatePangolinEntries (panel_name : string) (g : ParameterGroup)
| UpdateParameters
| UserEdit (va : nat) (c : Var).

(** What the language and the panel guarantee of a call: an object is
    built at an address no live object has, and the user changes the
    content of a control, not its kind. *)
Definition allowed (w : World) (c : Call) : Prop :=
  match c with
  | Construct d => params w !! decl_this d = None
  | UserEdit va c => exists c0, vars w !! va = Some c0 /\ kind c0 = kind c
  | _ => True
  end.

(** The destructor calls of a program. *)
Definition is_Destroy (c : Call) : bool :=
  match c with
  | Destroy _ => true
  | _ => false
  end.

Section Calls.
Context `{TextConversions}.

(** A call, run: the function of the header it stands for. *)
Definition run_call (c : Call) : M unit :=
  match c with
  | Construct d => declare d
  | Destroy a => Parameter_dtor a
  | SetValue T a v => call_setValue T (Some a) v
  | CheckAndResetIfChanged T a => _ <- call_checkAndResetIfChanged T (Some a) ;; ret tt
  | GetParameter T g n => _ <- getParameter T g n ;; ret tt
  | CreatePangolinEntries panel_name g => createPangolinEntries panel_name g
  | UpdateParameters => updateParameters
  | UserEdit va c => modify_world (user_sets va c)
  end.

(** [reaches w cs w']: the calls [cs], made in order from the state [w],
    lead to the state [w'].  A call that throws leaves the state it had
    reached (the caller may catch the exception and go on); a call with
    undefined behaviour leads nowhere. *)
Inductive reaches : World -> list Call -> World -> Prop :=
| reaches_nil (w : World) : reaches w [] w
| reaches_done (w w1 w2 : World) (c : Call) (cs : list Call) :
    allowed w c -> run_call c w = Done tt w1 -> reaches w1 cs w2 ->
    reaches w (c :: cs) w2
| reaches_thrown (w w1 w2 : World) (c : Call) (cs : list Call) (e : Exn) :
    allowed w c -> run_call c w = Thrown e w1 -> reaches w1 cs w2 ->
    reaches w (c :: cs) w2.

(** What [createPangolinEntry] asks Pangolin for, by category ([BOOL],
    [MINMAX], [TEXTINPUT]; it asks nothing for another category). *)
Definition creation_event (panel_name : string) {T} (p : ParameterT T) : Event :=
  match mCategory p with
  | BOOL =>
      NewToggle (panel_name ++ "." ++ mName p)%string
        (existT T (mValue p)) (existT T (mMaxValue p))
  | MINMAX =>
      NewRange (panel_name ++ "." ++ mName p)%string
        (existT T (mValue p)) (existT T (mMinValue p)) (existT T (mMaxValue p))
  | _ =>
      NewText (panel_name ++ "." ++ mName p)%string (to_string T (mValue p))
  end.

(** The state after [createPangolinEntry] on the object [p] at [a]: a
    control is appended, showing the value of [p], and bound to [p] under
    the group and name of [p]. *)
Definition materialised (panel_name : string) {T} (a : nat) (p : ParameterT T)
    (w : World) : World :=
  match mCategory p with
  | UNDEFINED_CATEGORY => w
  | _ =>
      mkWorld (params w) (vars w ++ [pushed_control p]) (parametersDict w)
        (assign2 (mGroup p) (mName p) (Some a, control_pointer p (length (vars w)))
           (pangolinParams w))
        (log w ++ [creation_event panel_name p])
  end.

(** The body of the loop of [createPangolinEntries]. *)
Definition create_slot (panel_name : string) (it : string * ParameterBasePtr) : M unit :=
  let param := snd it in
  v <- getVariant param ;;
  match which v with
  | 0%nat => createPangolinEntry T_bool param panel_name
  | 1%nat => createPangolinEntry T_int param panel_name
  | 2%nat => createPangolinEntry T_float param panel_name
  | 3%nat => createPangolinEntry T_double param panel_name
  | _ => ret tt
  end.

(** An object on which the first pass after [createPangolinEntries]
    finds nothing to do: the control shows a value equal to the object's. *)
Definition quiet_object (o : ParameterBase) : bool :=
  let T := projT1 o in
  let p := projT2 o in
  match mCategory p with
  | TEXTINPUT =>
      negb (mChangedInCode p) &&
      match lexical_cast T (to_string T (mValue p)) with
      | Some e => negb (neq T e (mValue p))
      | None => false
      end
  | _ => self_equal T (mValue p)
  end.

(** A declaration whose first pass after [createPangolinEntries] finds
    nothing to do: its value compares equal to itself, and for a text
    control the text of the value converts back to a value equal to it. *)
Definition quiet (d : Declaration) : bool :=
  match d with
  | Toggle _ _ _ _ _ _ _ => true
  | Range T _ _ value _ _ _ _ => self_equal T value
  | Text T _ _ value _ _ =>
      match lexical_cast T (to_string T value) with
      | Some e => negb (neq T e value)
      | None => false
      end
  end.

End Calls.

(** A binding table in which every binding is filed under the group and
    name of the live parameter it holds, and holds a control of its own. *)
Record keyed (w : World) : Prop := {
  keyed_maps : well_formed (pangolinParams w);
  keyed_entry : forall g n e,
    dict_find g n (pangolinParams w) = Some e ->
    exists a o, fst e = Some a /\ params w !! a = Some o /\
                group_of o = g /\ name_of o = n /\
                is_Some (vars w !! var_of (snd e));
  keyed_controls : forall g n e g' n' e',
    dict_find g n (pangolinParams w) = Some e ->
    dict_find g' n' (pangolinParams w) = Some e' ->
    var_of (snd e) = var_of (snd e') ->
    (g, n) = (g', n')
}.

(** ** Sample sessions *)

(** [gain] is declared and bound to a slider, [zoom] is declared, the user
    moves the slider to 5.0, a pass runs, and [gain] is destroyed. *)
Definition session_with_destructor : list Call :=
  [Construct (Range T_double 1 "gain" Demo.d1 Demo.d0 Demo.d10 MAIN target_returns);
   CreatePangolinEntries "menu" MAIN;
   Construct (Range T_int 2 "zoom" 2 1 8 MAIN target_returns);
   UserEdit 0 (Var_T T_double Demo.d5);
   UpdateParameters;
   Destroy 1].

(** [threshold] (a text control) and [window] (a slider) are declared and
    bound, the program sets [window] to 7, the user types ["abc"] for
    [threshold], a pass runs (and throws), and the program looks [window]
    up. *)
Definition session_without_destructor : list Call :=
  [Construct (Text T_int 1 "threshold" 3 TRACKING target_returns);
   Construct (Range T_int 2 "window" 5 0 10 TRACKING target_returns);
   CreatePangolinEntries "menu" TRACKING;
   SetValue T_int 2 7;
   UserEdit 0 (Var_string "abc");
   UpdateParameters;
   GetParameter T_int TRACKING "window"].

(** * Properties *)

(** ** Basic facts *)

Lemma ValueType_eq_dec_refl (T : ValueType) : ValueType_eq_dec T T = left eq_refl.
Proof. destruct T; reflexivity. Qed.

Lemma bind_Done {A B} (m : M A) (k : A -> M B) (w w' : World) (a : A) :
  m w = Done a w' -> bind m k w = k a w'.
Proof. intros E. unfold bind. rewrite E. reflexivity. Qed.

Lemma for_each_app {A} (f : A -> M unit) (l1 l2 : list A) (w : World) :
  for_each f (l1 ++ l2) w =
  match for_each f l1 w with
  | Done _ w' => for_each f l2 w'
  | Thrown e w' => Thrown e w'
  | Undefined u => Undefined u
  end.
Proof.
  revert w. induction l1 as [|x l1 IH]; intros w; simpl.
  - reflexivity.
  - unfold bind. destruct (f x w) as [[] w1|e w1|u]; auto.
Qed.

(** A call of the callback completes only when the target returns ... *)
Lemma called_Done (f : StdFunction) (before after w' : World) :
  called f before after = Done tt w' -> f = target_returns /\ w' = after.
Proof. destruct f; cbn [called]; intros E; split; congruence. Qed.

(** ... and never has undefined behaviour. *)
Lemma called_defined (f : StdFunction) (before after : World) (u : UB) :
  called f before after <> Undefined u.
Proof. destruct f; discriminate. Qed.

Lemma called_Thrown (f : StdFunction) (before after w' : World) (e : Exn) :
  called f before after = Thrown e w' ->
  (f = empty_function /\ e = bad_function_call /\ w' = before) \/
  (f = target_throws /\ e = callback_exception /\ w' = after).
Proof. destruct f; cbn [called]; intros E; [left|discriminate|right]; repeat split; congruence. Qed.

(** Closes a goal from the outcome [Done] of a reconciliation. *)
Ltac returned :=
  first
    [ congruence
    | match goal with
      | E : called _ _ _ = Done _ _ |- _ =>
          apply called_Done in E; destruct E; congruence
      end ].

(** ** Running the primitives on a live object *)

Section Primitives.
Context (T : ValueType) (a : nat) (p : ParameterT T) (w : World).
Hypothesis live : params w !! a = Some (existT T p).

Lemma deref_live : deref (Some a) w = Done (existT T p) w.
Proof using live. unfold deref. rewrite live. reflexivity. Qed.

Lemma getVariant_live : getVariant (Some a) w = Done (existT T (mValue p)) w.
Proof using live. unfold getVariant. rewrite (bind_Done _ _ _ _ _ deref_live). reflexivity. Qed.

Lemma getMinValue_live : getMinValue (Some a) w = Done (existT T (mMinValue p)) w.
Proof using live. unfold getMinValue. rewrite (bind_Done _ _ _ _ _ deref_live). reflexivity. Qed.

Lemma getMaxValue_live : getMaxValue (Some a) w = Done (existT T (mMaxValue p)) w.
Proof using live. unfold getMaxValue. rewrite (bind_Done _ _ _ _ _ deref_live). reflexivity. Qed.

Lemma getCategory_live : getCategory (Some a) w = Done (mCategory p) w.
Proof using live. unfold getCategory. rewrite (bind_Done _ _ _ _ _ deref_live). reflexivity. Qed.

Lemma getName_live : getName (Some a) w = Done (mName p) w.
Proof using live. unfold getName. rewrite (bind_Done _ _ _ _ _ deref_live). reflexivity. Qed.

Lemma getGroup_live : getGroup (Some a) w = Done (mGroup p) w.
Proof using live. unfold getGroup. rewrite (bind_Done _ _ _ _ _ deref_live). reflexivity. Qed.

Lemma static_cast_live : static_cast T (Some a) w = Done p w.
Proof using live.
  unfold static_cast. rewrite (bind_Done _ _ _ _ _ deref_live).
  cbn [projT1 projT2]. rewrite ValueType_eq_dec_refl. reflexivity.
Qed.

Lemma write_member_live (f : ParameterT T -> ParameterT T) :
  write_member T (Some a) f w = Done tt (set_params (insert a (existT T (f p))) w).
Proof using live.
  unfold write_member. rewrite (bind_Done _ _ _ _ _ static_cast_live). reflexivity.
Qed.

Lemma setValueInternal_live (value : carrier T) :
  setValueInternal T (Some a) value w =
  Done tt (set_params (insert a (existT T (with_mValue value p))) w).
Proof using live.
  unfold setValueInternal. rewrite (bind_Done _ _ _ _ _ deref_live).
  cbn [projT1 projT2]. rewrite ValueType_eq_dec_refl. reflexivity.
Qed.

Lemma onUpdate_live :
  onUpdate (Some a) w = call_function a (mOnUpdateCallback p) w.
Proof using live. unfold onUpdate. rewrite (bind_Done _ _ _ _ _ deref_live). reflexivity. Qed.
End Primitives.

Lemma boost_get_same (T : ValueType) (v : carrier T) (w : World) :
  boost_get T (existT T v) w = Done v w.
Proof. unfold boost_get. cbn [projT1 projT2]. rewrite ValueType_eq_dec_refl. reflexivity. Qed.

Lemma Var_Get_live (T : ValueType) (va : nat) (x : carrier T) (w : World) :
  vars w !! va = Some (Var_T T x) -> Var_Get T va w = Done x w.
Proof. intros E. unfold Var_Get. rewrite E, ValueType_eq_dec_refl. reflexivity. Qed.

Lemma Var_Get_string_live (va : nat) (s : string) (w : World) :
  vars w !! va = Some (Var_string s) -> Var_Get_string va w = Done s w.
Proof. intros E. unfold Var_Get_string. rewrite E. reflexivity. Qed.

Lemma Var_assign_live (T : ValueType) (va : nat) (x y : carrier T) (w : World) :
  vars w !! va = Some (Var_T T x) ->
  Var_assign T va y w = Done tt (set_vars (insert va (Var_T T y)) w).
Proof.
  intros E. unfold Var_assign. rewrite (bind_Done _ _ _ _ _ (Var_Get_live _ _ _ _ E)).
  reflexivity.
Qed.

Lemma Var_assign_string_live (va : nat) (s t : string) (w : World) :
  vars w !! va = Some (Var_string s) ->
  Var_assign_string va t w = Done tt (set_vars (insert va (Var_string t)) w).
Proof.
  intros E. unfold Var_assign_string.
  rewrite (bind_Done _ _ _ _ _ (Var_Get_string_live _ _ _ E)). reflexivity.
Qed.

Lemma boost_get_Var_same (T : ValueType) (va : nat) (w : World) :
  boost_get_Var T (PV_T T va) w = Done va w.
Proof. unfold boost_get_Var. rewrite ValueType_eq_dec_refl. reflexivity. Qed.

Lemma emit_run (e : Event) (w : World) :
  emit e w = Done tt (set_log (fun l => l ++ [e]) w).
Proof. reflexivity. Qed.

Lemma bind_assoc {A B C} (m : M A) (k : A -> M B) (k' : B -> M C) (w : World) :
  bind (bind m k) k' w = bind m (fun x => bind (k x) k') w.
Proof. unfold bind. destruct (m w); reflexivity. Qed.

Create HintDb cpp discriminated.

#[global] Hint Resolve boost_get_Var_same emit_run : cpp.

#[global] Hint Resolve deref_live getVariant_live getMinValue_live getMaxValue_live
  getCategory_live getName_live getGroup_live static_cast_live write_member_live
  setValueInternal_live boost_get_same Var_Get_live Var_Get_string_live
  Var_assign_live Var_assign_string_live : cpp.

#[global] Hint Extern 1 (_ !! _ = Some _) =>
  cbn [params vars set_params set_vars set_log set_parametersDict set_pangolinParams];
  first [ eassumption | apply lookup_insert_eq ] : cpp.

(** One step of symbolic execution: run the first call of a sequence. *)
Ltac step := first [ rewrite bind_assoc | erewrite bind_Done by (eauto with cpp) ].
Ltac steps := repeat step.

Ltac finish :=
  unfold pushed, pulled, pushing, pulling, set_log, set_params, set_vars;
  cbn [params vars log parametersDict pangolinParams set_params set_vars set_log
       mName mValue with_mValue with_mChangedInCode with_mChangedThroughPangolin];
  rewrite ?insert_insert_eq, <- ?app_assoc; reflexivity.

(** The call of the callback that ends a reconciliation. *)
Ltac callback :=
  erewrite onUpdate_live by eauto with cpp;
  cbn [mOnUpdateCallback with_mValue with_mChangedInCode with_mChangedThroughPangolin];
  match goal with
  | |- context [mOnUpdateCallback ?p] =>
      destruct (mOnUpdateCallback p);
      unfold call_function, called, throw, bind, emit, modify_world
  end; finish.

Section ManagerFacts.
Context `{TextConversions}.

(** The reconciliation of a control of the parameter's own type
    (categories other than [TEXTINPUT]), in closed form. *)
Lemma updateValue_typed (T : ValueType) (a va : nat)
    (p : ParameterT T) (x : carrier T) (w : World) :
  params w !! a = Some (existT T p) ->
  vars w !! va = Some (Var_T T x) ->
  mCategory p <> TEXTINPUT ->
  updateValue T (Some a) (PV_T T va) w =
    if neq T x (mValue p) then
      if mChangedInCode p
      then called (mOnUpdateCallback p) (pushing T a va p (Var_T T (mValue p)) w)
             (pushed T a va p (Var_T T (mValue p)) w)
      else called (mOnUpdateCallback p) (pulling T a p x w) (pulled T a p x w)
    else Done tt w.
Proof.
  intros Hp Hv Hc. unfold updateValue. steps.
  assert (E : forall (k1 k2 : M unit),
             match mCategory p with TEXTINPUT => k1 | _ => k2 end = k2)
    by (intros; destruct (mCategory p); congruence).
  rewrite E. clear E. steps.
  destruct (neq T x (mValue p)); [|reflexivity].
  step. destruct (mChangedInCode p) eqn:Hci.
  - steps. callback.
  - steps. callback.
Qed.

(** The reconciliation of a text control ([TEXTINPUT]), in closed form. *)
Lemma updateValue_text (T : ValueType) (a va : nat)
    (p : ParameterT T) (s : string) (w : World) :
  params w !! a = Some (existT T p) ->
  vars w !! va = Some (Var_string s) ->
  mCategory p = TEXTINPUT ->
  updateValue T (Some a) (PV_string va) w =
    match lexical_cast T s with
    | None => Thrown bad_lexical_cast w
    | Some e =>
        if mChangedInCode p
        then called (mOnUpdateCallback p)
               (pushing T a va p (Var_string (to_string T (mValue p))) w)
               (pushed T a va p (Var_string (to_string T (mValue p))) w)
        else if neq T e (mValue p)
             then called (mOnUpdateCallback p) (pulling T a p e w) (pulled T a p e w)
             else Done tt w
    end.
Proof.
  intros Hp Hv Hc. unfold updateValue. steps. rewrite Hc.
  change (boost_get_Var_string (PV_string va)) with (@ret nat va).
  steps. unfold boost_lexical_cast, bind at 1.
  destruct (lexical_cast T s) as [e|]; [|reflexivity].
  cbn [ret]. step. destruct (mChangedInCode p) eqn:Hci.
  - steps. callback.
  - destruct (neq T e (mValue p)); [|reflexivity].
    steps. callback.
Qed.
End ManagerFacts.

Lemma bind_Thrown {A B} (m : M A) (k : A -> M B) (w w' : World) (e : Exn) :
  m w = Thrown e w' -> bind m k w = Thrown e w'.
Proof. intros E. unfold bind. rewrite E. reflexivity. Qed.

Lemma bind_Undefined {A B} (m : M A) (k : A -> M B) (w : World) (u : UB) :
  m w = Undefined u -> bind m k w = Undefined u.
Proof. intros E. unfold bind. rewrite E. reflexivity. Qed.

Lemma for_each_map {A B} (g : A -> B) (f : B -> M unit) (l : list A) (w : World) :
  for_each (fun x => f (g x)) l w = for_each f (map g l) w.
Proof.
  revert w. induction l as [|x l IH]; intros w; simpl; [reflexivity|].
  unfold bind. destruct (f (g x) w); auto.
Qed.

Lemma for_each_concat {A} (f : A -> M unit) (ll : list (list A)) (w : World) :
  for_each (for_each f) ll w = for_each f (concat ll) w.
Proof.
  revert w. induction ll as [|l ll IH]; intros w; simpl; [reflexivity|].
  rewrite for_each_app. unfold bind.
  destruct (for_each f l w) as [[] w1|e w1|u]; auto.
Qed.

Section ManagerFacts2.
Context `{TextConversions}.

Lemma updateParameters_entries (w : World) :
  updateParameters w = for_each update_entry (entries w) w.
Proof.
  unfold updateParameters, entries.
  rewrite (bind_Done _ _ w w w) by reflexivity.
  generalize (pangolinParams w) at 1 2. intros l. revert w.
  induction l as [|g l IH]; intros w; simpl; [reflexivity|].
  rewrite for_each_app, <- (for_each_map snd update_entry).
  unfold bind.
  destruct (for_each (fun it => update_entry (snd it)) (snd g) w) as [[] w1|e w1|u]; auto.
Qed.

Lemma update_entry_live (T : ValueType) (a : nat) (p : ParameterT T)
    (pv : PangolinVariants) (w : World) :
  params w !! a = Some (existT T p) ->
  update_entry (Some a, pv) w = updateValue T (Some a) pv w.
Proof.
  intros Hp. unfold update_entry. cbn [fst snd]. step.
  destruct T; reflexivity.
Qed.

Lemma update_entry_null (pv : PangolinVariants) (w : World) :
  update_entry (None, pv) w = Undefined NullDereference.
Proof. reflexivity. Qed.

Lemma update_entry_destroyed (a : nat) (pv : PangolinVariants) (w : World) :
  params w !! a = None ->
  update_entry (Some a, pv) w = Undefined UseAfterDestroy.
Proof.
  intros Hp. unfold update_entry, getVariant, deref, bind. cbn [fst snd].
  rewrite Hp. reflexivity.
Qed.

(** A reconciliation completes only on a live parameter bound to a
    control of the kind [createPangolinEntry] makes for its category. *)
Lemma update_entry_Done_inv (entry : ParameterBasePtr * PangolinVariants) (w w' : World) :
  update_entry entry w = Done tt w' ->
  (exists T a va p x,
      entry = (Some a, PV_T T va) /\
      params w !! a = Some (existT T p) /\
      vars w !! va = Some (Var_T T x) /\
      mCategory p <> TEXTINPUT /\
      w' = after_typed T a va p x w)
  \/
  (exists T a va p s e,
      entry = (Some a, PV_string va) /\
      params w !! a = Some (existT T p) /\
      vars w !! va = Some (Var_string s) /\
      mCategory p = TEXTINPUT /\
      lexical_cast T s = Some e /\
      w' = after_text T a va p e w).
Proof.
  destruct entry as [[a|] pv]; [|rewrite update_entry_null; discriminate].
  destruct (params w !! a) as [[T p]|] eqn:Hp;
    [|rewrite update_entry_destroyed by assumption; discriminate].
  rewrite (update_entry_live _ _ _ _ _ Hp).
  destruct (decide (mCategory p = TEXTINPUT)) as [Hc|Hc].
  - destruct pv as [T' va|va].
    + unfold updateValue. steps. rewrite Hc. discriminate.
    + destruct (vars w !! va) as [[T' x|s]|] eqn:Hv.
      * unfold updateValue. steps. rewrite Hc.
        change (boost_get_Var_string (PV_string va)) with (@ret nat va). step.
        unfold bind at 1, Var_Get_string. rewrite Hv. discriminate.
      * rewrite (updateValue_text _ _ _ _ _ _ Hp Hv Hc).
        destruct (lexical_cast T s) as [e|] eqn:He; [|discriminate].
        intros E. right. exists T, a, va, p, s, e.
        repeat split; try assumption. unfold after_text.
        destruct (mChangedInCode p); [returned|].
        destruct (neq T e (mValue p)); returned.
      * unfold updateValue. steps. rewrite Hc.
        change (boost_get_Var_string (PV_string va)) with (@ret nat va). step.
        unfold bind at 1, Var_Get_string. rewrite Hv. discriminate.
  - assert (E : forall (k1 k2 : M unit),
               match mCategory p with TEXTINPUT => k1 | _ => k2 end = k2)
      by (intros; destruct (mCategory p); congruence).
    destruct pv as [T' va|va].
    + destruct (ValueType_eq_dec T' T) as [->|HT].
      * destruct (vars w !! va) as [[T' x|s]|] eqn:Hv.
        -- destruct (ValueType_eq_dec T' T) as [->|HT].
           ++ rewrite (updateValue_typed _ _ _ _ _ _ Hp Hv Hc).
              intros E'. left. exists T, a, va, p, x.
              repeat split; try assumption. unfold after_typed.
              destruct (neq T x (mValue p)); [|congruence].
              destruct (mChangedInCode p); returned.
           ++ unfold updateValue. steps. rewrite E. steps.
              unfold bind at 1, Var_Get. rewrite Hv.
              destruct (ValueType_eq_dec T' T); [contradiction|discriminate].
        -- unfold updateValue. steps. rewrite E. steps.
           unfold bind at 1, Var_Get. rewrite Hv. discriminate.
        -- unfold updateValue. steps. rewrite E. steps.
           unfold bind at 1, Var_Get. rewrite Hv. discriminate.
      * unfold updateValue. steps. rewrite E.
        unfold bind at 1, boost_get_Var.
        destruct (ValueType_eq_dec T' T); [contradiction|discriminate].
    + unfold updateValue. steps. rewrite E. discriminate.
Qed.
End ManagerFacts2.

Lemma callbacks_app (a : nat) (l1 l2 : list Event) :
  callbacks a (l1 ++ l2) = (callbacks a l1 + callbacks a l2)%nat.
Proof.
  induction l1 as [|e l1 IH]; [reflexivity|].
  destruct e; cbn [app callbacks]; rewrite IH; lia.
Qed.

Ltac notin :=
  cbn [map] in *;
  rewrite ?map_app, ?not_elem_of_app, ?not_elem_of_cons in *;
  repeat match goal with |- _ /\ _ => split end;
  try apply not_elem_of_nil;
  intuition congruence.

Lemma callbacks_other (a b : nat) (l : list Event) (n : string) (v : ParameterVariant) :
  a <> b -> callbacks a (l ++ [DLOG_INFO_Value n v; Callback b]) = callbacks a l.
Proof.
  intros Hab. rewrite callbacks_app.
  assert (E : Nat.eqb a b = false) by (apply Nat.eqb_neq; exact Hab).
  cbn [callbacks]. rewrite E. lia.
Qed.

Section Frames.
Context `{TextConversions}.

Lemma pushed_frame T a va p c w : frame w (pushed T a va p c w) [Some a] [va].
Proof.
  split; cbn [pushed params vars log parametersDict pangolinParams]; intros;
    try reflexivity.
  - apply lookup_insert_ne; notin.
  - apply list_lookup_insert_ne; notin.
  - apply callbacks_other. notin.
Qed.

Lemma pulled_frame T a va p x w : frame w (pulled T a p x w) [Some a] [va].
Proof.
  split; cbn [pulled params vars log parametersDict pangolinParams]; intros;
    try reflexivity.
  - apply lookup_insert_ne; notin.
  - apply callbacks_other. notin.
Qed.

Lemma frame_refl w addrs vaddrs : frame w w addrs vaddrs.
Proof. split; reflexivity. Qed.

Lemma after_typed_frame T a va p x w :
  frame w (after_typed T a va p x w) [Some a] [va].
Proof.
  unfold after_typed.
  destruct (neq T x (mValue p)); [destruct (mChangedInCode p)|];
    auto using pushed_frame, pulled_frame, frame_refl.
Qed.

Lemma after_text_frame T a va p e w :
  frame w (after_text T a va p e w) [Some a] [va].
Proof.
  unfold after_text.
  destruct (mChangedInCode p); [|destruct (neq T e (mValue p))];
    auto using pushed_frame, pulled_frame, frame_refl.
Qed.

Lemma update_entry_frame entry w w' :
  update_entry entry w = Done tt w' ->
  frame w w' [fst entry] [var_of (snd entry)].
Proof.
  intros E. apply update_entry_Done_inv in E.
  destruct E as [(T & a & va & p & x & -> & _ & _ & _ & ->)
                |(T & a & va & p & s & e & -> & _ & _ & _ & _ & ->)].
  - apply after_typed_frame.
  - apply after_text_frame.
Qed.

Lemma for_each_frame l w w' :
  for_each update_entry l w = Done tt w' ->
  frame w w' (map fst l) (map (fun e => var_of (snd e)) l).
Proof.
  revert w. induction l as [|e l IH]; intros w E.
  - injection E as <-. apply frame_refl.
  - cbn [for_each] in E. unfold bind in E.
    destruct (update_entry e w) as [[] w1|ex w1|u] eqn:E1; try discriminate.
    apply update_entry_frame in E1. apply IH in E.
    destruct E1 as [P1 V1 C1 D1 G1], E as [P2 V2 C2 D2 G2].
    split; cbn [map].
    + intros a Ha. rewrite P2, P1; [reflexivity| |]; notin.
    + intros va Ha. rewrite V2, V1; [reflexivity| |]; notin.
    + intros a Ha. rewrite C2, C1; [reflexivity| |]; notin.
    + congruence.
    + congruence.
Qed.

Lemma updateParameters_entries_stable w w' :
  updateParameters w = Done tt w' -> entries w' = entries w.
Proof.
  rewrite updateParameters_entries. intros E.
  apply for_each_frame in E. unfold entries. rewrite (frame_pango _ _ _ _ E).
  reflexivity.
Qed.

(** In a pass that completes, an entry is reconciled in a state that
    agrees with the initial one on its parameter and control, and leaves
    them as they are at the end of the pass, provided no other entry
    shares them. *)
Lemma for_each_at l1 a pv l2 w w' :
  Some a ∉ map fst (l1 ++ l2) ->
  var_of pv ∉ map (fun e => var_of (snd e)) (l1 ++ l2) ->
  for_each update_entry (l1 ++ (Some a, pv) :: l2) w = Done tt w' ->
  exists w1 w2,
    for_each update_entry l1 w = Done tt w1 /\
    update_entry (Some a, pv) w1 = Done tt w2 /\
    for_each update_entry l2 w2 = Done tt w' /\
    same_at a (var_of pv) w1 w /\
    same_at a (var_of pv) w' w2.
Proof.
  intros Ha Hv E. rewrite for_each_app in E.
  destruct (for_each update_entry l1 w) as [[] w1|ex w1|u] eqn:E1; try discriminate.
  cbn [for_each] in E. unfold bind in E.
  destruct (update_entry (Some a, pv) w1) as [[] w2|ex w2|u] eqn:E2; try discriminate.
  exists w1, w2.
  pose proof (for_each_frame _ _ _ E1) as F1. pose proof (for_each_frame _ _ _ E) as F2.
  rewrite map_app in Ha, Hv. apply not_elem_of_app in Ha, Hv.
  repeat split; try assumption.
  - apply (frame_params _ _ _ _ F1), Ha.
  - apply (frame_vars _ _ _ _ F1), Hv.
  - apply (frame_callbacks _ _ _ _ F1), Ha.
  - apply (frame_params _ _ _ _ F2), Ha.
  - apply (frame_vars _ _ _ _ F2), Hv.
  - apply (frame_callbacks _ _ _ _ F2), Ha.
Qed.
End Frames.

Lemma as_type_same (T : ValueType) (x : carrier T) : as_type T (existT T x) = Some x.
Proof. unfold as_type. cbn [projT1 projT2]. rewrite ValueType_eq_dec_refl. reflexivity. Qed.

Lemma elem_of_map {A B} (f : A -> B) (l : list A) (x : A) : x ∈ l -> f x ∈ map f l.
Proof. rewrite !list_elem_of_In. apply in_map. Qed.

Lemma unshared_split l a pv :
  unshared l -> (Some a, pv) ∈ l ->
  exists l1 l2, l = l1 ++ (Some a, pv) :: l2 /\
    (Some a ∉ map fst (l1 ++ l2)) /\
    (var_of pv ∉ map (fun e => var_of (snd e)) (l1 ++ l2)).
Proof.
  intros [Hp Hv] Hin. apply list_elem_of_split in Hin as (l1 & l2 & ->).
  exists l1, l2. split; [reflexivity|].
  rewrite map_app in Hp, Hv. cbn [map fst snd] in Hp, Hv.
  apply NoDup_app in Hp as (_ & Hp1 & Hp2). apply NoDup_cons in Hp2 as [Hp2 _].
  apply NoDup_app in Hv as (_ & Hv1 & Hv2). apply NoDup_cons in Hv2 as [Hv2 _].
  rewrite !map_app, !not_elem_of_app. repeat split; try assumption.
  - intros Hin. apply (Hp1 _ Hin). left.
  - intros Hin. apply (Hv1 _ Hin). left.
Qed.

Section Local.
Context `{TextConversions}.

(** One reconciliation, seen from its parameter and its control. *)
Lemma update_entry_local T a pv p x w w' :
  update_entry (Some a, pv) w = Done tt w' ->
  params w !! a = Some (existT T p) ->
  shown_value T pv w = Some x ->
  exists c,
    vars w !! var_of pv = Some c /\
    fits p pv c x /\
    params w' !! a = Some (existT T (reconciled p x)) /\
    vars w' !! var_of pv = Some (control_after p x c) /\
    log w' = log w ++
      (if fires p x
       then [DLOG_INFO_Value (mName p) (existT T (mValue (reconciled p x))); Callback a]
       else []).
Proof.
  intros E Hp Hx. apply update_entry_Done_inv in E.
  destruct E as [(T' & a' & va & p' & x' & E & Hp' & Hv & Hc & ->)
                |(T' & a' & va & p' & s & e & E & Hp' & Hv & Hc & He & ->)];
    injection E as <- ->; rewrite Hp in Hp'; injection Hp' as <- Hp';
    apply Eqdep_dec.inj_pair2_eq_dec in Hp'; try apply ValueType_eq_dec; subst p';
    cbn [shown_value] in Hx; rewrite Hv in Hx; cbn [var_of].
  - rewrite as_type_same in Hx. injection Hx as ->.
    exists (Var_T T x). split; [assumption|]. split; [cbn [fits]; auto|].
    unfold after_typed, reconciled, control_after, fires, pushed, pulled, pull.
    assert (E : forall A (k1 k2 : A),
               match mCategory p with TEXTINPUT => k1 | _ => k2 end = k2)
      by (intros; destruct (mCategory p); congruence).
    rewrite !E. clear E.
    destruct (neq T x (mValue p)); [destruct (mChangedInCode p)|];
      cbn [params vars log andb]; rewrite ?lookup_insert_eq, ?app_nil_r;
      repeat split; try assumption; try reflexivity.
    apply list_lookup_insert_eq. eapply lookup_lt_Some; eassumption.
  - rewrite He in Hx. injection Hx as ->.
    exists (Var_string s). split; [assumption|]. split; [cbn [fits]; eauto|].
    unfold after_text, reconciled, control_after, fires, pushed, pulled, pull.
    rewrite Hc.
    destruct (mChangedInCode p); [|destruct (neq T x (mValue p))];
      cbn [params vars log orb]; rewrite ?lookup_insert_eq, ?app_nil_r;
      repeat split; try assumption; try reflexivity.
    apply list_lookup_insert_eq. eapply lookup_lt_Some; eassumption.
Qed.

(** A reconciliation that completes read a value from its control. *)
Lemma update_entry_shown T a pv p w w' :
  update_entry (Some a, pv) w = Done tt w' ->
  params w !! a = Some (existT T p) ->
  exists x, shown_value T pv w = Some x.
Proof.
  intros E Hp. apply update_entry_Done_inv in E.
  destruct E as [(T' & a' & va & p' & x' & E & Hp' & Hv & Hc & ->)
                |(T' & a' & va & p' & s & e & E & Hp' & Hv & Hc & He & ->)];
    injection E as <- ->; rewrite Hp in Hp'; injection Hp' as <- Hp';
    cbn [shown_value]; rewrite Hv.
  - exists x'. apply as_type_same.
  - exists e. assumption.
Qed.

Lemma shown_value_same_at T a pv w1 w2 :
  same_at a (var_of pv) w1 w2 -> shown_value T pv w1 = shown_value T pv w2.
Proof. intros (_ & E & _). destruct pv; cbn [shown_value var_of] in *; rewrite E; reflexivity. Qed.

(** The same, for a whole pass of [updateParameters]. *)
Lemma updateParameters_local T a pv p w w' :
  updateParameters w = Done tt w' ->
  unshared (entries w) ->
  (Some a, pv) ∈ entries w ->
  params w !! a = Some (existT T p) ->
  exists x c,
    shown_value T pv w = Some x /\
    vars w !! var_of pv = Some c /\
    fits p pv c x /\
    params w' !! a = Some (existT T (reconciled p x)) /\
    vars w' !! var_of pv = Some (control_after p x c) /\
    callbacks a (log w') =
      (callbacks a (log w) + (if fires p x then 1 else 0))%nat.
Proof.
  rewrite updateParameters_entries. intros E Hu Hin Hp.
  destruct (unshared_split _ _ _ Hu Hin) as (l1 & l2 & El & Ha & Hv).
  rewrite El in E.
  destruct (for_each_at _ _ _ _ _ _ Ha Hv E)
    as (w1 & w2 & _ & E2 & _ & (P1 & V1 & C1) & (P2 & V2 & C2)).
  assert (Hp1 : params w1 !! a = Some (existT T p)) by (rewrite P1; exact Hp).
  destruct (update_entry_shown _ _ _ _ _ _ E2 Hp1) as [x Hx].
  destruct (update_entry_local _ _ _ _ _ _ _ E2 Hp1 Hx)
    as (c & Hc & Hs & Hp2 & Hc2 & Hl).
  exists x, c. rewrite P2, V2, C2, Hl, callbacks_app, <- C1, <- V1.
  repeat split; try assumption.
  - destruct pv; cbn [shown_value var_of] in *; rewrite <- V1; exact Hx.
  - destruct (fires p x); cbn [callbacks]; rewrite ?Nat.eqb_refl; lia.
Qed.
End Local.

(** ** The sample states, spelled out *)

Example gain_bound_state :
  Demo.gain_bound =
  mkWorld {[ 1%nat := existT T_double Demo.gain ]}
          [Var_T T_double Demo.d1]
          [(MAIN, [("gain", Some 1%nat)])]
          [(MAIN, [("gain", (Some 1%nat, PV_T T_double 0))])]
          [NewRange "menu.gain" (existT T_double Demo.d1) (existT T_double Demo.d0)
             (existT T_double Demo.d10)].
Proof. vm_compute. reflexivity. Qed.

(** ** [setValue] *)

(** C7. [setValue(v)] stores [v] and raises [mChangedInCode]; every other
    member keeps its value, and the call made on an object of the heap
    changes that object only: the log is the same, so no callback was
    invoked, and the controls and both maps are the same. *)
Theorem setValue_changes_value_and_flag_only (T : ValueType) (a : nat)
    (p : ParameterT T) (v : carrier T) (w : World) :
  params w !! a = Some (existT T p) ->
  mValue (setValue v p) = v /\
  mChangedInCode (setValue v p) = true /\
  mChangedThroughPangolin (setValue v p) = mChangedThroughPangolin p /\
  mName (setValue v p) = mName p /\
  mGroup (setValue v p) = mGroup p /\
  mCategory (setValue v p) = mCategory p /\
  mMinValue (setValue v p) = mMinValue p /\
  mMaxValue (setValue v p) = mMaxValue p /\
  call_setValue T (Some a) v w =
    Done tt (mkWorld (<[a := existT T (setValue v p)]> (params w))
               (vars w) (parametersDict w) (pangolinParams w) (log w)).
Proof.
  intros Hp. repeat split.
  unfold call_setValue. erewrite write_member_live by eassumption. reflexivity.
Qed.

Lemma setValue_changes_value_and_flag_only_witness :
  params Demo.gain_bound !! 1%nat = Some (existT T_double Demo.gain) /\
  mValue (setValue Demo.d7_5 Demo.gain) = Demo.d7_5 /\
  mChangedInCode (setValue Demo.d7_5 Demo.gain) = true /\
  log (state_after (call_setValue T_double (Some 1%nat) Demo.d7_5) Demo.gain_bound)
    = log Demo.gain_bound.
Proof.
  assert (Hp : params Demo.gain_bound !! 1%nat = Some (existT T_double Demo.gain))
    by (vm_compute; reflexivity).
  destruct (setValue_changes_value_and_flag_only T_double 1 Demo.gain Demo.d7_5
              Demo.gain_bound Hp) as (Hv & Hf & _ & _ & _ & _ & _ & _ & Hc).
  split; [exact Hp|]. split; [exact Hv|]. split; [exact Hf|].
  unfold state_after. rewrite Hc. reflexivity.
Defined.

Ltac solve_unshared :=
  split; apply (bool_decide_unpack _); vm_compute; exact I.

(** ** The edge detector [checkAndResetIfChanged] *)

Lemma call_checkAndResetIfChanged_live T a p w :
  params w !! a = Some (existT T p) ->
  call_checkAndResetIfChanged T (Some a) w =
    Done (fst (checkAndResetIfChanged p))
         (set_params (insert a (existT T (snd (checkAndResetIfChanged p)))) w).
Proof.
  intros Hp. unfold call_checkAndResetIfChanged. steps. reflexivity.
Qed.

Section EdgeDetector.
Context `{TextConversions}.


End EdgeDetector.

Section EdgeDetectorRun.
#[local] Existing Instance CLocale.conversions.


End EdgeDetectorRun.


(** ** Propagation of an internal change *)

Section Propagation.
Context `{TextConversions}.

(** A reconciliation either clears [mChangedInCode] (the push towards the
    control), or pulls, or leaves the parameter as it is: never a push and
    a pull together; and the callback is invoked at most once. *)
Lemma reconciled_cases (T : ValueType) (p : ParameterT T) (x : carrier T) :
  (reconciled p x = with_mChangedInCode false p /\ mChangedInCode p = true /\ fires p x = true)
  \/ (reconciled p x = pull x p /\ pulls p x = true /\ fires p x = true)
  \/ (reconciled p x = p /\ fires p x = false).
Proof.
  unfold reconciled, pulls, fires.
  destruct (mCategory p), (mChangedInCode p), (neq T x (mValue p)); cbn; auto.
Qed.


(** The branch of the categories other than [TEXTINPUT] tests
    [mChangedInCode] inside the test that the control differs from the
    parameter.  When the control shows a value equal to the internal one, a
    tick therefore leaves a raised [mChangedInCode] raised, writes nothing
    to the control and does not invoke the callback. *)
Lemma updateParameters_keeps_changedInCode_when_equal (T : ValueType) (a : nat)
    (pv : PangolinVariants) (p : ParameterT T) (x : carrier T) (w w' : World) :
  updateParameters w = Done tt w' ->
  unshared (entries w) ->
  (Some a, pv) ∈ entries w ->
  params w !! a = Some (existT T p) ->
  mCategory p <> TEXTINPUT ->
  mChangedInCode p = true ->
  shown_value T pv w = Some x ->
  neq T x (mValue p) = false ->
  params w' !! a = Some (existT T p) /\
  vars w' !! var_of pv = vars w !! var_of pv /\
  callbacks a (log w') = callbacks a (log w).
Proof.
  intros E Hu Hin Hp Hc Hf Hx Hn.
  destruct (updateParameters_local _ _ _ _ _ _ E Hu Hin Hp)
    as (x' & c & Hx' & Hv & _ & Hp' & Hc' & Hl).
  rewrite Hx in Hx'. injection Hx' as <-.
  assert (E1 : forall A (k1 k2 : A),
             match mCategory p with TEXTINPUT => k1 | _ => k2 end = k2)
    by (intros; destruct (mCategory p); congruence).
  unfold reconciled, control_after, fires in *. rewrite E1, Hn in *.
  cbn [andb] in Hc'. rewrite Hv. repeat split; try assumption. lia.
Qed.

End Propagation.

Section PropagationRun.
#[local] Existing Instance CLocale.conversions.



(** What the flag left behind does later: the user moves the slider to
    5.0, and the next tick overwrites the slider with the old internal
    value 1.0 and invokes the callback; the parameter never sees 5.0. *)
Example stale_changedInCode_discards_user_edit :
  let w := state_after (call_setValue T_double (Some 1%nat) Demo.d1 ;; updateParameters)
             Demo.gain_bound in
  let w' := state_after updateParameters (user_sets 0 (Var_T T_double Demo.d5) w) in
  params w' !! 1%nat = Some (existT T_double Demo.gain) /\
  vars w' !! 0%nat = Some (Var_T T_double Demo.d1) /\
  callbacks 1 (log w') = 1%nat.
Proof. vm_compute. repeat split. Qed.

End PropagationRun.

(** ** No echo of an internal change *)

Section NoEcho.
Context `{TextConversions}.

(** What a control shows once a value has been written to it. *)
Lemma shown_value_lookup T pv w1 w2 :
  vars w1 !! var_of pv = vars w2 !! var_of pv ->
  shown_value T pv w1 = shown_value T pv w2.
Proof. intros E. destruct pv; cbn [shown_value var_of] in *; rewrite E; reflexivity. Qed.


End NoEcho.

Section NoEchoRun.
#[local] Existing Instance CLocale.conversions.

Example scale_bound_state :
  DemoText.scale_bound =
  mkWorld {[ 1%nat := existT T_double DemoText.scale ]}
          [Var_string "0.500000"]
          [(MAIN, [("scale", Some 1%nat)])]
          [(MAIN, [("scale", (Some 1%nat, PV_string 0))])]
          [NewText "menu.scale" "0.500000"].
Proof. vm_compute. reflexivity. Qed.

Example tiny_prints_as_zero :
  to_string T_double Demo.d_tiny = "0.000000" /\
  lexical_cast T_double "0.000000" = Some Demo.d0 /\
  neq T_double Demo.d0 Demo.d_tiny = true.
Proof. vm_compute. repeat split. Qed.



End NoEchoRun.

(** ** Idempotence of the reconciliation pass *)

Section Idempotence.
Context `{TextConversions}.

Lemma settled_quiet w entry : settled w entry -> update_entry entry w = Done tt w.
Proof.
  destruct entry as [ptr pv]. intros (T & a & p & E & Hp & Hs). cbn [fst snd] in *.
  subst ptr. rewrite (update_entry_live _ _ _ _ _ Hp). destruct pv as [T' va|va].
  - destruct Hs as (-> & x & Hv & Hc & Hn).
    rewrite (updateValue_typed _ _ _ _ _ _ Hp Hv Hc), Hn. reflexivity.
  - destruct Hs as (s & e & Hv & Hc & He & Hf & Hn).
    rewrite (updateValue_text _ _ _ _ _ _ Hp Hv Hc), He, Hf, Hn. reflexivity.
Qed.

Lemma settled_same w w' a pv :
  params w' !! a = params w !! a ->
  vars w' !! var_of pv = vars w !! var_of pv ->
  settled w (Some a, pv) -> settled w' (Some a, pv).
Proof.
  intros Ep Ev (T & a' & p & E & Hp & Hs). cbn [fst snd] in *. injection E as <-.
  exists T, a, p. cbn [fst snd]. split; [reflexivity|]. split; [congruence|].
  destruct pv; cbn [var_of] in Ev; rewrite Ev; exact Hs.
Qed.

Lemma echo_free_same w w' a pv :
  params w' !! a = params w !! a ->
  vars w' !! var_of pv = vars w !! var_of pv ->
  echo_free w' (Some a, pv) = echo_free w (Some a, pv).
Proof.
  intros Ep Ev. unfold echo_free. cbn [fst snd]. rewrite Ep.
  destruct pv; cbn [var_of] in Ev; rewrite Ev; reflexivity.
Qed.

Lemma self_equal_true T v : self_equal T v = true -> neq T v v = false.
Proof. unfold self_equal. destruct (neq T v v); [discriminate|reflexivity]. Qed.

(** A reconciliation that completes on an echo-free entry leaves it
    settled. *)
Lemma update_entry_settles entry w w' :
  update_entry entry w = Done tt w' ->
  echo_free w entry = true ->
  settled w' entry.
Proof.
  intros E Hf. apply update_entry_Done_inv in E.
  destruct E as [(T & a & va & p & x & -> & Hp & Hv & Hc & ->)
                |(T & a & va & p & s & e & -> & Hp & Hv & Hc & He & ->)];
    unfold echo_free in Hf; cbn [fst snd] in Hf; rewrite Hp, Hv in Hf;
    cbn [projT1 projT2] in Hf; exists T, a.
  - apply andb_prop in Hf as [Hvv Hxx].
    apply self_equal_true in Hvv, Hxx.
    unfold after_typed. destruct (neq T x (mValue p)) eqn:Hn;
      [destruct (mChangedInCode p) eqn:Hci|].
    + exists (with_mChangedInCode false p). cbn [fst snd pushed params vars].
      rewrite lookup_insert_eq. repeat split. exists (mValue p).
      repeat split; try assumption.
      apply list_lookup_insert_eq. eapply lookup_lt_Some; eassumption.
    + exists (with_mChangedThroughPangolin true (with_mValue x p)).
      cbn [fst snd pulled params vars]. rewrite lookup_insert_eq.
      repeat split. exists x. repeat split; assumption.
    + exists p. cbn [fst snd]. repeat split; try assumption.
      exists x. repeat split; assumption.
  - rewrite He in Hf.
    apply andb_prop in Hf as [Hvv Hf]. apply andb_prop in Hf as [Hee Hrt].
    apply self_equal_true in Hvv, Hee.
    unfold after_text. destruct (mChangedInCode p) eqn:Hci;
      [|destruct (neq T e (mValue p)) eqn:Hn].
    + exists (with_mChangedInCode false p). cbn [fst snd pushed params vars].
      rewrite lookup_insert_eq. repeat split.
      destruct (lexical_cast T (to_string T (mValue p))) as [e'|] eqn:He';
        [|discriminate].
      exists (to_string T (mValue p)), e'. repeat split; try assumption.
      * apply list_lookup_insert_eq. eapply lookup_lt_Some; eassumption.
      * cbn. destruct (neq T e' (mValue p)); [discriminate|reflexivity].
    + exists (with_mChangedThroughPangolin true (with_mValue e p)).
      cbn [fst snd pulled params vars]. rewrite lookup_insert_eq.
      repeat split. exists s, e. repeat split; assumption.
    + exists p. cbn [fst snd]. repeat split; try assumption.
      exists s, e. repeat split; assumption.
Qed.

Lemma for_each_settles l w w' :
  unshared l ->
  for_each update_entry l w = Done tt w' ->
  forallb (echo_free w) l = true ->
  Forall (settled w') l.
Proof.
  revert w. induction l as [|[ptr pv] l IH]; intros w [Hua Huv] E Hf.
  - constructor.
  - cbn [for_each] in E. unfold bind in E.
    destruct (update_entry (ptr, pv) w) as [[] w1|ex w1|u] eqn:E1; try discriminate.
    cbn [forallb] in Hf. apply andb_prop in Hf as [Hf1 Hf2].
    cbn [map fst snd] in Hua, Huv.
    apply NoDup_cons in Hua as [Ha Hua]. apply NoDup_cons in Huv as [Hv Huv].
    pose proof (update_entry_settles _ _ _ E1 Hf1) as Hs.
    pose proof (for_each_frame _ _ _ E) as F.
    pose proof (update_entry_frame _ _ _ E1) as F1. cbn [fst snd] in F1.
    constructor.
    + destruct Hs as (T & a & p & Ea & Hs). cbn [fst] in Ea. subst ptr.
      apply (settled_same w1).
      * apply (frame_params _ _ _ _ F). exact Ha.
      * apply (frame_vars _ _ _ _ F). exact Hv.
      * exists T, a, p. split; [reflexivity|]. exact Hs.
    + apply (IH w1); [split; assumption|exact E|].
      apply forallb_forall. intros [ptr' pv'] Hin.
      rewrite forallb_forall in Hf2. specialize (Hf2 _ Hin).
      destruct ptr' as [a'|]; [|reflexivity].
      rewrite <- Hf2. apply echo_free_same.
      * apply (frame_params _ _ _ _ F1). intros Hin'.
        apply list_elem_of_singleton in Hin'. subst ptr.
        apply Ha. apply list_elem_of_In. apply (in_map fst _ _ Hin).
      * apply (frame_vars _ _ _ _ F1). intros Hin'.
        apply list_elem_of_singleton in Hin'.
        apply Hv. rewrite <- Hin'. apply list_elem_of_In.
        apply (in_map (fun e => var_of (snd e)) _ _ Hin).
Qed.

Lemma for_each_quiet l w :
  Forall (settled w) l -> for_each update_entry l w = Done tt w.
Proof.
  induction 1 as [|e l He _ IH]; [reflexivity|].
  cbn [for_each]. rewrite (bind_Done _ _ _ _ _ (settled_quiet _ _ He)). exact IH.
Qed.

(** C5, amended.  When no parameter and no control is bound twice and
    every entry is echo-free, a tick that completes leaves a state on which
    the next tick completes and changes nothing at all: the same parameters,
    controls, maps and log, hence no callback invoked. *)
Theorem updateParameters_idempotent (w w' : World) :
  unshared (entries w) ->
  forallb (echo_free w) (entries w) = true ->
  updateParameters w = Done tt w' ->
  updateParameters w' = Done tt w'.
Proof.
  intros Hu Hf E.
  pose proof (updateParameters_entries_stable _ _ E) as Hen.
  rewrite updateParameters_entries in *. rewrite Hen.
  apply for_each_quiet. exact (for_each_settles _ _ _ Hu E Hf).
Qed.

End Idempotence.

Section IdempotenceRun.
#[local] Existing Instance CLocale.conversions.

Example tracking_bound_state :
  DemoTracking.tracking_bound =
  mkWorld {[ 1%nat := existT T_int DemoTracking.threshold;
             2%nat := existT T_int DemoTracking.window ]}
          [Var_string "3"; Var_T T_int 5]
          [(TRACKING, [("threshold", Some 1%nat); ("window", Some 2%nat)])]
          [(TRACKING, [("threshold", (Some 1%nat, PV_string 0));
                       ("window", (Some 2%nat, PV_T T_int 1))])]
          [NewText "menu.threshold" "3";
           NewRange "menu.window" (existT T_int 5) (existT T_int 0) (existT T_int 10)].
Proof. vm_compute. reflexivity. Qed.

(** [threshold.setValue(4)], the user moves the slider of [window] to 7,
    and two ticks. *)
Lemma updateParameters_idempotent_witness :
  let w := user_sets 1 (Var_T T_int 7)
             (state_after (call_setValue T_int (Some 1%nat) 4) DemoTracking.tracking_bound) in
  let w' := state_after updateParameters w in
  unshared (entries w) /\
  forallb (echo_free w) (entries w) = true /\
  updateParameters w = Done tt w' /\
  w' <> w /\
  updateParameters w' = Done tt w'.
Proof.
  intros w w'.
  assert (Hu : unshared (entries w)) by solve_unshared.
  assert (Hf : forallb (echo_free w) (entries w) = true) by (vm_compute; reflexivity).
  assert (E : updateParameters w = Done tt w') by (vm_compute; reflexivity).
  split; [exact Hu|]. split; [exact Hf|]. split; [exact E|].
  split; [|exact (updateParameters_idempotent w w' Hu Hf E)].
  intros Eq. apply (f_equal (fun s => length (log s))) in Eq. vm_compute in Eq.
  discriminate.
Defined.

(** C5, as stated, fails: a parameter whose value is a NaN never compares
    equal to its control, so every tick takes the control's value in again,
    raises [mChangedThroughPangolin] and invokes the callback; the second of
    two ticks in a row is not a no-op. *)
Lemma idempotence_counterexample :
  exists w1 w2,
    updateParameters DemoNaN.exposure_bound = Done tt w1 /\
    updateParameters w1 = Done tt w2 /\
    callbacks 1 (log w1) = 1%nat /\
    callbacks 1 (log w2) = 2%nat /\
    w2 <> w1.
Proof.
  eexists _, _.
  split; [vm_compute; reflexivity|].
  split; [vm_compute; reflexivity|].
  split; [vm_compute; reflexivity|].
  split; [vm_compute; reflexivity|].
  intros Eq. apply (f_equal (fun s => length (log s))) in Eq. vm_compute in Eq.
  discriminate.
Qed.

(** It fails as well without any NaN, on the text written by
    [std::to_string]: after [scale.setValue(2^-30)] the first tick writes
    ["0.000000"], and the second tick, with nothing done in between, stores
    0.0 in the parameter and invokes the callback again. *)
Example idempotence_fails_on_lossy_text :
  exists w1 w2,
    updateParameters
      (state_after (call_setValue T_double (Some 1%nat) Demo.d_tiny) DemoText.scale_bound)
      = Done tt w1 /\
    updateParameters w1 = Done tt w2 /\
    params w1 !! 1%nat = Some (existT T_double (with_mValue Demo.d_tiny DemoText.scale)) /\
    params w2 !! 1%nat =
      Some (existT T_double (with_mChangedThroughPangolin true
                               (with_mValue Demo.d0 DemoText.scale))) /\
    callbacks 1 (log w2) = 2%nat.
Proof.
  eexists _, _.
  split; [vm_compute; reflexivity|].
  split; [vm_compute; reflexivity|].
  split; [vm_compute; reflexivity|].
  split; vm_compute; reflexivity.
Qed.

End IdempotenceRun.

(** ** Text that does not convert *)

Section Malformed.
Context `{TextConversions}.

(** C2, amended.  Nothing in [updateValue] or [updateParameters] catches
    [bad_lexical_cast].  When the entries before a [TEXTINPUT] entry
    reconcile and the text of its control does not convert, the exception
    leaves [updateParameters] with the state just as those entries left it:
    the parameter and the text are what they were before the tick, and so is
    everything bound by a later entry, which the pass does not reach. *)
Theorem updateParameters_throws_on_malformed_text (T : ValueType) (a va : nat)
    (p : ParameterT T) (s : string)
    (l1 l2 : list (ParameterBasePtr * PangolinVariants)) (w w1 : World) :
  entries w = l1 ++ (Some a, PV_string va) :: l2 ->
  unshared (entries w) ->
  for_each update_entry l1 w = Done tt w1 ->
  params w !! a = Some (existT T p) ->
  mCategory p = TEXTINPUT ->
  vars w !! va = Some (Var_string s) ->
  lexical_cast T s = None ->
  updateParameters w = Thrown bad_lexical_cast w1 /\
  params w1 !! a = Some (existT T p) /\
  vars w1 !! va = Some (Var_string s) /\
  (forall a' pv', (Some a', pv') ∈ l2 ->
     params w1 !! a' = params w !! a' /\
     vars w1 !! var_of pv' = vars w !! var_of pv').
Proof.
  intros El [Hua Huv] E1 Hp Hc Hv Hs.
  pose proof (for_each_frame _ _ _ E1) as F.
  rewrite El, map_app in Hua, Huv. cbn [map fst snd var_of] in Hua, Huv.
  apply NoDup_app in Hua as (_ & Ha1 & Ha2). apply NoDup_app in Huv as (_ & Hv1 & Hv2).
  assert (Ha : Some a ∉ map fst l1) by (intros Hin; apply (Ha1 _ Hin); left).
  assert (Hva : va ∉ map (fun e => var_of (snd e)) l1)
    by (intros Hin; apply (Hv1 _ Hin); left).
  assert (Hp1 : params w1 !! a = Some (existT T p))
    by (rewrite (frame_params _ _ _ _ F _ Ha); exact Hp).
  assert (Hv1' : vars w1 !! va = Some (Var_string s))
    by (rewrite (frame_vars _ _ _ _ F _ Hva); exact Hv).
  split; [|split; [exact Hp1|split; [exact Hv1'|]]].
  - rewrite updateParameters_entries, El, for_each_app, E1.
    cbn [for_each]. apply bind_Thrown.
    rewrite (update_entry_live _ _ _ _ _ Hp1).
    rewrite (updateValue_text _ _ _ _ _ _ Hp1 Hv1' Hc), Hs. reflexivity.
  - intros a' pv' Hin. split.
    + apply (frame_params _ _ _ _ F). intros Hin1. apply (Ha1 _ Hin1). right.
      apply list_elem_of_In. apply (in_map fst _ (Some a', pv')).
      apply list_elem_of_In. exact Hin.
    + apply (frame_vars _ _ _ _ F). intros Hin1. apply (Hv1 _ Hin1). right.
      apply list_elem_of_In.
      apply (in_map (fun e => var_of (snd e)) _ (Some a', pv')).
      apply list_elem_of_In. exact Hin.
Qed.

End Malformed.

Section MalformedRun.
#[local] Existing Instance CLocale.conversions.

(** C2, as stated, fails: the tick does not complete.  [bad_lexical_cast]
    leaves [updateParameters] at the first entry, and the slider of
    [window], bound by the next entry, is not reconciled: the parameter
    still holds 5. *)
Lemma malformed_text_counterexample :
  updateParameters abc_typed = Thrown bad_lexical_cast abc_typed /\
  (forall w', updateParameters abc_typed <> Done tt w') /\
  vars abc_typed !! 1%nat = Some (Var_T T_int 7) /\
  params abc_typed !! 2%nat = Some (existT T_int DemoTracking.window).
Proof.
  assert (E : updateParameters abc_typed = Thrown bad_lexical_cast abc_typed)
    by (vm_compute; reflexivity).
  split; [exact E|]. split; [intros w'; rewrite E; discriminate|].
  split; vm_compute; reflexivity.
Qed.

Lemma updateParameters_throws_on_malformed_text_witness :
  entries abc_typed = [] ++ (Some 1%nat, PV_string 0) :: [(Some 2%nat, PV_T T_int 1)] /\
  unshared (entries abc_typed) /\
  lexical_cast T_int "abc" = None /\
  updateParameters abc_typed = Thrown bad_lexical_cast abc_typed /\
  params abc_typed !! 1%nat = Some (existT T_int DemoTracking.threshold) /\
  vars abc_typed !! 0%nat = Some (Var_string "abc").
Proof.
  assert (El : entries abc_typed =
               [] ++ (Some 1%nat, PV_string 0) :: [(Some 2%nat, PV_T T_int 1)])
    by (vm_compute; reflexivity).
  assert (Hu : unshared (entries abc_typed)) by solve_unshared.
  assert (Hs : lexical_cast T_int "abc" = None) by (vm_compute; reflexivity).
  assert (Hp : params abc_typed !! 1%nat = Some (existT T_int DemoTracking.threshold))
    by (vm_compute; reflexivity).
  assert (Hv : vars abc_typed !! 0%nat = Some (Var_string "abc"))
    by (vm_compute; reflexivity).
  destruct (updateParameters_throws_on_malformed_text T_int 1 0 DemoTracking.threshold
              "abc" [] [(Some 2%nat, PV_T T_int 1)] abc_typed abc_typed
              El Hu eq_refl Hp eq_refl Hv Hs) as (E & Hp1 & Hv1 & _).
  repeat (split; [assumption|]). assumption.
Defined.

End MalformedRun.

(** ** Facts about [std::map] *)

Lemma group_compare_refl (g : ParameterGroup) : group_compare g g = Eq.
Proof. apply N.compare_refl. Qed.

Lemma name_compare_refl (s : string) : name_compare s s = Eq.
Proof.
  unfold name_compare. induction s as [|c s IH]; [reflexivity|].
  cbn [String.compare]. unfold Ascii.compare. rewrite N.compare_refl. exact IH.
Qed.

Section StdMapFacts.
Context {K V : Type} (cmp : K -> K -> comparison).
Hypothesis cmp_refl : forall k, cmp k k = Eq.

Lemma find_assign_eq (k : K) (v : V) (m : list (K * V)) :
  StdMap.find cmp k (StdMap.assign cmp k v m) = Some v.
Proof using cmp_refl.
  induction m as [|[k' v'] m IH]; cbn [StdMap.assign StdMap.find].
  - rewrite cmp_refl. reflexivity.
  - destruct (cmp k k') eqn:E; cbn [StdMap.find]; rewrite ?cmp_refl, ?E; auto.
Qed.

Lemma at_or_default_assign_eq (d : V) (k : K) (v : V) (m : list (K * V)) :
  StdMap.at_or_default cmp d k (StdMap.assign cmp k v m) = v.
Proof using cmp_refl. unfold StdMap.at_or_default. rewrite find_assign_eq. reflexivity. Qed.
End StdMapFacts.

Lemma dict_find_assign2 {V} (g : ParameterGroup) (n : string) (v : V)
    (m : list (ParameterGroup * list (string * V))) :
  dict_find g n (assign2 g n v m) = Some v.
Proof.
  unfold dict_find, assign2.
  rewrite (at_or_default_assign_eq group_compare group_compare_refl).
  apply (find_assign_eq name_compare name_compare_refl).
Qed.

Lemma find_group_assign2 {V} (g : ParameterGroup) (n : string) (v : V)
    (m : list (ParameterGroup * list (string * V))) :
  StdMap.find group_compare g (assign2 g n v m) =
    Some (StdMap.assign name_compare n v (StdMap.at_or_default group_compare [] g m)).
Proof. unfold assign2. apply (find_assign_eq group_compare group_compare_refl). Qed.

(** ** A destroyed parameter *)

Lemma Parameter_dtor_live (a : nat) (o : ParameterBase) (w : World) :
  params w !! a = Some o ->
  Parameter_dtor a w =
    Done tt (mkWorld (delete a (params w)) (vars w)
               (assign2 (group_of o) (name_of o) nullptr (parametersDict w))
               (pangolinParams w)
               (log w ++ [LOG_WARNING_Deleted (name_of o)])).
Proof.
  intros Hp. unfold Parameter_dtor.
  assert (E : deref (Some a) w = Done o w) by (unfold deref; rewrite Hp; reflexivity).
  rewrite (bind_Done _ _ _ _ _ E). reflexivity.
Qed.

Section Destroyed.
Context `{TextConversions}.

(** A pass over a list that holds an entry for a destroyed parameter does
    not complete. *)
Lemma for_each_destroyed l a pv w w' :
  (Some a, pv) ∈ l ->
  params w !! a = None ->
  for_each update_entry l w <> Done tt w'.
Proof.
  revert w. induction l as [|e l IH]; intros w Hin Hp E.
  - apply elem_of_nil in Hin. exact Hin.
  - cbn [for_each] in E. unfold bind in E.
    destruct (update_entry e w) as [[] w1|ex w1|u] eqn:E1; try discriminate.
    apply elem_of_cons in Hin as [<-|Hin].
    + rewrite (update_entry_destroyed _ _ _ Hp) in E1. discriminate.
    + apply (IH w1 Hin); [|exact E].
      pose proof (update_entry_frame _ _ _ E1) as F.
      rewrite (frame_params _ _ _ _ F); [exact Hp|].
      intros Hin1. apply list_elem_of_singleton in Hin1.
      destruct e as [ptr pv']. cbn [fst] in Hin1. subst ptr.
      rewrite (update_entry_destroyed _ _ _ Hp) in E1. discriminate.
Qed.

(** C3.  The destructor clears the slot of [parametersDict] and leaves
    [pangolinParams] alone, so the entry made for the parameter still holds
    its address.  The next tick does not skip that entry: it never
    completes, and when the entries before it reconcile it reads the
    destroyed object through [param->getVariant()]. *)
Theorem updateParameters_reads_destroyed_parameter (a : nat) (o : ParameterBase)
    (pv : PangolinVariants) (w : World) :
  params w !! a = Some o ->
  (Some a, pv) ∈ entries w ->
  exists w1,
    Parameter_dtor a w = Done tt w1 /\
    params w1 !! a = None /\
    dict_find (group_of o) (name_of o) (parametersDict w1) = Some nullptr /\
    (Some a, pv) ∈ entries w1 /\
    (forall w2, updateParameters w1 <> Done tt w2) /\
    (forall l1 l2 w',
        entries w1 = l1 ++ (Some a, pv) :: l2 ->
        for_each update_entry l1 w1 = Done tt w' ->
        updateParameters w1 = Undefined UseAfterDestroy).
Proof.
  intros Hp Hin. eexists. split; [apply (Parameter_dtor_live _ _ _ Hp)|].
  split; [cbn [params]; apply lookup_delete_eq|].
  split; [|split; [exact Hin|split]].
  - cbn [parametersDict]. apply dict_find_assign2.
  - intros w2. rewrite updateParameters_entries.
    apply (for_each_destroyed _ a pv); [exact Hin|cbn [params]; apply lookup_delete_eq].
  - intros l1 l2 w' El E1.
    rewrite updateParameters_entries, El, for_each_app, E1. cbn [for_each].
    apply bind_Undefined. apply update_entry_destroyed.
    destruct (decide (Some a ∈ map fst l1)) as [Hin1|Hn].
    + exfalso. apply list_elem_of_In, in_map_iff in Hin1 as ([ptr pv'] & Ea & Hin1).
      cbn [fst] in Ea. subst ptr. apply list_elem_of_In in Hin1.
      refine (for_each_destroyed l1 a pv' _ w' Hin1 _ E1).
      cbn [params]. apply lookup_delete_eq.
    + pose proof (for_each_frame _ _ _ E1) as F.
      rewrite (frame_params _ _ _ _ F _ Hn). cbn [params]. apply lookup_delete_eq.
Qed.

End Destroyed.

Section DestroyedRun.
#[local] Existing Instance CLocale.conversions.

(** [gain] is bound to its slider, destroyed, and a tick follows. *)
Lemma updateParameters_reads_destroyed_parameter_witness :
  params Demo.gain_bound !! 1%nat = Some (existT T_double Demo.gain) /\
  (Some 1%nat, PV_T T_double 0) ∈ entries Demo.gain_bound /\
  (Parameter_dtor 1 ;; updateParameters) Demo.gain_bound = Undefined UseAfterDestroy.
Proof.
  assert (Hp : params Demo.gain_bound !! 1%nat = Some (existT T_double Demo.gain))
    by (vm_compute; reflexivity).
  assert (Hin : (Some 1%nat, PV_T T_double 0) ∈ entries Demo.gain_bound)
    by (vm_compute; left).
  split; [exact Hp|]. split; [exact Hin|].
  destruct (updateParameters_reads_destroyed_parameter 1 _ _ _ Hp Hin)
    as (w1 & Ed & _ & _ & _ & _ & Hub).
  rewrite (bind_Done _ _ _ _ _ Ed).
  apply (Hub [] [] w1); [|reflexivity].
  vm_compute in Ed. injection Ed as <-. vm_compute. reflexivity.
Defined.

End DestroyedRun.

(** ** Lookup *)

Lemma getParameter_assign2 (T : ValueType) (g : ParameterGroup) (n : string)
    (ptr : ParameterBasePtr) (d : ParameterDictionary) (w : World) :
  parametersDict w = assign2 g n ptr d ->
  getParameter T g n w = Done ptr w.
Proof.
  intros E. unfold getParameter. rewrite (bind_Done _ _ w w w) by reflexivity.
  rewrite E, find_group_assign2, dict_find_assign2. reflexivity.
Qed.

Lemma getParameter_no_group (T : ValueType) (g : ParameterGroup) (n : string) (w : World) :
  StdMap.find group_compare g (parametersDict w) = None ->
  getParameter T g n w =
    Done nullptr (set_log (fun l => l ++ [DLOG_WARNING_NoGroup g]) w).
Proof.
  intros E. unfold getParameter. rewrite (bind_Done _ _ w w w) by reflexivity.
  rewrite E. reflexivity.
Qed.

Lemma getParameter_no_name (T : ValueType) (g : ParameterGroup) (n : string) (w : World) :
  StdMap.find group_compare g (parametersDict w) <> None ->
  dict_find g n (parametersDict w) = None ->
  getParameter T g n w =
    Done nullptr (set_log (fun l => l ++ [DLOG_WARNING_NoParameter n]) w).
Proof.
  intros Eg E. unfold getParameter. rewrite (bind_Done _ _ w w w) by reflexivity.
  destruct (StdMap.find group_compare g (parametersDict w)); [|contradiction].
  rewrite E. reflexivity.
Qed.

(** C10.  After the destructor the key is still in the map, with a null
    pointer for value.  A lookup of the destroyed parameter returns that
    null pointer and logs nothing, the state being the one the destructor
    left; a lookup that misses, in the same state, returns the same null
    pointer and logs a diagnostic. *)
Theorem getParameter_after_dtor_is_silent (T : ValueType) (a : nat)
    (o : ParameterBase) (w : World) :
  params w !! a = Some o ->
  exists w1,
    Parameter_dtor a w = Done tt w1 /\
    log w1 = log w ++ [LOG_WARNING_Deleted (name_of o)] /\
    dict_find (group_of o) (name_of o) (parametersDict w1) = Some nullptr /\
    getParameter T (group_of o) (name_of o) w1 = Done nullptr w1 /\
    (forall n,
        dict_find (group_of o) n (parametersDict w1) = None ->
        getParameter T (group_of o) n w1 =
          Done nullptr (set_log (fun l => l ++ [DLOG_WARNING_NoParameter n]) w1)) /\
    (forall g n,
        StdMap.find group_compare g (parametersDict w1) = None ->
        getParameter T g n w1 =
          Done nullptr (set_log (fun l => l ++ [DLOG_WARNING_NoGroup g]) w1)).
Proof.
  intros Hp. eexists. split; [apply (Parameter_dtor_live _ _ _ Hp)|].
  split; [reflexivity|].
  split; [cbn [parametersDict]; apply dict_find_assign2|].
  split; [eapply getParameter_assign2; reflexivity|].
  split.
  - intros n Hn. apply getParameter_no_name; [|exact Hn].
    cbn [parametersDict]. rewrite find_group_assign2. discriminate.
  - intros g n Hg. apply getParameter_no_group. exact Hg.
Qed.

Lemma getParameter_after_dtor_is_silent_witness :
  let w1 := state_after (Parameter_dtor 1) Demo.gain_bound in
  params Demo.gain_bound !! 1%nat = Some (existT T_double Demo.gain) /\
  Parameter_dtor 1 Demo.gain_bound = Done tt w1 /\
  getParameter T_double MAIN "gain" w1 = Done nullptr w1 /\
  getParameter T_double MAIN "gian" w1 =
    Done nullptr (set_log (fun l => l ++ [DLOG_WARNING_NoParameter "gian"]) w1).
Proof.
  intros w1.
  assert (Hp : params Demo.gain_bound !! 1%nat = Some (existT T_double Demo.gain))
    by (vm_compute; reflexivity).
  destruct (getParameter_after_dtor_is_silent T_double 1 _ Demo.gain_bound Hp)
    as (w1' & Ed & _ & _ & Hg & Hmiss & _).
  assert (E : w1' = w1) by (vm_compute in Ed; injection Ed as <-; reflexivity).
  subst w1'. split; [exact Hp|]. split; [exact Ed|]. split; [exact Hg|].
  apply (Hmiss "gian"). vm_compute. reflexivity.
Defined.

(** ** Registration *)

Lemma register_run (this : nat) (name : string) (group : ParameterGroup) (w : World) :
  register this name group w =
    Done tt (mkWorld (params w) (vars w)
               (assign2 group name (Some this) (parametersDict w))
               (pangolinParams w)
               (log w ++ match dict_find group name (parametersDict w) with
                         | Some _ => [LOG_WARNING_Duplicate name]
                         | None => []
                         end)).
Proof.
  unfold register. rewrite (bind_Done _ _ w w w) by reflexivity.
  destruct (dict_find group name (parametersDict w)).
  - rewrite (bind_Done _ _ _ _ _ (emit_run _ _)). reflexivity.
  - rewrite (bind_Done _ _ w w tt) by reflexivity.
    unfold modify_world, set_parametersDict. rewrite app_nil_r. reflexivity.
Qed.

(** C8.  When [(group, name)] is already in the registry, each of the
    three constructors, whatever its callback, completes, logs the warning
    "Duplicate parameter", and leaves a registry in which the lookup of
    [(group, name)] returns the new object. *)
Theorem duplicate_registration_overwrites (group : ParameterGroup) (name : string)
    (old : ParameterBasePtr) (this : nat) (w : World) :
  dict_find group name (parametersDict w) = Some old ->
  (forall T value toggle onUpdateCallback,
      exists w',
        Parameter_toggle T this name value toggle group onUpdateCallback w = Done tt w' /\
        log w' = log w ++ [LOG_WARNING_Duplicate name] /\
        forall T', getParameter T' group name w' = Done (Some this) w') /\
  (forall T value minValue maxValue onUpdateCallback,
      exists w',
        Parameter_minmax T this name value minValue maxValue group onUpdateCallback w
          = Done tt w' /\
        log w' = log w ++ [LOG_WARNING_Duplicate name] /\
        forall T', getParameter T' group name w' = Done (Some this) w') /\
  (forall T value onUpdateCallback,
      exists w',
        Parameter_text T this name value group onUpdateCallback w = Done tt w' /\
        log w' = log w ++ [LOG_WARNING_Duplicate name] /\
        forall T', getParameter T' group name w' = Done (Some this) w').
Proof.
  intros Hold.
  assert (R : forall o,
             exists w',
               (modify_world (set_params (insert this o)) ;; register this name group) w
                 = Done tt w' /\
               log w' = log w ++ [LOG_WARNING_Duplicate name] /\
               forall T', getParameter T' group name w' = Done (Some this) w').
  { intros o. eexists. split.
    - rewrite (bind_Done _ _ w _ tt) by reflexivity. apply register_run.
    - cbn [set_params params vars log parametersDict pangolinParams]. rewrite Hold.
      split; [reflexivity|]. intros T'. eapply getParameter_assign2. reflexivity. }
  repeat split; intros; apply R.
Qed.

Section RegistrationRun.
#[local] Existing Instance CLocale.conversions.

(** A second ["threshold"] is declared in [TRACKING], at address [3]. *)
Lemma duplicate_registration_overwrites_witness :
  let w' := state_after (Parameter_minmax T_int 3 "threshold" 8 0 100 TRACKING target_returns)
              DemoTracking.tracking_bound in
  dict_find TRACKING "threshold" (parametersDict DemoTracking.tracking_bound) = Some (Some 1%nat) /\
  Parameter_minmax T_int 3 "threshold" 8 0 100 TRACKING target_returns
    DemoTracking.tracking_bound = Done tt w' /\
  log w' = log DemoTracking.tracking_bound ++ [LOG_WARNING_Duplicate "threshold"] /\
  getParameter T_int TRACKING "threshold" w' = Done (Some 3%nat) w'.
Proof.
  intros w'.
  assert (Hold : dict_find TRACKING "threshold" (parametersDict DemoTracking.tracking_bound)
                 = Some (Some 1%nat)) by (vm_compute; reflexivity).
  destruct (duplicate_registration_overwrites TRACKING "threshold" _ 3 _ Hold)
    as (_ & Hmm & _).
  destruct (Hmm T_int 8 0 100 target_returns) as (w1 & E & Hl & Hg).
  assert (Ew : w1 = w') by (vm_compute in E; injection E as <-; reflexivity).
  subst w1. split; [exact Hold|]. split; [exact E|]. split; [exact Hl|]. apply Hg.
Defined.

End RegistrationRun.

(** ** Iteration order of the registry *)

Lemma group_index_inj (a b : ParameterGroup) : group_index a = group_index b -> a = b.
Proof. destruct a, b; cbn; intros E; try reflexivity; discriminate. Qed.

#[global] Instance group_compare_laws : OrderLaws group_compare.
Proof.
  split; unfold group_compare.
  - intros a b E. apply group_index_inj, N.compare_eq_iff, E.
  - intros a b. apply N.compare_antisym.
  - intros a b c. rewrite !N.compare_lt_iff. apply N.lt_trans.
Qed.

Lemma name_compare_trans (a b c : string) :
  name_compare a b = Lt -> name_compare b c = Lt -> name_compare a c = Lt.
Proof.
  unfold name_compare. revert b c.
  induction a as [|x a IH]; intros [|y b] [|z c]; cbn [String.compare];
    try discriminate; try reflexivity.
  unfold Ascii.compare.
  destruct (N.compare (N_of_ascii x) (N_of_ascii y)) eqn:Exy; try discriminate;
    destruct (N.compare (N_of_ascii y) (N_of_ascii z)) eqn:Eyz; try discriminate;
    intros Hab Hbc.
  - apply N.compare_eq_iff in Exy, Eyz. rewrite Exy, Eyz, N.compare_refl.
    exact (IH _ _ Hab Hbc).
  - apply N.compare_eq_iff in Exy. rewrite Exy, Eyz. reflexivity.
  - apply N.compare_eq_iff in Eyz. rewrite <- Eyz, Exy. reflexivity.
  - apply N.compare_lt_iff in Exy, Eyz.
    rewrite (proj2 (N.compare_lt_iff _ _) (N.lt_trans _ _ _ Exy Eyz)). reflexivity.
Qed.

#[global] Instance name_compare_laws : OrderLaws name_compare.
Proof.
  split.
  - apply String.compare_eq_iff.
  - apply String.compare_antisym.
  - apply name_compare_trans.
Qed.

Section Ascending.
Context {K V : Type} (cmp : K -> K -> comparison) `{!OrderLaws cmp}.

Lemma cmp_refl_of_laws (k : K) : cmp k k = Eq.
Proof.
  pose proof (cmp_antisym k k) as E. destruct (cmp k k); cbn in E; congruence.
Qed.

Lemma cmp_Gt_Lt (a b : K) : cmp a b = Gt -> cmp b a = Lt.
Proof. intros E. pose proof (cmp_antisym b a) as E'. rewrite E in E'. exact E'. Qed.

Lemma elem_of_assign (k : K) (v : V) (m : list (K * V)) (x : K * V) :
  x ∈ StdMap.assign cmp k v m -> x = (k, v) \/ x ∈ m.
Proof.
  induction m as [|[k' v'] m IH]; cbn [StdMap.assign].
  - intros Hx. apply list_elem_of_singleton in Hx. auto.
  - destruct (cmp k k'); rewrite !elem_of_cons; intuition.
Qed.

Lemma keys_assign (k : K) (v : V) (m : list (K * V)) (x : K) :
  x ∈ StdMap.keys (StdMap.assign cmp k v m) <-> x = k \/ x ∈ StdMap.keys m.
Proof.
  unfold StdMap.keys. induction m as [|[k' v'] m IH]; cbn [StdMap.assign map fst].
  - rewrite list_elem_of_singleton, elem_of_nil. tauto.
  - destruct (cmp k k') eqn:E; cbn [map fst]; rewrite ?elem_of_cons.
    + apply cmp_eq in E. subst k'. tauto.
    + tauto.
    + rewrite IH. tauto.
Qed.

Lemma assign_ascending (k : K) (v : V) (m : list (K * V)) :
  ascending cmp m -> ascending cmp (StdMap.assign cmp k v m).
Proof.
  unfold ascending.
  induction m as [|[k' v'] m IH]; cbn [StdMap.assign StdMap.keys map fst]; intros Hm.
  - repeat constructor.
  - apply StronglySorted_inv in Hm as [Hm Hk'].
    destruct (cmp k k') eqn:E; cbn [map fst].
    + apply cmp_eq in E. subst k'. constructor; assumption.
    + constructor; [constructor; assumption|].
      constructor; [exact E|].
      eapply Forall_impl; [exact Hk'|]. intros z Hz. exact (cmp_trans _ _ _ E Hz).
    + constructor; [exact (IH Hm)|].
      apply Forall_forall. intros z Hz.
      apply keys_assign in Hz as [->|Hz].
      * apply cmp_Gt_Lt, E.
      * rewrite Forall_forall in Hk'. apply Hk', Hz.
Qed.

Lemma find_assign_ne (k k' : K) (v : V) (m : list (K * V)) :
  ascending cmp m -> k' <> k ->
  StdMap.find cmp k' (StdMap.assign cmp k v m) = StdMap.find cmp k' m.
Proof.
  unfold ascending. intros Hm Hne.
  assert (Hkk : cmp k' k <> Eq) by (intros E; apply Hne, cmp_eq, E).
  induction m as [|[k0 v0] m IH]; cbn [StdMap.assign StdMap.find].
  - destruct (cmp k' k); congruence.
  - cbn [StdMap.keys map fst] in Hm. apply StronglySorted_inv in Hm as [Hm Hk0].
    destruct (cmp k k0) eqn:E; cbn [StdMap.find].
    + apply cmp_eq in E. subst k0. destruct (cmp k' k); congruence.
    + destruct (cmp k' k) eqn:E'; try congruence.
      rewrite (cmp_trans _ _ _ E' E). reflexivity.
    + destruct (cmp k' k0); auto.
Qed.

Lemma at_or_default_assign_ne (d : V) (k k' : K) (v : V) (m : list (K * V)) :
  ascending cmp m -> k' <> k ->
  StdMap.at_or_default cmp d k' (StdMap.assign cmp k v m) = StdMap.at_or_default cmp d k' m.
Proof. intros Hm Hne. unfold StdMap.at_or_default. rewrite find_assign_ne; auto. Qed.

Lemma find_Some_elem (k : K) (v : V) (m : list (K * V)) :
  StdMap.find cmp k m = Some v -> (k, v) ∈ m.
Proof.
  induction m as [|[k' v'] m IH]; cbn [StdMap.find]; [discriminate|].
  destruct (cmp k k') eqn:E; intros Hf; try discriminate.
  - apply cmp_eq in E. injection Hf as ->. subst k'. left.
  - right. exact (IH Hf).
Qed.
End Ascending.

Lemma labels_app (l1 l2 : list Event) : labels (l1 ++ l2) = labels l1 ++ labels l2.
Proof.
  induction l1 as [|e l1 IH]; [reflexivity|].
  destruct e; cbn [app labels]; rewrite IH; reflexivity.
Qed.

Lemma Forall_assign {K V} (cmp : K -> K -> comparison) (P : K * V -> Prop)
    (k : K) (v : V) (m : list (K * V)) :
  Forall P m -> P (k, v) -> Forall P (StdMap.assign cmp k v m).
Proof.
  intros Hm Hkv. apply Forall_forall. intros x Hx.
  apply elem_of_assign in Hx as [->|Hx]; [exact Hkv|].
  rewrite Forall_forall in Hm. exact (Hm _ Hx).
Qed.

Lemma at_or_default_Forall {K V} (cmp : K -> K -> comparison) `{!OrderLaws cmp}
    (P : V -> Prop) (d : V) (k : K) (m : list (K * V)) :
  Forall (fun it => P (snd it)) m -> P d -> P (StdMap.at_or_default cmp d k m).
Proof.
  intros Hm Hd. unfold StdMap.at_or_default.
  destruct (StdMap.find cmp k m) as [v|] eqn:E; [|exact Hd].
  apply (find_Some_elem cmp) in E. rewrite Forall_forall in Hm. exact (Hm _ E).
Qed.

Lemma declare_run (d : Declaration) (w : World) :
  declare d w =
    Done tt (mkWorld (<[decl_this d := decl_object d]> (params w)) (vars w)
               (assign2 (decl_group d) (decl_name d) (Some (decl_this d)) (parametersDict w))
               (pangolinParams w)
               (log w ++ match dict_find (decl_group d) (decl_name d) (parametersDict w) with
                         | Some _ => [LOG_WARNING_Duplicate (decl_name d)]
                         | None => []
                         end)).
Proof.
  destruct d; cbn [declare decl_this decl_object decl_group decl_name];
    unfold Parameter_toggle, Parameter_minmax, Parameter_text;
    (erewrite bind_Done by reflexivity); rewrite register_run; reflexivity.
Qed.

Lemma decl_object_name (d : Declaration) : name_of (decl_object d) = decl_name d.
Proof. destruct d; reflexivity. Qed.

Lemma decl_object_category (d : Declaration) :
  category_of (decl_object d) <> UNDEFINED_CATEGORY.
Proof. destruct d; discriminate. Qed.

Lemma declare_ok (d : Declaration) (w w' : World) :
  registry_ok w ->
  params w !! decl_this d = None ->
  declare d w = Done tt w' ->
  registry_ok w' /\
  labels (log w') = labels (log w) /\
  (forall a, a <> decl_this d -> params w' !! a = params w !! a) /\
  (forall g n, n ∈ registered_names g w' <->
               (g = decl_group d /\ n = decl_name d) \/ n ∈ registered_names g w).
Proof.
  intros [Ho Hi Hs] Hfresh E. rewrite declare_run in E. injection E as <-.
  assert (Hslot : forall slot, slot_ok w slot ->
            slot_ok (mkWorld (<[decl_this d := decl_object d]> (params w)) (vars w)
                       (assign2 (decl_group d) (decl_name d) (Some (decl_this d))
                          (parametersDict w))
                       (pangolinParams w)
                       (log w ++ match dict_find (decl_group d) (decl_name d)
                                         (parametersDict w) with
                                 | Some _ => [LOG_WARNING_Duplicate (decl_name d)]
                                 | None => []
                                 end)) slot).
  { intros slot (a & o & Ea & Hp & Hn & Hc). exists a, o. cbn [params].
    repeat split; try assumption. rewrite lookup_insert_ne; [exact Hp|].
    intros <-. rewrite Hfresh in Hp. discriminate. }
  split; [split|split; [|split]]; cbn [parametersDict log params].
  - unfold assign2. apply assign_ascending; [apply _|exact Ho].
  - unfold assign2. apply Forall_assign; [exact Hi|]. cbn [snd].
    apply assign_ascending; [apply _|].
    apply (at_or_default_Forall group_compare (ascending name_compare)); [exact Hi|].
    constructor.
  - unfold assign2. apply Forall_assign; cbn [snd].
    + eapply Forall_impl; [exact Hs|]. intros it Hit.
      eapply Forall_impl; [exact Hit|]. exact Hslot.
    + apply Forall_assign.
      * apply (at_or_default_Forall group_compare
                 (Forall (slot_ok _))).
        -- eapply Forall_impl; [exact Hs|]. intros it Hit.
           eapply Forall_impl; [exact Hit|]. exact Hslot.
        -- constructor.
      * exists (decl_this d), (decl_object d). cbn [fst snd params].
        rewrite lookup_insert_eq.
        repeat split; [apply decl_object_name|apply decl_object_category].
  - rewrite labels_app.
    destruct (dict_find _ _ _); cbn [labels]; rewrite app_nil_r; reflexivity.
  - intros a Ha. apply lookup_insert_ne. congruence.
  - intros g n. unfold registered_names. cbn [parametersDict]. unfold assign2.
    destruct (decide (g = decl_group d)) as [->|Hg].
    + rewrite (at_or_default_assign_eq group_compare group_compare_refl).
      rewrite (keys_assign name_compare). tauto.
    + rewrite (at_or_default_assign_ne group_compare) by assumption. tauto.
Qed.

Lemma declarations_ok (ds : list Declaration) (w : World) :
  registry_ok w ->
  (forall d, d ∈ ds -> params w !! decl_this d = None) ->
  NoDup (map decl_this ds) ->
  exists w',
    for_each declare ds w = Done tt w' /\
    registry_ok w' /\
    labels (log w') = labels (log w) /\
    (forall g n, n ∈ registered_names g w' <->
                 n ∈ registered_names g w \/
                 exists d, d ∈ ds /\ decl_group d = g /\ decl_name d = n).
Proof.
  revert w. induction ds as [|d ds IH]; intros w Hok Hfresh Hnd.
  - exists w. split; [reflexivity|]. split; [exact Hok|]. split; [reflexivity|].
    intros g n. split; [auto|].
    intros [Hn|(d & Hd & _)]; [exact Hn|]. apply elem_of_nil in Hd. contradiction.
  - cbn [map] in Hnd. apply NoDup_cons in Hnd as [Hd Hnd].
    pose proof (declare_run d w) as E.
    destruct (declare_ok d w _ Hok (Hfresh d (list_elem_of_here _ _)) E)
      as (Hok1 & Hl1 & Hp1 & Hn1).
    destruct (IH _ Hok1) as (w' & E' & Hok' & Hl' & Hn'); [|exact Hnd|].
    + intros d' Hd'. rewrite Hp1; [apply Hfresh; right; exact Hd'|].
      intros Eq. apply Hd. rewrite <- Eq. apply elem_of_map. exact Hd'.
    + exists w'. split; [cbn [for_each]; rewrite (bind_Done _ _ _ _ _ E); exact E'|].
      split; [exact Hok'|]. split; [congruence|].
      intros g n. rewrite Hn', Hn1. split.
      * intros [[[-> ->]|Hn]|(d' & Hd' & Hg & Hnm)]; auto.
        -- right. exists d. split; [left|]. auto.
        -- right. exists d'. split; [right; exact Hd'|]. auto.
      * intros [Hn|(d' & Hd' & Hg & Hnm)]; auto.
        apply elem_of_cons in Hd' as [->|Hd']; [left; left; auto|].
        right. exists d'. auto.
Qed.

Lemma new_Var_run (v : Var) (e : Event) (w : World) :
  new_Var v e w =
    Done (length (vars w))
         (set_vars (fun l => l ++ [v]) (set_log (fun l => l ++ [e]) w)).
Proof. reflexivity. Qed.

#[global] Hint Resolve new_Var_run : cpp.

Lemma empty_world_ok : registry_ok empty_world.
Proof. split; constructor. Qed.

Section Materialisation.
Context `{TextConversions}.

(** [createPangolinEntry] on a live object built by a constructor creates
    one control, labelled with the panel and the object's name, and touches
    neither the objects nor the registry. *)
Lemma createPangolinEntry_run (T : ValueType) (a : nat) (p : ParameterT T)
    (panel_name : string) (w : World) :
  params w !! a = Some (existT T p) ->
  mCategory p <> UNDEFINED_CATEGORY ->
  exists w' e,
    createPangolinEntry T (Some a) panel_name w = Done tt w' /\
    params w' = params w /\
    parametersDict w' = parametersDict w /\
    log w' = log w ++ [e] /\
    labels [e] = [(panel_name ++ "." ++ mName p)%string].
Proof.
  intros Hp Hc. unfold createPangolinEntry. step.
  destruct (mCategory p) eqn:Ec; [| | |contradiction]; steps;
    (eexists _, _; split; [reflexivity|]); repeat split.
Qed.

(** The loop of [createPangolinEntries] over the slots of a group. *)
Lemma createPangolinEntries_loop (panel_name : string)
    (slots : list (string * ParameterBasePtr)) (w : World) :
  Forall (slot_ok w) slots ->
  exists w',
    for_each
      (fun it =>
         let param := snd it in
         v <- getVariant param ;;
         match which v with
         | 0%nat => createPangolinEntry T_bool param panel_name
         | 1%nat => createPangolinEntry T_int param panel_name
         | 2%nat => createPangolinEntry T_float param panel_name
         | 3%nat => createPangolinEntry T_double param panel_name
         | _ => ret tt
         end) slots w = Done tt w' /\
    parametersDict w' = parametersDict w /\
    labels (log w') =
      labels (log w) ++ map (fun n => (panel_name ++ "." ++ n)%string) (StdMap.keys slots).
Proof.
  revert w. induction slots as [|[n ptr] slots IH]; intros w Hs.
  - exists w. cbn [for_each map StdMap.keys]. rewrite app_nil_r. auto.
  - apply Forall_cons in Hs as [(a & [T p] & Ea & Hp & Hn & Hc) Hs].
    cbn [fst snd] in Ea, Hn. subst ptr.
    unfold name_of, category_of in Hn, Hc. cbn [projT2] in Hn, Hc.
    destruct (createPangolinEntry_run T a p panel_name w Hp Hc)
      as (w1 & e & E1 & Hp1 & Hd1 & Hl1 & He).
    destruct (IH w1) as (w' & E' & Hd' & Hl').
    { eapply Forall_impl; [exact Hs|]. intros slot (a' & o' & ? & ? & ? & ?).
      exists a', o'. rewrite Hp1. auto. }
    exists w'. split; [|split; [congruence|]].
    + cbn [for_each snd]. rewrite bind_assoc.
      rewrite (bind_Done _ _ _ _ _ (getVariant_live _ _ _ _ Hp)).
      assert (Ed : match which (existT T (mValue p)) with
                   | 0%nat => createPangolinEntry T_bool (Some a) panel_name
                   | 1%nat => createPangolinEntry T_int (Some a) panel_name
                   | 2%nat => createPangolinEntry T_float (Some a) panel_name
                   | 3%nat => createPangolinEntry T_double (Some a) panel_name
                   | _ => ret tt
                   end = createPangolinEntry T (Some a) panel_name)
        by (destruct T; reflexivity).
      rewrite Ed, (bind_Done _ _ _ _ _ E1). exact E'.
    + rewrite Hl', Hl1, labels_app, He. cbn [StdMap.keys map fst].
      subst n. rewrite <- (app_assoc (labels (log w))). reflexivity.
Qed.

(** C9, amended.  The registry is a [std::map] keyed by name, so the
    iteration over a group follows the names in ascending byte-wise order,
    whatever the order of the declarations.  For every sequence of
    declarations of distinct objects: the names iterated over for a group
    are strictly ascending, they are the names declared in that group, and
    [createPangolinEntries] creates the controls in that order. *)
Theorem createPangolinEntries_visits_in_name_order (ds : list Declaration)
    (panel_name : string) (g : ParameterGroup) :
  NoDup (map decl_this ds) ->
  exists w w',
    for_each declare ds empty_world = Done tt w /\
    StronglySorted (fun a b => name_compare a b = Lt) (registered_names g w) /\
    (forall n, n ∈ registered_names g w <->
               exists d, d ∈ ds /\ decl_group d = g /\ decl_name d = n) /\
    createPangolinEntries panel_name g w = Done tt w' /\
    labels (log w') =
      map (fun n => (panel_name ++ "." ++ n)%string) (registered_names g w).
Proof.
  intros Hnd.
  destruct (declarations_ok ds empty_world empty_world_ok) as (w & E & Hok & Hl & Hn);
    [intros; apply lookup_empty|exact Hnd|].
  destruct Hok as [Ho Hi Hs].
  set (slots := StdMap.at_or_default group_compare [] g (parametersDict w)).
  assert (Hslots : Forall (slot_ok w) slots).
  { apply (at_or_default_Forall group_compare (Forall (slot_ok w))); [exact Hs|].
    constructor. }
  assert (Et : StdMap.at_or_default group_compare [] g (touch g (parametersDict w)) = slots).
  { unfold touch, slots, StdMap.at_or_default.
    destruct (StdMap.find group_compare g (parametersDict w)) eqn:Ef.
    - rewrite Ef. reflexivity.
    - rewrite (find_assign_eq group_compare group_compare_refl). reflexivity. }
  destruct (createPangolinEntries_loop panel_name slots
              (set_parametersDict (touch g) w)) as (w' & E' & _ & Hl').
  { eapply Forall_impl; [exact Hslots|]. intros slot (a & o & ? & ? & ? & ?).
    exists a, o. auto. }
  exists w, w'. split; [exact E|]. split.
  { apply (at_or_default_Forall group_compare (ascending name_compare)); [exact Hi|].
    constructor. }
  split.
  { intros n. rewrite Hn. split; [|auto].
    intros [Hn0|Hd]; [|exact Hd]. apply elem_of_nil in Hn0. contradiction. }
  split.
  - unfold createPangolinEntries.
    rewrite (bind_Done _ _ w (set_parametersDict (touch g) w) tt) by reflexivity.
    rewrite (bind_Done _ _ _ (set_parametersDict (touch g) w)
               (set_parametersDict (touch g) w)) by reflexivity.
    cbn [parametersDict set_parametersDict]. rewrite Et. exact E'.
  - rewrite Hl'. cbn [log set_parametersDict]. rewrite Hl. reflexivity.
Qed.

End Materialisation.

Section MaterialisationRun.
#[local] Existing Instance CLocale.conversions.

(** C9, as stated, fails: the control of ["alpha"] is created first. *)
Lemma insertion_order_counterexample :
  exists w w',
    for_each declare zoom_then_alpha empty_world = Done tt w /\
    createPangolinEntries "menu" MAIN w = Done tt w' /\
    labels (log w') = ["menu.alpha"; "menu.zoom"] /\
    labels (log w') <> map (fun d => ("menu." ++ decl_name d)%string) zoom_then_alpha.
Proof.
  eexists _, _.
  split; [vm_compute; reflexivity|].
  split; [vm_compute; reflexivity|].
  split; [vm_compute; reflexivity|].
  vm_compute. discriminate.
Qed.

Lemma createPangolinEntries_visits_in_name_order_witness :
  NoDup (map decl_this zoom_then_alpha) /\
  exists w w',
    for_each declare zoom_then_alpha empty_world = Done tt w /\
    registered_names MAIN w = ["alpha"; "zoom"] /\
    createPangolinEntries "menu" MAIN w = Done tt w' /\
    labels (log w') = ["menu.alpha"; "menu.zoom"].
Proof.
  assert (Hnd : NoDup (map decl_this zoom_then_alpha))
    by (apply (bool_decide_unpack _); vm_compute; exact I).
  split; [exact Hnd|].
  destruct (createPangolinEntries_visits_in_name_order zoom_then_alpha "menu" MAIN Hnd)
    as (w & w' & E & _ & _ & E' & Hl).
  exists w, w'.
  assert (Hnames : registered_names MAIN w = ["alpha"; "zoom"])
    by (vm_compute in E; injection E as <-; vm_compute; reflexivity).
  split; [exact E|]. split; [exact Hnames|]. split; [exact E'|].
  rewrite Hl, Hnames. reflexivity.
Defined.

End MaterialisationRun.

(** * Further properties *)

(** ** The registry under constructors and destructors *)

Lemma assign2_well_formed {V} (g : ParameterGroup) (n : string) (v : V)
    (m : list (ParameterGroup * list (string * V))) :
  well_formed m -> well_formed (assign2 g n v m).
Proof.
  intros [Ho Hi]. split; unfold assign2.
  - apply assign_ascending; [apply _|exact Ho].
  - apply Forall_assign; [exact Hi|]. cbn [snd].
    apply assign_ascending; [apply _|].
    apply (at_or_default_Forall group_compare (ascending name_compare)); [exact Hi|].
    constructor.
Qed.

Lemma dict_find_assign2_ne {V} (g g' : ParameterGroup) (n n' : string) (v : V)
    (m : list (ParameterGroup * list (string * V))) :
  well_formed m -> (g', n') <> (g, n) ->
  dict_find g' n' (assign2 g n v m) = dict_find g' n' m.
Proof.
  intros [Ho Hi] Hne. unfold dict_find, assign2.
  destruct (decide (g' = g)) as [->|Hg].
  - rewrite (at_or_default_assign_eq group_compare group_compare_refl).
    apply (find_assign_ne name_compare); [|congruence].
    apply (at_or_default_Forall group_compare (ascending name_compare)); [exact Hi|].
    constructor.
  - rewrite (at_or_default_assign_ne group_compare) by assumption. reflexivity.
Qed.

Lemma find_group_assign2_ne {V} (g g' : ParameterGroup) (n : string) (v : V)
    (m : list (ParameterGroup * list (string * V))) :
  well_formed m -> g' <> g ->
  StdMap.find group_compare g' (assign2 g n v m) = StdMap.find group_compare g' m.
Proof. intros [Ho _] Hg. unfold assign2. apply (find_assign_ne group_compare); assumption. Qed.

Lemma dict_find_group {V} (g : ParameterGroup) (n : string) (v : V)
    (m : list (ParameterGroup * list (string * V))) :
  dict_find g n m = Some v -> StdMap.find group_compare g m <> None.
Proof.
  unfold dict_find, StdMap.at_or_default.
  destruct (StdMap.find group_compare g m); [discriminate|]. discriminate.
Qed.

Lemma getParameter_found (T : ValueType) (g : ParameterGroup) (n : string)
    (ptr : ParameterBasePtr) (w : World) :
  dict_find g n (parametersDict w) = Some ptr ->
  getParameter T g n w = Done ptr w.
Proof.
  intros E. unfold getParameter.
  rewrite (bind_Done _ _ w w w) by reflexivity.
  pose proof (dict_find_group _ _ _ _ E) as Hg.
  destruct (StdMap.find group_compare g (parametersDict w)); [|contradiction].
  rewrite E. reflexivity.
Qed.

Lemma declares_spec (g : ParameterGroup) (n : string) (d : Declaration) :
  declares g n d = true <-> (decl_group d, decl_name d) = (g, n).
Proof.
  unfold declares. rewrite andb_true_iff, bool_decide_eq_true, String.eqb_eq.
  split; [intros [-> ->]; reflexivity|intros [= -> ->]; auto].
Qed.

Lemma well_formed_nil {V} : well_formed ([] : list (ParameterGroup * list (string * V))).
Proof. split; constructor. Qed.

(** X1.  A constructor called with a group and name that the registry does
    not hold completes without a warning; the object it builds starts with
    both change flags clear, and the lookup of its group and name then
    returns it, without a diagnostic. *)
Theorem fresh_registration_is_silent (d : Declaration) (w : World) :
  dict_find (decl_group d) (decl_name d) (parametersDict w) = None ->
  exists w',
    declare d w = Done tt w' /\
    log w' = log w /\
    params w' !! decl_this d = Some (decl_object d) /\
    mChangedInCode (projT2 (decl_object d)) = false /\
    mChangedThroughPangolin (projT2 (decl_object d)) = false /\
    (forall T, getParameter T (decl_group d) (decl_name d) w' = Done (Some (decl_this d)) w') /\
    call_checkAndResetIfChanged (projT1 (decl_object d)) (Some (decl_this d)) w' =
      Done false w'.
Proof.
  intros Hfresh. eexists. split; [apply declare_run|].
  rewrite Hfresh. cbn [log params parametersDict]. rewrite app_nil_r, lookup_insert_eq.
  split; [reflexivity|]. split; [reflexivity|].
  split; [destruct d; reflexivity|]. split; [destruct d; reflexivity|].
  split.
  - intros T. apply getParameter_found. cbn [parametersDict]. apply dict_find_assign2.
  - destruct d; cbn [decl_object projT1 decl_this decl_group decl_name];
      (erewrite call_checkAndResetIfChanged_live
         by (cbn [params]; apply lookup_insert_eq));
      unfold checkAndResetIfChanged; cbn [mChangedThroughPangolin fst snd];
      unfold set_params; cbn [params vars parametersDict pangolinParams log];
      rewrite insert_insert_eq; reflexivity.
Qed.

Lemma fresh_registration_is_silent_witness :
  dict_find MAIN "gain" (parametersDict empty_world) = None /\
  exists w',
    Parameter_minmax T_double 1 "gain" Demo.d1 Demo.d0 Demo.d10 MAIN target_returns empty_world = Done tt w' /\
    log w' = [] /\
    getParameter T_double MAIN "gain" w' = Done (Some 1%nat) w'.
Proof.
  split; [reflexivity|].
  destruct (fresh_registration_is_silent
              (Range T_double 1 "gain" Demo.d1 Demo.d0 Demo.d10 MAIN target_returns) empty_world)
    as (w' & E & Hl & _ & _ & _ & Hg & _); [reflexivity|].
  exists w'. split; [exact E|]. split; [exact Hl|]. exact (Hg T_double).
Defined.

(** X2.  The destructor writes to one slot of the registry, its own: the
    lookup of every other group and name finds what it found before, every
    other object stays as it is, and the controls and the binding table are
    not touched. *)
Theorem destructor_touches_its_slot_only (a : nat) (o : ParameterBase) (w : World) :
  params w !! a = Some o ->
  well_formed (parametersDict w) ->
  exists w',
    Parameter_dtor a w = Done tt w' /\
    (forall g n, (g, n) <> (group_of o, name_of o) ->
       dict_find g n (parametersDict w') = dict_find g n (parametersDict w)) /\
    (forall b, b <> a -> params w' !! b = params w !! b) /\
    vars w' = vars w /\
    pangolinParams w' = pangolinParams w.
Proof.
  intros Hp Hwf. eexists. split; [apply Parameter_dtor_live, Hp|].
  cbn [parametersDict params vars pangolinParams]. split; [|split; [|split]]; try reflexivity.
  - intros g n Hne. apply dict_find_assign2_ne; assumption.
  - intros b Hb. apply lookup_delete_ne. congruence.
Qed.

Lemma destructor_touches_its_slot_only_witness :
  let w' := state_after (Parameter_dtor 1) DemoTracking.tracking_bound in
  Parameter_dtor 1 DemoTracking.tracking_bound = Done tt w' /\
  dict_find TRACKING "window" (parametersDict w') = Some (Some 2%nat) /\
  params w' !! 2%nat = Some (existT T_int DemoTracking.window).
Proof.
  assert (Hp : params DemoTracking.tracking_bound !! 1%nat =
               Some (existT T_int DemoTracking.threshold)) by (vm_compute; reflexivity).
  assert (Hwf : well_formed (parametersDict DemoTracking.tracking_bound)).
  { split; vm_compute; repeat constructor. }
  destruct (destructor_touches_its_slot_only 1 _ _ Hp Hwf) as (w' & E & Hd & Hq & _).
  assert (Ew : state_after (Parameter_dtor 1) DemoTracking.tracking_bound = w')
    by (unfold state_after; rewrite E; reflexivity).
  cbv zeta. rewrite Ew. split; [exact E|]. split.
  - rewrite (Hd TRACKING "window") by discriminate. vm_compute. reflexivity.
  - rewrite (Hq 2%nat) by discriminate. vm_compute. reflexivity.
Defined.

(** The registry after a sequence of declarations, from a well-formed
    one. *)
Lemma declarations_registry (ds earlier : list Declaration) (w0 : World) :
  well_formed (parametersDict w0) ->
  (forall g n, dict_find g n (parametersDict w0) <> None <->
               existsb (declares g n) earlier = true) ->
  exists w,
    for_each declare ds w0 = Done tt w /\
    well_formed (parametersDict w) /\
    (forall g n,
        dict_find g n (parametersDict w) =
          match last_declared g n ds with
          | Some a => Some (Some a)
          | None => dict_find g n (parametersDict w0)
          end) /\
    (forall g,
        StdMap.find group_compare g (parametersDict w) <> None <->
        StdMap.find group_compare g (parametersDict w0) <> None \/
        existsb (fun d => bool_decide (decl_group d = g)) ds = true) /\
    log w = log w0 ++ duplicate_warnings earlier ds.
Proof.
  revert earlier w0. induction ds as [|d ds IH]; intros earlier w0 Hwf Hearlier.
  - exists w0. cbn [for_each last_declared existsb duplicate_warnings].
    rewrite app_nil_r.
    split; [reflexivity|]. split; [exact Hwf|]. split; [reflexivity|].
    split; [|reflexivity].
    intros g. split; [auto|]. intros [Hg|Hg]; [exact Hg|discriminate].
  - pose proof (declare_run d w0) as E.
    set (w1 := mkWorld (<[decl_this d := decl_object d]> (params w0)) (vars w0)
                 (assign2 (decl_group d) (decl_name d) (Some (decl_this d)) (parametersDict w0))
                 (pangolinParams w0)
                 (log w0 ++ match dict_find (decl_group d) (decl_name d) (parametersDict w0) with
                            | Some _ => [LOG_WARNING_Duplicate (decl_name d)]
                            | None => []
                            end)) in E.
    assert (Hfind1 : forall g n,
               dict_find g n (parametersDict w1) =
                 if declares g n d then Some (Some (decl_this d))
                 else dict_find g n (parametersDict w0)).
    { intros g n. cbn [w1 parametersDict].
      destruct (declares g n d) eqn:Ed.
      - apply declares_spec in Ed. injection Ed as <- <-. apply dict_find_assign2.
      - apply dict_find_assign2_ne; [exact Hwf|].
        intros Eq. symmetry in Eq. apply declares_spec in Eq. congruence. }
    destruct (IH (earlier ++ [d]) w1) as (w & E' & Hwf' & Hfind & Hgroup & Hlog).
    { cbn [w1 parametersDict]. apply assign2_well_formed, Hwf. }
    { intros g n. rewrite Hfind1, existsb_app. cbn [existsb]. rewrite orb_false_r.
      destruct (declares g n d).
      - rewrite orb_true_r. split; [reflexivity|discriminate].
      - rewrite orb_false_r. apply Hearlier. }
    exists w. split; [cbn [for_each]; rewrite (bind_Done _ _ _ _ _ E); exact E'|].
    split; [exact Hwf'|]. split; [|split].
    + intros g n. rewrite Hfind, Hfind1. cbn [last_declared].
      destruct (last_declared g n ds); [reflexivity|].
      destruct (declares g n d); reflexivity.
    + intros g. rewrite Hgroup. cbn [existsb w1 parametersDict].
      rewrite orb_true_iff, bool_decide_eq_true.
      destruct (decide (g = decl_group d)) as [->|Hg].
      * rewrite find_group_assign2. split; [auto|]. intros _. left. discriminate.
      * rewrite find_group_assign2_ne by assumption.
        split; [tauto|]. intros [?|[?|?]]; auto; congruence.
    + rewrite Hlog. cbn [w1 log duplicate_warnings]. rewrite <- app_assoc. f_equal. f_equal.
      destruct (dict_find (decl_group d) (decl_name d) (parametersDict w0)) eqn:Ef.
      * assert (Hx : existsb (declares (decl_group d) (decl_name d)) earlier = true)
          by (apply Hearlier; rewrite Ef; discriminate).
        rewrite Hx. reflexivity.
      * destruct (existsb (declares (decl_group d) (decl_name d)) earlier) eqn:Hx;
          [|reflexivity].
        apply Hearlier in Hx. contradiction.
Qed.

(** X3.  After any sequence of constructor calls on an empty registry, the
    lookup of a group and name returns the object of the last declaration
    made with them, silently; when there is none it returns null with a
    diagnostic, which names the group if nothing was declared in it and the
    parameter otherwise. *)
Theorem lookup_returns_last_declaration (ds : list Declaration) (T : ValueType)
    (g : ParameterGroup) (n : string) :
  exists w,
    for_each declare ds empty_world = Done tt w /\
    getParameter T g n w =
      match last_declared g n ds with
      | Some a => Done (Some a) w
      | None =>
          Done nullptr
            (set_log (fun l => l ++
               [if existsb (fun d => bool_decide (decl_group d = g)) ds
                then DLOG_WARNING_NoParameter n
                else DLOG_WARNING_NoGroup g]) w)
      end.
Proof.
  destruct (declarations_registry ds [] empty_world) as (w & E & _ & Hfind & Hgroup & _).
  { apply well_formed_nil. }
  { intros g' n'. cbn. split; [intros Hx; contradiction Hx; reflexivity|discriminate]. }
  exists w. split; [exact E|].
  specialize (Hfind g n). specialize (Hgroup g).
  destruct (last_declared g n ds) as [a|].
  - apply getParameter_found, Hfind.
  - cbn [empty_world parametersDict] in Hfind, Hgroup.
    destruct (existsb (fun d => bool_decide (decl_group d = g)) ds).
    + apply getParameter_no_name; [apply Hgroup; auto|exact Hfind].
    + apply getParameter_no_group.
      destruct (StdMap.find group_compare g (parametersDict w)) eqn:Ef; [|reflexivity].
      assert (Hx : Some l <> None) by discriminate.
      apply Hgroup in Hx as [Hx|Hx]; [contradiction Hx; reflexivity|discriminate].
Qed.

(** X4.  Over a sequence of constructor calls on an empty registry, the
    log receives one warning "Duplicate parameter" for each declaration
    whose group and name an earlier declaration used, in order, and nothing
    else. *)
Theorem one_warning_per_repeated_declaration (ds : list Declaration) :
  exists w,
    for_each declare ds empty_world = Done tt w /\
    log w = duplicate_warnings [] ds.
Proof.
  destruct (declarations_registry ds [] empty_world) as (w & E & _ & _ & _ & Hlog).
  { apply well_formed_nil. }
  { intros g' n'. cbn. split; [intros Hx; contradiction Hx; reflexivity|discriminate]. }
  exists w. split; [exact E|exact Hlog].
Qed.

(** X5.  The destructor clears the slot of its group and name whatever
    the slot holds.  When two objects are declared with the same group and
    name, the second takes the slot; destroying the first then leaves the
    second alive and out of the registry: its lookup returns null. *)
Theorem destructor_unregisters_newer_object (d1 d2 : Declaration) (w : World) :
  decl_group d2 = decl_group d1 ->
  decl_name d2 = decl_name d1 ->
  decl_this d2 <> decl_this d1 ->
  exists w1 w',
    (declare d1 ;; declare d2) w = Done tt w1 /\
    (forall T, getParameter T (decl_group d2) (decl_name d2) w1 = Done (Some (decl_this d2)) w1) /\
    Parameter_dtor (decl_this d1) w1 = Done tt w' /\
    params w' !! decl_this d2 = Some (decl_object d2) /\
    (forall T, getParameter T (decl_group d2) (decl_name d2) w' = Done nullptr w').
Proof.
  intros Hg Hn Hne.
  eexists _, _. split.
  { rewrite (bind_Done _ _ _ _ _ (declare_run d1 w)). apply declare_run. }
  split.
  { intros T. apply getParameter_found. cbn [parametersDict]. apply dict_find_assign2. }
  assert (Hp1 : forall m : gmap nat ParameterBase,
             <[decl_this d2 := decl_object d2]> (<[decl_this d1 := decl_object d1]> m)
               !! decl_this d1 = Some (decl_object d1)).
  { intros m. rewrite lookup_insert_ne by congruence. apply lookup_insert_eq. }
  split.
  { apply Parameter_dtor_live. cbn [params]. apply Hp1. }
  cbn [params parametersDict]. split.
  - rewrite lookup_delete_ne by congruence. apply lookup_insert_eq.
  - intros T. apply getParameter_found. cbn [parametersDict].
    unfold group_of, name_of.
    replace (mGroup (projT2 (decl_object d1))) with (decl_group d2)
      by (rewrite Hg; destruct d1; reflexivity).
    replace (mName (projT2 (decl_object d1))) with (decl_name d2)
      by (rewrite Hn; destruct d1; reflexivity).
    apply dict_find_assign2.
Qed.

Lemma destructor_unregisters_newer_object_witness :
  exists w1 w',
    (Parameter_minmax T_int 1 "zoom" 2 1 8 MAIN target_returns ;;
     Parameter_minmax T_int 2 "zoom" 3 1 8 MAIN target_returns) empty_world = Done tt w1 /\
    getParameter T_int MAIN "zoom" w1 = Done (Some 2%nat) w1 /\
    Parameter_dtor 1 w1 = Done tt w' /\
    is_Some (params w' !! 2%nat) /\
    getParameter T_int MAIN "zoom" w' = Done nullptr w'.
Proof.
  destruct (destructor_unregisters_newer_object
              (Range T_int 1 "zoom" 2 1 8 MAIN target_returns) (Range T_int 2 "zoom" 3 1 8 MAIN target_returns) empty_world)
    as (w1 & w' & E & Hg & Ed & Hp & Hg'); [reflexivity|reflexivity|discriminate|].
  exists w1, w'. split; [exact E|]. split; [exact (Hg T_int)|]. split; [exact Ed|].
  split; [cbn [decl_this] in Hp; rewrite Hp; eexists; reflexivity|exact (Hg' T_int)].
Defined.

(** ** What a reconciliation pass leaves alone *)

Section Outcomes.
Context `{TextConversions}.

Lemma tick_frame_refl (w : World) : tick_frame w w.
Proof.
  split; try reflexivity. exists []. rewrite app_nil_r. split; reflexivity.
Qed.

Lemma tick_frame_trans (w1 w2 w3 : World) :
  tick_frame w1 w2 -> tick_frame w2 w3 -> tick_frame w1 w3.
Proof.
  intros [D1 G1 I1 K1 N1 (l1 & L1 & F1)] [D2 G2 I2 K2 N2 (l2 & L2 & F2)].
  split; [congruence|congruence| | |congruence|].
  - intros a. rewrite I2. apply I1.
  - intros va. rewrite K2. apply K1.
  - exists (l1 ++ l2). rewrite L2, L1, <- app_assoc, forallb_app, F1, F2. split; reflexivity.
Qed.

Lemma pushed_tick_frame T a va (p : ParameterT T) (c0 c : Var) (w : World) :
  params w !! a = Some (existT T p) ->
  vars w !! va = Some c0 -> kind c = kind c0 ->
  tick_frame w (pushed T a va p c w).
Proof.
  intros Hp Hv Hk.
  split; cbn [pushed params vars log parametersDict pangolinParams]; try reflexivity.
  - intros b. destruct (decide (b = a)) as [->|Hb].
    + rewrite lookup_insert_eq, Hp. reflexivity.
    + rewrite lookup_insert_ne by congruence. reflexivity.
  - intros vb. destruct (decide (vb = va)) as [->|Hb].
    + rewrite list_lookup_insert_eq by (eapply lookup_lt_Some; exact Hv).
      rewrite Hv. cbn. rewrite Hk. reflexivity.
    + rewrite list_lookup_insert_ne by congruence. reflexivity.
  - apply length_insert.
  - eexists. split; reflexivity.
Qed.

Lemma pulled_tick_frame T a (p : ParameterT T) (x : carrier T) (w : World) :
  params w !! a = Some (existT T p) ->
  tick_frame w (pulled T a p x w).
Proof.
  intros Hp.
  split; cbn [pulled params vars log parametersDict pangolinParams]; try reflexivity.
  - intros b. destruct (decide (b = a)) as [->|Hb].
    + rewrite lookup_insert_eq, Hp. reflexivity.
    + rewrite lookup_insert_ne by congruence. reflexivity.
  - eexists. split; reflexivity.
Qed.

Lemma pushing_tick_frame T a va (p : ParameterT T) (c0 c : Var) (w : World) :
  params w !! a = Some (existT T p) ->
  vars w !! va = Some c0 -> kind c = kind c0 ->
  tick_frame w (pushing T a va p c w).
Proof.
  intros Hp Hv Hk.
  split; cbn [pushing params vars log parametersDict pangolinParams]; try reflexivity.
  - intros b. destruct (decide (b = a)) as [->|Hb].
    + rewrite lookup_insert_eq, Hp. reflexivity.
    + rewrite lookup_insert_ne by congruence. reflexivity.
  - intros vb. destruct (decide (vb = va)) as [->|Hb].
    + rewrite list_lookup_insert_eq by (eapply lookup_lt_Some; exact Hv).
      rewrite Hv. cbn. rewrite Hk. reflexivity.
    + rewrite list_lookup_insert_ne by congruence. reflexivity.
  - apply length_insert.
  - eexists. split; reflexivity.
Qed.

Lemma pulling_tick_frame T a (p : ParameterT T) (x : carrier T) (w : World) :
  params w !! a = Some (existT T p) ->
  tick_frame w (pulling T a p x w).
Proof.
  intros Hp.
  split; cbn [pulling params vars log parametersDict pangolinParams]; try reflexivity.
  - intros b. destruct (decide (b = a)) as [->|Hb].
    + rewrite lookup_insert_eq, Hp. reflexivity.
    + rewrite lookup_insert_ne by congruence. reflexivity.
  - eexists. split; reflexivity.
Qed.

Lemma callbacks_value (a : nat) (l : list Event) (n : string) (v : ParameterVariant) :
  callbacks a (l ++ [DLOG_INFO_Value n v]) = callbacks a l.
Proof. rewrite callbacks_app. cbn [callbacks]. lia. Qed.

Lemma pushing_frame T a va p c w : frame w (pushing T a va p c w) [Some a] [va].
Proof.
  split; cbn [pushing params vars log parametersDict pangolinParams]; intros;
    try reflexivity.
  - apply lookup_insert_ne; notin.
  - apply list_lookup_insert_ne; notin.
  - apply callbacks_value.
Qed.

Lemma pulling_frame T a va p x w : frame w (pulling T a p x w) [Some a] [va].
Proof.
  split; cbn [pulling params vars log parametersDict pangolinParams]; intros;
    try reflexivity.
  - apply lookup_insert_ne; notin.
  - apply callbacks_value.
Qed.

(** An exception leaves [update_entry] before anything was written, or
    it comes from the call of the callback, which is made when the value
    and the flag were written. *)
Lemma update_entry_Thrown_inv (entry : ParameterBasePtr * PangolinVariants)
    (ex : Exn) (w w' : World) :
  update_entry entry w = Thrown ex w' ->
  (ex = bad_lexical_cast /\ is_text (snd entry) = true /\ w' = w) \/
  (ex = bad_get /\ w' = w) \/
  (exists T a (p : ParameterT T) before after,
      fst entry = Some a /\ params w !! a = Some (existT T p) /\
      called (mOnUpdateCallback p) before after = Thrown ex w' /\
      (tick_frame w before /\ tick_frame w after) /\
      frame w before [fst entry] [var_of (snd entry)] /\
      frame w after [fst entry] [var_of (snd entry)]).
Proof.
  destruct entry as [[a|] pv]; [|rewrite update_entry_null; discriminate].
  destruct (params w !! a) as [[T p]|] eqn:Hp;
    [|rewrite update_entry_destroyed by assumption; discriminate].
  rewrite (update_entry_live _ _ _ _ _ Hp).
  assert (Hcb : forall va before after,
             var_of pv = va ->
             called (mOnUpdateCallback p) before after = Thrown ex w' ->
             tick_frame w before -> tick_frame w after ->
             frame w before [Some a] [va] -> frame w after [Some a] [va] ->
             (ex = bad_lexical_cast /\ is_text (snd (Some a, pv)) = true /\ w' = w) \/
             (ex = bad_get /\ w' = w) \/
             (exists T0 a0 (p0 : ParameterT T0) before after,
                 fst (Some a, pv) = Some a0 /\ params w !! a0 = Some (existT T0 p0) /\
                 called (mOnUpdateCallback p0) before after = Thrown ex w' /\
                 (tick_frame w before /\ tick_frame w after) /\
                 frame w before [fst (Some a, pv)] [var_of (snd (Some a, pv))] /\
                 frame w after [fst (Some a, pv)] [var_of (snd (Some a, pv))])).
  { intros va before after <- Ec Tb Ta Fb Fa. right. right.
    exists T, a, p, before, after. cbn [fst snd]. auto 10. }
  destruct (decide (mCategory p = TEXTINPUT)) as [Hc|Hc].
  - destruct pv as [T' va|va].
    + unfold updateValue. steps. rewrite Hc. intros [= <- <-]. auto.
    + destruct (vars w !! va) as [[T' x|s]|] eqn:Hv.
      * unfold updateValue. steps. rewrite Hc.
        change (boost_get_Var_string (PV_string va)) with (@ret nat va). step.
        unfold bind at 1, Var_Get_string. rewrite Hv. discriminate.
      * rewrite (updateValue_text _ _ _ _ _ _ Hp Hv Hc).
        destruct (lexical_cast T s) as [e|] eqn:He; [|intros [= <- <-]; auto].
        destruct (mChangedInCode p).
        -- intros Ec. apply (Hcb va _ _ eq_refl Ec).
           ++ eapply pushing_tick_frame; [exact Hp|exact Hv|reflexivity].
           ++ eapply pushed_tick_frame; [exact Hp|exact Hv|reflexivity].
           ++ apply pushing_frame.
           ++ apply pushed_frame.
        -- destruct (neq T e (mValue p)); [|discriminate].
           intros Ec. apply (Hcb va _ _ eq_refl Ec).
           ++ apply pulling_tick_frame, Hp.
           ++ apply pulled_tick_frame, Hp.
           ++ apply pulling_frame.
           ++ apply pulled_frame.
      * unfold updateValue. steps. rewrite Hc.
        change (boost_get_Var_string (PV_string va)) with (@ret nat va). step.
        unfold bind at 1, Var_Get_string. rewrite Hv. discriminate.
  - assert (E : forall (k1 k2 : M unit),
               match mCategory p with TEXTINPUT => k1 | _ => k2 end = k2)
      by (intros; destruct (mCategory p); congruence).
    destruct pv as [T' va|va].
    + destruct (ValueType_eq_dec T' T) as [->|HT].
      * destruct (vars w !! va) as [[T' x|s]|] eqn:Hv.
        -- destruct (ValueType_eq_dec T' T) as [->|HT].
           ++ rewrite (updateValue_typed _ _ _ _ _ _ Hp Hv Hc).
              destruct (neq T x (mValue p)); [|discriminate].
              destruct (mChangedInCode p); intros Ec; apply (Hcb va _ _ eq_refl Ec).
              ** eapply pushing_tick_frame; [exact Hp|exact Hv|reflexivity].
              ** eapply pushed_tick_frame; [exact Hp|exact Hv|reflexivity].
              ** apply pushing_frame.
              ** apply pushed_frame.
              ** apply pulling_tick_frame, Hp.
              ** apply pulled_tick_frame, Hp.
              ** apply pulling_frame.
              ** apply pulled_frame.
           ++ unfold updateValue. steps. rewrite E. steps.
              unfold bind at 1, Var_Get. rewrite Hv.
              destruct (ValueType_eq_dec T' T); [contradiction|discriminate].
        -- unfold updateValue. steps. rewrite E. steps.
           unfold bind at 1, Var_Get. rewrite Hv. discriminate.
        -- unfold updateValue. steps. rewrite E. steps.
           unfold bind at 1, Var_Get. rewrite Hv. discriminate.
      * unfold updateValue. steps. rewrite E.
        unfold bind at 1, boost_get_Var.
        destruct (ValueType_eq_dec T' T); [contradiction|]. intros [= <- <-]. auto.
    + unfold updateValue. steps. rewrite E. intros [= <- <-]. auto.
Qed.

(** The state an exception leaves a reconciliation in. *)
Lemma update_entry_Thrown_frames (entry : ParameterBasePtr * PangolinVariants)
    (ex : Exn) (w w' : World) :
  update_entry entry w = Thrown ex w' ->
  tick_frame w w' /\ frame w w' [fst entry] [var_of (snd entry)].
Proof.
  intros E.
  apply update_entry_Thrown_inv in E
    as [(_ & _ & ->)|[(_ & ->)|(T & a & p & wb & wa & _ & _ & Ec & [Tb Ta] & Fb & Fa)]].
  - split; [apply tick_frame_refl|apply frame_refl].
  - split; [apply tick_frame_refl|apply frame_refl].
  - apply called_Thrown in Ec as [(_ & _ & ->)|(_ & _ & ->)]; auto.
Qed.

(** One reconciliation, whether it completes or throws. *)
Lemma update_entry_tick_frame (entry : ParameterBasePtr * PangolinVariants) (w : World) :
  match update_entry entry w with
  | Done _ w' | Thrown _ w' => tick_frame w w'
  | Undefined _ => True
  end.
Proof.
  destruct (update_entry entry w) as [[] w'|ex w'|u] eqn:E; [| |exact I].
  - apply update_entry_Done_inv in E.
    destruct E as [(T & a & va & p & x & -> & Hp & Hv & _ & ->)
                  |(T & a & va & p & s & e & -> & Hp & Hv & _ & _ & ->)].
    + unfold after_typed.
      destruct (neq T x (mValue p)); [destruct (mChangedInCode p)|];
        eauto using pushed_tick_frame, pulled_tick_frame, tick_frame_refl.
    + unfold after_text.
      destruct (mChangedInCode p); [|destruct (neq T e (mValue p))];
        eauto using pushed_tick_frame, pulled_tick_frame, tick_frame_refl.
  - apply update_entry_Thrown_frames in E. apply E.
Qed.

Lemma for_each_tick_frame (l : list (ParameterBasePtr * PangolinVariants)) (w : World) :
  match for_each update_entry l w with
  | Done _ w' | Thrown _ w' => tick_frame w w'
  | Undefined _ => True
  end.
Proof.
  revert w. induction l as [|e l IH]; intros w; cbn [for_each].
  - apply tick_frame_refl.
  - unfold bind. pose proof (update_entry_tick_frame e w) as F1.
    destruct (update_entry e w) as [[] w1|ex w1|u]; [|exact F1|exact I].
    specialize (IH w1).
    destruct (for_each update_entry l w1) as [[] w'|ex w'|u];
      eauto using tick_frame_trans.
Qed.

(** X6.  A reconciliation pass, whether it completes or is left by an
    exception, changes neither the registry nor the binding table, creates
    and destroys no object and no control, leaves every object its type,
    category, bounds, name and group and every control its kind, and adds to
    the log nothing but the values it logs and the callbacks it invokes. *)
Theorem updateParameters_changes_values_and_flags_only (w : World) :
  match updateParameters w with
  | Done _ w' | Thrown _ w' => tick_frame w w'
  | Undefined _ => True
  end.
Proof. rewrite updateParameters_entries. apply for_each_tick_frame. Qed.

Lemma frame_step (w w1 w' : World) (x : ParameterBasePtr) (v : nat)
    (l : list ParameterBasePtr) (lv : list nat) :
  frame w w1 [x] [v] -> frame w1 w' l lv -> frame w w' (x :: l) (v :: lv).
Proof.
  intros [P1 V1 C1 D1 G1] [P2 V2 C2 D2 G2]. split.
  - intros a Ha. rewrite P2, P1; [reflexivity| |]; notin.
  - intros va Ha. rewrite V2, V1; [reflexivity| |]; notin.
  - intros a Ha. rewrite C2, C1; [reflexivity| |]; notin.
  - congruence.
  - congruence.
Qed.

Lemma for_each_frame_any (l : list (ParameterBasePtr * PangolinVariants)) (w : World) :
  match for_each update_entry l w with
  | Done _ w' | Thrown _ w' =>
      frame w w' (map fst l) (map (fun e => var_of (snd e)) l)
  | Undefined _ => True
  end.
Proof.
  revert w. induction l as [|e l IH]; intros w; cbn [for_each map].
  - apply frame_refl.
  - unfold bind. destruct (update_entry e w) as [[] w1|ex w1|u] eqn:E1; [| |exact I].
    + apply update_entry_frame in E1. specialize (IH w1).
      destruct (for_each update_entry l w1) as [[] w'|ex w'|u];
        eauto using frame_step.
    + apply update_entry_Thrown_frames in E1 as [_ F].
      eapply frame_step; [exact F|apply frame_refl].
Qed.

(** X7.  A reconciliation pass, whether it completes or is left by an
    exception, reads and writes only what the binding table refers to: a
    parameter that no binding holds keeps its value and its flags (a pending
    [mChangedInCode] stays pending) and its callback is not invoked; a
    control that no binding holds keeps its content. *)
Theorem updateParameters_touches_bound_objects_only (w : World) :
  match updateParameters w with
  | Done _ w' | Thrown _ w' =>
      (forall a, Some a ∉ map fst (entries w) ->
         params w' !! a = params w !! a /\
         callbacks a (log w') = callbacks a (log w)) /\
      (forall va, va ∉ map (fun e => var_of (snd e)) (entries w) ->
         vars w' !! va = vars w !! va)
  | Undefined _ => True
  end.
Proof.
  rewrite updateParameters_entries.
  pose proof (for_each_frame_any (entries w) w) as F.
  destruct (for_each update_entry (entries w) w) as [[] w'|ex w'|u]; [| |exact I];
    destruct F as [P V C _ _]; auto.
Qed.

Lemma evolves_of_tick_frame (w w' : World) : tick_frame w w' -> evolves w w'.
Proof.
  intros [_ _ I K _ _]. split.
  - intros a o Hp. specialize (I a). rewrite Hp in I. cbn in I.
    apply fmap_Some in I as (o' & Hp' & Ho'). exists o'. auto.
  - intros va c Hv. specialize (K va). rewrite Hv in K. cbn in K.
    apply fmap_Some in K as (c' & Hv' & Hc'). exists c'. auto.
Qed.

Lemma identity_type (T T' : ValueType) (p : ParameterT T) (p' : ParameterT T') :
  identity_of (existT T' p') = identity_of (existT T p) ->
  T' = T /\ mCategory p' = mCategory p.
Proof.
  unfold identity_of, category_of, min_of. cbn [projT1 projT2].
  intros [= Hc Hm _ _ _]. auto.
Qed.

Lemma bound_evolves (w w' : World) (entry : ParameterBasePtr * PangolinVariants) :
  evolves w w' -> bound w entry -> bound w' entry.
Proof.
  intros [Ho Hv] (a & T & p & Ea & Hp & Hpv).
  destruct (Ho _ _ Hp) as ([T' p'] & Hp' & Hid).
  apply identity_type in Hid as [-> Hc].
  exists a, T, p'. split; [exact Ea|]. split; [exact Hp'|].
  destruct (snd entry) as [T' va|va].
  - destruct Hpv as (-> & Hcat & x & Hx).
    split; [reflexivity|]. split; [congruence|].
    destruct (Hv _ _ Hx) as ([T' x'|s] & Hx' & Hk); cbn in Hk; [|discriminate].
    injection Hk as ->. eauto.
  - destruct Hpv as (Hcat & s & Hs).
    split; [congruence|].
    destruct (Hv _ _ Hs) as ([T' x'|s'] & Hs' & Hk); cbn in Hk; [discriminate|]. eauto.
Qed.








End Outcomes.

(** ** Materialisation *)

Section Creation.
Context `{TextConversions}.

Lemma createPangolinEntries_unfold (panel_name : string) (g : ParameterGroup) (w : World) :
  createPangolinEntries panel_name g w =
  for_each (create_slot panel_name)
    (StdMap.at_or_default group_compare [] g (touch g (parametersDict w)))
    (set_parametersDict (touch g) w).
Proof.
  unfold createPangolinEntries.
  rewrite (bind_Done _ _ w (set_parametersDict (touch g) w) tt) by reflexivity.
  rewrite (bind_Done _ _ _ (set_parametersDict (touch g) w)
             (set_parametersDict (touch g) w)) by reflexivity.
  reflexivity.
Qed.

Lemma touch_slots {V} (g : ParameterGroup) (m : list (ParameterGroup * list (string * V))) :
  StdMap.at_or_default group_compare [] g (touch g m) =
  StdMap.at_or_default group_compare [] g m.
Proof.
  unfold touch, StdMap.at_or_default.
  destruct (StdMap.find group_compare g m) eqn:Ef.
  - rewrite Ef. reflexivity.
  - rewrite (find_assign_eq group_compare group_compare_refl). reflexivity.
Qed.

(** [createPangolinEntry] on a live object, in closed form. *)
Lemma createPangolinEntry_closed (T : ValueType) (a : nat) (p : ParameterT T)
    (panel_name : string) (w : World) :
  params w !! a = Some (existT T p) ->
  createPangolinEntry T (Some a) panel_name w = Done tt (materialised panel_name a p w).
Proof.
  intros Hp. unfold createPangolinEntry, materialised, creation_event,
    pushed_control, control_pointer. step.
  destruct (mCategory p) eqn:Ec; [| | |reflexivity]; steps; reflexivity.
Qed.

Lemma create_slot_live (T : ValueType) (a : nat) (p : ParameterT T)
    (panel_name n : string) (w : World) :
  params w !! a = Some (existT T p) ->
  create_slot panel_name (n, Some a) w = Done tt (materialised panel_name a p w).
Proof.
  intros Hp. unfold create_slot. cbn [snd].
  rewrite (bind_Done _ _ _ _ _ (getVariant_live _ _ _ _ Hp)).
  rewrite <- (createPangolinEntry_closed _ _ _ _ _ Hp).
  destruct T; reflexivity.
Qed.

Lemma create_slot_null (panel_name n : string) (w : World) :
  create_slot panel_name (n, None) w = Undefined NullDereference.
Proof. reflexivity. Qed.

Lemma create_slot_destroyed (panel_name n : string) (a : nat) (w : World) :
  params w !! a = None ->
  create_slot panel_name (n, Some a) w = Undefined UseAfterDestroy.
Proof.
  intros Hp. unfold create_slot, getVariant, deref, bind. cbn [snd].
  rewrite Hp. reflexivity.
Qed.

End Creation.

Lemma elem_of_entries (e : ParameterBasePtr * PangolinVariants) (w : World) :
  e ∈ entries w <->
  exists g inner n, (g, inner) ∈ pangolinParams w /\ (n, e) ∈ inner.
Proof.
  unfold entries. rewrite list_elem_of_In, in_concat. split.
  - intros (l & Hl & He). apply in_map_iff in Hl as ([g inner] & <- & Hg).
    cbn [snd] in He. apply in_map_iff in He as ([n e'] & <- & Hn).
    exists g, inner, n. rewrite !list_elem_of_In. auto.
  - intros (g & inner & n & Hg & Hn). rewrite list_elem_of_In in Hg. rewrite list_elem_of_In in Hn.
    exists (map snd inner). split.
    + apply in_map_iff. exists (g, inner). auto.
    + apply in_map_iff. exists (n, e). auto.
Qed.

Lemma at_or_default_elem {V} (g : ParameterGroup) (x : string * V)
    (m : list (ParameterGroup * list (string * V))) :
  x ∈ StdMap.at_or_default group_compare [] g m ->
  (g, StdMap.at_or_default group_compare [] g m) ∈ m.
Proof.
  unfold StdMap.at_or_default.
  destruct (StdMap.find group_compare g m) as [inner|] eqn:Ef.
  - intros _. apply (find_Some_elem group_compare), Ef.
  - intros Hx. apply elem_of_nil in Hx. contradiction.
Qed.

Lemma entries_assign2 (g : ParameterGroup) (n : string)
    (b e : ParameterBasePtr * PangolinVariants) (w : World) :
  e ∈ entries (set_pangolinParams (assign2 g n b) w) -> e = b \/ e ∈ entries w.
Proof.
  rewrite !elem_of_entries. cbn [set_pangolinParams pangolinParams]. unfold assign2.
  intros (g' & inner & n' & Hg & Hn).
  apply (elem_of_assign group_compare) in Hg as [[= -> ->]|Hg].
  - apply (elem_of_assign name_compare) in Hn as [[= -> ->]|Hn]; [left; reflexivity|].
    right. exists g, (StdMap.at_or_default group_compare [] g (pangolinParams w)), n'.
    split; [|exact Hn]. eapply at_or_default_elem, Hn.
  - right. exists g', inner, n'. auto.
Qed.

Section CreationLoop.
Context `{TextConversions}.

Lemma materialised_defined (panel_name : string) (T : ValueType) (a : nat)
    (p : ParameterT T) (w : World) :
  mCategory p <> UNDEFINED_CATEGORY ->
  materialised panel_name a p w =
    mkWorld (params w) (vars w ++ [pushed_control p]) (parametersDict w)
      (assign2 (mGroup p) (mName p) (Some a, control_pointer p (length (vars w)))
         (pangolinParams w))
      (log w ++ [creation_event panel_name p]).
Proof. unfold materialised. destruct (mCategory p); congruence. Qed.

(** The loop of [createPangolinEntries] never throws; when it completes it
    has changed neither the objects nor the registry, and has only added
    controls. *)
Lemma create_loop_any (panel_name : string) (slots : list (string * ParameterBasePtr))
    (w : World) :
  match for_each (create_slot panel_name) slots w with
  | Done _ w' =>
      params w' = params w /\ parametersDict w' = parametersDict w /\
      exists l, vars w' = vars w ++ l
  | Thrown _ _ => False
  | Undefined _ => True
  end.
Proof.
  revert w. induction slots as [|[n [a|]] slots IH]; intros w; cbn [for_each].
  - split; [reflexivity|]. split; [reflexivity|]. exists []. symmetry. apply app_nil_r.
  - destruct (params w !! a) as [[T p]|] eqn:Hp.
    + rewrite (bind_Done _ _ _ _ _ (create_slot_live _ _ _ panel_name n _ Hp)).
      specialize (IH (materialised panel_name a p w)).
      destruct (for_each _ slots _) as [[] w'|ex w'|u]; [|exact IH|exact I].
      destruct IH as (Hp' & Hd' & l & Hl). unfold materialised in *.
      destruct (mCategory p); cbn [params parametersDict vars] in *;
        (split; [exact Hp'|]); (split; [exact Hd'|]);
        rewrite Hl, <- ?app_assoc; eauto.
    + rewrite (bind_Undefined _ _ _ _ (create_slot_destroyed panel_name n a w Hp)). exact I.
  - exact I.
Qed.

(** On slots that hold live objects the loop completes; it binds the
    object of the [i]-th slot to the [i]-th new control, which shows the
    value of the object. *)
Lemma create_loop_live (panel_name : string) (slots : list (string * ParameterBasePtr))
    (w : World) :
  Forall (slot_ok w) slots ->
  exists w',
    for_each (create_slot panel_name) slots w = Done tt w' /\
    params w' = params w /\
    parametersDict w' = parametersDict w /\
    length (vars w') = (length (vars w) + length slots)%nat /\
    (exists l, vars w' = vars w ++ l) /\
    (forall i n a o,
       slots !! i = Some (n, Some a) -> params w !! a = Some o ->
       vars w' !! (length (vars w) + i)%nat = Some (pushed_control (projT2 o))) /\
    (forall e, e ∈ entries w' ->
       e ∈ entries w \/
       exists i n a T (p : ParameterT T),
         slots !! i = Some (n, Some a) /\
         params w !! a = Some (existT T p) /\
         e = (Some a, control_pointer p (length (vars w) + i)) /\
         vars w' !! (length (vars w) + i)%nat = Some (pushed_control p)).
Proof.
  revert w. induction slots as [|[n ptr] slots IH]; intros w Hs.
  - exists w. cbn [for_each length]. rewrite Nat.add_0_r.
    split; [reflexivity|]. split; [reflexivity|]. split; [reflexivity|].
    split; [reflexivity|]. split; [exists []; symmetry; apply app_nil_r|].
    split; [intros i n a o Hi; discriminate|auto].
  - apply Forall_cons in Hs as [(a & [T p] & Ea & Hp & Hn & Hc) Hs].
    cbn [fst snd] in Ea, Hn. subst ptr.
    unfold name_of, category_of in Hn, Hc. cbn [projT2] in Hn, Hc.
    pose proof (create_slot_live _ _ _ panel_name n _ Hp) as E1.
    rewrite (materialised_defined _ _ _ _ _ Hc) in E1.
    set (w1 := mkWorld _ _ _ _ _) in E1.
    destruct (IH w1) as (w' & E' & Hp' & Hd' & Hlen & (l & Hl) & Hctl & Hent).
    { eapply Forall_impl; [exact Hs|]. intros slot (a' & o' & ? & ? & ? & ?).
      exists a', o'. auto. }
    assert (Hhead : vars w' !! length (vars w) = Some (pushed_control p)).
    { rewrite Hl. cbn [w1 vars]. rewrite <- app_assoc.
      rewrite lookup_app_r by lia. rewrite Nat.sub_diag. reflexivity. }
    exists w'. split; [cbn [for_each]; rewrite (bind_Done _ _ _ _ _ E1); exact E'|].
    split; [exact Hp'|]. split; [exact Hd'|].
    split; [rewrite Hlen; cbn [w1 vars length]; rewrite length_app; cbn [length]; lia|].
    split; [exists ([pushed_control p] ++ l); rewrite Hl; cbn [w1 vars];
            rewrite <- app_assoc; reflexivity|].
    split.
    { intros [|i] n' a' o' Hi Ho'.
      - injection Hi as <- <-. rewrite Hp in Ho'. injection Ho' as <-.
        rewrite Nat.add_0_r. exact Hhead.
      - cbn [lookup list_lookup] in Hi. specialize (Hctl i n' a' o' Hi Ho').
        cbn [w1 vars] in Hctl. rewrite length_app in Hctl. cbn [length] in Hctl.
        replace (length (vars w) + S i)%nat with (length (vars w) + 1 + i)%nat by lia.
        exact Hctl. }
    intros e He. apply Hent in He as [He|(i & n' & a' & T' & p' & Hi & Hpa & -> & Hv)].
    + apply (entries_assign2 (mGroup p) (mName p) _ e w) in He as [->|He]; [|left; exact He].
      right. exists 0%nat, n, a, T, p. rewrite Nat.add_0_r. auto.
    + right. exists (S i), n', a', T', p'. cbn [w1 vars params] in *.
      rewrite length_app in *. cbn [length] in *.
      replace (length (vars w) + S i)%nat with (length (vars w) + 1 + i)%nat by lia. auto.
Qed.

End CreationLoop.

(** ** Sequences of calls *)

Lemma evolves_refl (w : World) : evolves w w.
Proof. split; eauto. Qed.

Lemma quiet_step_refl (w : World) : quiet_step w w.
Proof. split; [apply evolves_refl|auto]. Qed.

Lemma quiet_step_log (f : list Event -> list Event) (w : World) :
  quiet_step w (set_log f w).
Proof. split; [split; cbn [set_log params vars]; eauto|auto]. Qed.

Lemma quiet_step_insert (a : nat) (o o' : ParameterBase) (w : World) :
  params w !! a = Some o -> identity_of o' = identity_of o ->
  quiet_step w (set_params (insert a o') w).
Proof.
  intros Hp Hid. split; [split|split; reflexivity]; cbn [set_params params vars].
  - intros b ob Hb. destruct (decide (b = a)) as [->|Hne].
    + rewrite lookup_insert_eq. exists o'. split; [reflexivity|congruence].
    + rewrite lookup_insert_ne by congruence. eauto.
  - eauto.
Qed.

Lemma static_cast_outcome (T : ValueType) (a : nat) (w : World) :
  match static_cast T (Some a) w with
  | Done p w' => w' = w /\ params w !! a = Some (existT T p)
  | Thrown _ _ => False
  | Undefined _ => True
  end.
Proof.
  unfold static_cast, bind, deref.
  destruct (params w !! a) as [[T' p]|] eqn:Hp; [|exact I]. cbn [projT1 projT2].
  destruct (ValueType_eq_dec T' T) as [e|]; [|exact I].
  destruct e. cbn. auto.
Qed.

Lemma write_member_outcome (T : ValueType) (a : nat)
    (f : ParameterT T -> ParameterT T) (w : World) :
  (forall p, identity_of (existT T (f p)) = identity_of (existT T p)) ->
  match write_member T (Some a) f w with
  | Done _ w' | Thrown _ w' => quiet_step w w'
  | Undefined _ => True
  end.
Proof.
  intros Hf. unfold write_member, bind.
  pose proof (static_cast_outcome T a w) as S.
  destruct (static_cast T (Some a) w) as [p w1|ex w1|u]; [|contradiction|exact I].
  destruct S as [-> Hp]. cbn [store modify_world].
  eapply quiet_step_insert; [exact Hp|apply Hf].
Qed.

Lemma call_checkAndResetIfChanged_outcome (T : ValueType) (a : nat) (w : World) :
  match call_checkAndResetIfChanged T (Some a) w with
  | Done _ w' | Thrown _ w' => quiet_step w w'
  | Undefined _ => True
  end.
Proof.
  unfold call_checkAndResetIfChanged, bind.
  pose proof (static_cast_outcome T a w) as S.
  destruct (static_cast T (Some a) w) as [p w1|ex w1|u]; [|contradiction|exact I].
  destruct S as [-> Hp]. cbn [store modify_world ret].
  eapply quiet_step_insert; [exact Hp|].
  unfold checkAndResetIfChanged. destruct (mChangedThroughPangolin p); reflexivity.
Qed.

Lemma getParameter_outcome (T : ValueType) (g : ParameterGroup) (n : string) (w : World) :
  exists ptr f, getParameter T g n w = Done ptr (set_log f w) /\
    (ptr = nullptr \/ dict_find g n (parametersDict w) = Some ptr).
Proof.
  unfold getParameter. rewrite (bind_Done _ _ w w w) by reflexivity.
  destruct (StdMap.find group_compare g (parametersDict w)).
  - destruct (dict_find g n (parametersDict w)) as [ptr|].
    + exists ptr, (fun l => l). destruct w. cbn. auto.
    + eexists nullptr, _. split; [reflexivity|auto].
  - eexists nullptr, _. split; [reflexivity|auto].
Qed.

Lemma user_sets_quiet (va : nat) (c : Var) (w : World) :
  allowed w (UserEdit va c) -> quiet_step w (user_sets va c w).
Proof.
  intros (c0 & Hv & Hk). split; [split|split; reflexivity];
    cbn [user_sets set_vars params vars]; [eauto|].
  intros vb cb Hb. destruct (decide (vb = va)) as [->|Hne].
  - rewrite list_lookup_insert_eq by (eapply lookup_lt_Some; exact Hv).
    exists c. split; [reflexivity|]. congruence.
  - rewrite list_lookup_insert_ne by congruence. eauto.
Qed.

Section Steps.
Context `{TextConversions}.

(** The calls that create and destroy nothing. *)
Lemma run_call_quiet (c : Call) (w : World) :
  allowed w c ->
  match c with
  | Construct _ | Destroy _ | CreatePangolinEntries _ _ => True
  | _ =>
      match run_call c w with
      | Done _ w' | Thrown _ w' => quiet_step w w'
      | Undefined _ => True
      end
  end.
Proof.
  intros Ha. destruct c as [d|a|T a v|T a|T g n|panel_name g| |va c]; cbn [run_call]; try exact I.
  - apply write_member_outcome. reflexivity.
  - unfold bind. pose proof (call_checkAndResetIfChanged_outcome T a w) as O.
    destruct (call_checkAndResetIfChanged T (Some a) w); auto.
  - destruct (getParameter_outcome T g n w) as (ptr & f & E & _).
    rewrite (bind_Done _ _ _ _ _ E). apply quiet_step_log.
  - rewrite updateParameters_entries.
    pose proof (for_each_tick_frame (entries w) w) as F.
    destruct (for_each update_entry (entries w) w) as [[] w'|ex w'|u]; [| |exact I];
      (split; [apply evolves_of_tick_frame, F|split; apply F]).
  - apply user_sets_quiet, Ha.
Qed.

End Steps.

Lemma touch_well_formed {V} (g : ParameterGroup)
    (m : list (ParameterGroup * list (string * V))) :
  well_formed m -> well_formed (touch g m).
Proof.
  intros [Ho Hi]. unfold touch.
  destruct (StdMap.find group_compare g m); [split; assumption|]. split.
  - apply assign_ascending; [apply _|exact Ho].
  - apply Forall_assign; [exact Hi|]. constructor.
Qed.

Lemma dict_find_touch {V} (g g' : ParameterGroup) (n : string)
    (m : list (ParameterGroup * list (string * V))) :
  well_formed m -> dict_find g' n (touch g m) = dict_find g' n m.
Proof.
  intros [Ho Hi]. unfold touch.
  destruct (StdMap.find group_compare g m) eqn:Ef; [reflexivity|].
  unfold dict_find. destruct (decide (g' = g)) as [->|Hg].
  - rewrite (at_or_default_assign_eq group_compare group_compare_refl).
    unfold StdMap.at_or_default. rewrite Ef. reflexivity.
  - rewrite (at_or_default_assign_ne group_compare) by assumption. reflexivity.
Qed.

Lemma identity_name_group (o o' : ParameterBase) :
  identity_of o' = identity_of o ->
  name_of o' = name_of o /\ group_of o' = group_of o /\ category_of o' = category_of o.
Proof. unfold identity_of. intros [= Hc _ _ Hn Hg]. auto. Qed.

Lemma registry_sound_quiet (w w' : World) :
  registry_sound w -> quiet_step w w' -> registry_sound w'.
Proof.
  intros [Hwf Hs] ([Ho _] & Hd & _). split; rewrite Hd; [exact Hwf|].
  intros g n a Hf. destruct (Hs g n a Hf) as (o & Hp & Hg & Hn).
  destruct (Ho _ _ Hp) as (o' & Hp' & Hid).
  apply identity_name_group in Hid as (En & Eg & _).
  exists o'. split; [exact Hp'|]. split; congruence.
Qed.

Lemma registry_sound_construct (d : Declaration) (w w' : World) :
  registry_sound w -> params w !! decl_this d = None ->
  declare d w = Done tt w' -> registry_sound w'.
Proof.
  intros [Hwf Hs] Hfresh E. rewrite declare_run in E. injection E as <-.
  split; cbn [parametersDict params]; [apply assign2_well_formed, Hwf|].
  intros g n a Hf.
  destruct (decide ((g, n) = (decl_group d, decl_name d))) as [[= -> ->]|Hne].
  - rewrite dict_find_assign2 in Hf. injection Hf as <-.
    exists (decl_object d). rewrite lookup_insert_eq.
    split; [reflexivity|]. destruct d; auto.
  - rewrite dict_find_assign2_ne in Hf by assumption.
    destruct (Hs g n a Hf) as (o & Hp & Hg & Hn). exists o.
    split; [|auto]. rewrite lookup_insert_ne; [exact Hp|].
    intros <-. congruence.
Qed.

Lemma Parameter_dtor_outcome (a : nat) (w : World) :
  match Parameter_dtor a w with
  | Done _ w' =>
      exists o, params w !! a = Some o /\
        w' = mkWorld (delete a (params w)) (vars w)
               (assign2 (group_of o) (name_of o) nullptr (parametersDict w))
               (pangolinParams w)
               (log w ++ [LOG_WARNING_Deleted (name_of o)])
  | Thrown _ _ => False
  | Undefined _ => True
  end.
Proof.
  destruct (params w !! a) as [o|] eqn:Hp.
  - rewrite (Parameter_dtor_live _ _ _ Hp). eauto.
  - unfold Parameter_dtor, bind, deref. rewrite Hp. exact I.
Qed.

Lemma registry_sound_destroy (a : nat) (w w' : World) :
  registry_sound w -> Parameter_dtor a w = Done tt w' -> registry_sound w'.
Proof.
  intros [Hwf Hs] E. pose proof (Parameter_dtor_outcome a w) as O. rewrite E in O.
  destruct O as (o & Hp & ->).
  split; cbn [parametersDict params]; [apply assign2_well_formed, Hwf|].
  intros g n b Hf.
  destruct (decide ((g, n) = (group_of o, name_of o))) as [[= -> ->]|Hne].
  - rewrite dict_find_assign2 in Hf. discriminate.
  - rewrite dict_find_assign2_ne in Hf by assumption.
    destruct (Hs g n b Hf) as (ob & Hb & Hg & Hn). exists ob.
    split; [|auto]. rewrite lookup_delete_ne; [exact Hb|].
    intros <-. rewrite Hp in Hb. injection Hb as <-. congruence.
Qed.

Section Soundness.
Context `{TextConversions}.

Lemma createPangolinEntries_outcome (panel_name : string) (g : ParameterGroup) (w : World) :
  match createPangolinEntries panel_name g w with
  | Done _ w' =>
      params w' = params w /\ parametersDict w' = touch g (parametersDict w) /\
      exists l, vars w' = vars w ++ l
  | Thrown _ _ => False
  | Undefined _ => True
  end.
Proof.
  rewrite createPangolinEntries_unfold.
  pose proof (create_loop_any panel_name
                (StdMap.at_or_default group_compare [] g (touch g (parametersDict w)))
                (set_parametersDict (touch g) w)) as O.
  destruct (for_each _ _ _) as [[] w'|ex w'|u]; auto.
Qed.

Lemma registry_sound_create (panel_name : string) (g : ParameterGroup) (w w' : World) :
  registry_sound w -> createPangolinEntries panel_name g w = Done tt w' -> registry_sound w'.
Proof.
  intros [Hwf Hs] E. pose proof (createPangolinEntries_outcome panel_name g w) as O.
  rewrite E in O. destruct O as (Hp & Hd & _).
  split; rewrite Hd; [apply touch_well_formed, Hwf|].
  intros g' n a Hf. rewrite dict_find_touch in Hf by assumption.
  rewrite Hp. eauto.
Qed.

Lemma run_call_sound (c : Call) (w w1 : World) :
  registry_sound w -> allowed w c ->
  run_call c w = Done tt w1 \/ (exists e, run_call c w = Thrown e w1) ->
  registry_sound w1.
Proof.
  intros Hs Ha E.
  pose proof (run_call_quiet c w Ha) as Q.
  destruct c as [d|a|T a v|T a|T g n|panel_name g| |va c];
    cbn [run_call] in *;
    try (destruct E as [E|(e & E)]; rewrite E in Q; eapply registry_sound_quiet; eassumption).
  - destruct E as [E|(e & E)]; [|rewrite declare_run in E; discriminate].
    eapply registry_sound_construct; eassumption.
  - pose proof (Parameter_dtor_outcome a w) as O.
    destruct E as [E|(e & E)]; [|rewrite E in O; contradiction].
    eapply registry_sound_destroy; eassumption.
  - pose proof (createPangolinEntries_outcome panel_name g w) as O.
    destruct E as [E|(e & E)]; [|rewrite E in O; contradiction].
    eapply registry_sound_create; eassumption.
Qed.

Lemma reaches_sound (cs : list Call) (w w' : World) :
  reaches w cs w' -> registry_sound w -> registry_sound w'.
Proof.
  induction 1 as [w|w w1 w2 c cs Ha E _ IH|w w1 w2 c cs e Ha E _ IH]; intros Hs.
  - exact Hs.
  - apply IH. eapply run_call_sound; eauto.
  - apply IH. eapply run_call_sound; eauto.
Qed.

Lemma empty_world_sound : registry_sound empty_world.
Proof. split; [apply well_formed_nil|]. intros g n a Hf. discriminate. Qed.

(** X9.  Whatever the program does (constructing and destroying
    parameters, setting values, looking parameters up, creating controls,
    running reconciliation passes, with the user acting on the controls in
    between), the registry holds no dangling pointer: a pointer returned by
    [getParameter] that is not null is the address of a live object, whose
    group and name are those looked up. *)
Theorem getParameter_never_returns_dangling_pointer (cs : list Call) (w w' : World)
    (T : ValueType) (g : ParameterGroup) (n : string) (a : nat) :
  reaches empty_world cs w ->
  getParameter T g n w = Done (Some a) w' ->
  w' = w /\ exists o, params w !! a = Some o /\ group_of o = g /\ name_of o = n.
Proof.
  intros Hr E. apply reaches_sound in Hr; [|apply empty_world_sound].
  destruct (getParameter_outcome T g n w) as (ptr & f & E' & [->|Hf]);
    rewrite E' in E; [discriminate|].
  injection E as -> <-.
  split; [|apply (sound_slots _ Hr), Hf].
  rewrite (getParameter_found T g n (Some a) w Hf) in E'. congruence.
Qed.

End Soundness.

(** ** [createPangolinEntries] at the edges *)

Section Ascending2.
Context {K V : Type} (cmp : K -> K -> comparison) `{!OrderLaws cmp}.

Lemma ascending_head (k : K) (v : V) (m : list (K * V)) :
  ascending cmp ((k, v) :: m) -> k ∉ StdMap.keys m.
Proof.
  unfold ascending. cbn [StdMap.keys map fst]. intros Hm Hin.
  apply StronglySorted_inv in Hm as [_ Hk]. rewrite Forall_forall in Hk.
  specialize (Hk _ Hin). rewrite (cmp_refl_of_laws cmp) in Hk. discriminate.
Qed.

Lemma ascending_tail (x : K * V) (m : list (K * V)) :
  ascending cmp (x :: m) -> ascending cmp m.
Proof.
  unfold ascending. cbn [StdMap.keys map]. intros Hm.
  apply StronglySorted_inv in Hm as [Hm _]. exact Hm.
Qed.

Lemma find_elem (k : K) (v : V) (m : list (K * V)) :
  ascending cmp m -> (k, v) ∈ m -> StdMap.find cmp k m = Some v.
Proof.
  induction m as [|[k0 v0] m IH]; intros Hm Hin.
  - apply elem_of_nil in Hin. contradiction.
  - cbn [StdMap.find]. apply elem_of_cons in Hin as [[= -> ->]|Hin].
    + rewrite (cmp_refl_of_laws cmp). reflexivity.
    + pose proof Hm as Hm'. unfold ascending in Hm'. cbn [StdMap.keys map fst] in Hm'.
      apply StronglySorted_inv in Hm' as [_ Hk]. rewrite Forall_forall in Hk.
      assert (Hlt : cmp k0 k = Lt).
      { apply Hk. change k with (fst (k, v)). apply elem_of_map, Hin. }
      rewrite (cmp_antisym k k0), Hlt. cbn [CompOpp].
      apply IH; [eapply ascending_tail; exact Hm|exact Hin].
Qed.
End Ascending2.

Section Edges.
Context `{TextConversions}.

(** X10.  [createPangolinEntries] for a group in which nothing was
    declared creates no control and no binding and logs nothing, but it
    leaves the group in the registry, with no parameter: [getParameter]
    for a name of that group, which logged "group which doesn't have any
    parameters" before, logs "parameter which doesn't exist" after. *)
Theorem createPangolinEntries_inserts_unknown_group (panel_name : string)
    (g : ParameterGroup) (w : World) :
  StdMap.find group_compare g (parametersDict w) = None ->
  exists w',
    createPangolinEntries panel_name g w = Done tt w' /\
    w' = set_parametersDict (StdMap.assign group_compare g []) w /\
    (forall T n, getParameter T g n w =
       Done nullptr (set_log (fun l => l ++ [DLOG_WARNING_NoGroup g]) w)) /\
    (forall T n, getParameter T g n w' =
       Done nullptr (set_log (fun l => l ++ [DLOG_WARNING_NoParameter n]) w')).
Proof.
  intros Hg. eexists. split; [|split; [reflexivity|split]].
  - rewrite createPangolinEntries_unfold, touch_slots.
    unfold StdMap.at_or_default. rewrite Hg. cbn [for_each].
    unfold ret, set_parametersDict, touch. rewrite Hg. reflexivity.
  - intros T n. apply getParameter_no_group, Hg.
  - intros T n. apply getParameter_no_name; cbn [set_parametersDict parametersDict].
    + rewrite (find_assign_eq group_compare group_compare_refl). discriminate.
    + unfold dict_find.
      rewrite (at_or_default_assign_eq group_compare group_compare_refl). reflexivity.
Qed.

Lemma materialised_params (panel_name : string) (T : ValueType) (a : nat)
    (p : ParameterT T) (w : World) :
  params (materialised panel_name a p w) = params w.
Proof. unfold materialised. destruct (mCategory p); reflexivity. Qed.

(** The loop stops at the first null slot. *)
Lemma create_loop_null (panel_name : string) (slots : list (string * ParameterBasePtr))
    (w : World) :
  Forall (fun slot => match snd slot with
                      | None => True
                      | Some a => is_Some (params w !! a)
                      end) slots ->
  (exists n, (n, None) ∈ slots) ->
  for_each (create_slot panel_name) slots w = Undefined NullDereference.
Proof.
  revert w. induction slots as [|[n [a|]] slots IH]; intros w Hs (n0 & Hn0).
  - apply elem_of_nil in Hn0. contradiction.
  - apply Forall_cons in Hs as [[[T p] Hp] Hs]. cbn [snd] in Hp.
    apply elem_of_cons in Hn0 as [[=]|Hn0].
    cbn [for_each]. rewrite (bind_Done _ _ _ _ _ (create_slot_live _ _ _ panel_name n _ Hp)).
    apply IH; [|eauto].
    eapply Forall_impl; [exact Hs|]. intros slot. rewrite materialised_params. auto.
  - reflexivity.
Qed.

(** X11.  After the destructor of a parameter, [createPangolinEntries] for
    the group of that parameter has undefined behaviour: the slot of the
    destroyed parameter is still in the registry and holds null, and the
    loop calls [getVariant()] through it without a test. *)
Theorem createPangolinEntries_after_destructor (panel_name : string) (a : nat)
    (o : ParameterBase) (w : World) :
  registry_sound w ->
  params w !! a = Some o ->
  exists w1,
    Parameter_dtor a w = Done tt w1 /\
    createPangolinEntries panel_name (group_of o) w1 = Undefined NullDereference.
Proof.
  intros Hs Hp. pose proof (Parameter_dtor_live a o w Hp) as E.
  eexists. split; [exact E|].
  pose proof (registry_sound_destroy _ _ _ Hs E) as [[Ho Hi] Hslots].
  set (w1 := mkWorld _ _ _ _ _) in *.
  assert (Hf : dict_find (group_of o) (name_of o) (parametersDict w1) = Some nullptr)
    by apply dict_find_assign2.
  rewrite createPangolinEntries_unfold, touch_slots.
  set (slots := StdMap.at_or_default group_compare [] (group_of o) (parametersDict w1)).
  assert (Hasc : ascending name_compare slots).
  { apply (at_or_default_Forall group_compare (ascending name_compare)); [exact Hi|].
    constructor. }
  apply create_loop_null.
  - apply Forall_forall. intros [n [b|]] Hin; cbn [snd]; [|exact I].
    cbn [set_parametersDict params].
    destruct (Hslots (group_of o) n b) as (ob & Hb & _); [|eauto].
    apply (find_elem name_compare); assumption.
  - exists (name_of o). apply (find_Some_elem name_compare). exact Hf.
Qed.

End Edges.

(** ** What [createPangolinEntries] builds *)

Section Bindings.
Context `{TextConversions}.

Lemma slot_ok_params (w w' : World) (slot : string * ParameterBasePtr) :
  params w' = params w -> slot_ok w slot -> slot_ok w' slot.
Proof. intros Hp (a & o & ? & ? & ? & ?). exists a, o. rewrite Hp. auto. Qed.

(** Where the loop leaves the bindings, on a well-formed binding table. *)
Lemma create_loop_bindings (panel_name : string) (slots : list (string * ParameterBasePtr))
    (w w' : World) :
  Forall (slot_ok w) slots ->
  ascending name_compare slots ->
  well_formed (pangolinParams w) ->
  for_each (create_slot panel_name) slots w = Done tt w' ->
  well_formed (pangolinParams w') /\
  (forall i n a o,
     slots !! i = Some (n, Some a) -> params w !! a = Some o ->
     dict_find (group_of o) n (pangolinParams w') =
       Some (Some a, control_pointer (projT2 o) (length (vars w) + i))) /\
  (forall g n, n ∉ StdMap.keys slots ->
     dict_find g n (pangolinParams w') = dict_find g n (pangolinParams w)).
Proof.
  revert w. induction slots as [|[n ptr] slots IH]; intros w Hs Hasc Hwf E.
  - injection E as <-. split; [exact Hwf|]. split; [intros i n a o Hi; discriminate|auto].
  - pose proof (ascending_head name_compare _ _ _ Hasc) as Hhead.
    apply ascending_tail in Hasc.
    apply Forall_cons in Hs as [(a & [T p] & Ea & Hp & Hn & Hc) Hs].
    cbn [fst snd] in Ea, Hn. subst ptr.
    unfold name_of, category_of in Hn, Hc. cbn [projT2] in Hn, Hc.
    cbn [for_each] in E.
    rewrite (bind_Done _ _ _ _ _ (create_slot_live _ _ _ panel_name n _ Hp)) in E.
    rewrite (materialised_defined _ _ _ _ _ Hc) in E.
    set (w1 := mkWorld _ _ _ _ _) in E.
    assert (Hs1 : Forall (slot_ok w1) slots).
    { eapply Forall_impl; [exact Hs|]. intros slot. apply slot_ok_params. reflexivity. }
    assert (Hwf1 : well_formed (pangolinParams w1)).
    { cbn [w1 pangolinParams]. apply assign2_well_formed, Hwf. }
    destruct (IH w1 Hs1 Hasc Hwf1 E) as (Hwf' & Hb & Hu).
    split; [exact Hwf'|]. split.
    + intros [|i] n' a' o' Hi Ho'.
      * injection Hi as <- <-. rewrite Hp in Ho'. injection Ho' as <-.
        rewrite Hu by exact Hhead. cbn [w1 pangolinParams group_of projT2].
        rewrite Nat.add_0_r, <- Hn. apply dict_find_assign2.
      * cbn [lookup list_lookup] in Hi. rewrite (Hb i n' a' o' Hi Ho').
        cbn [w1 vars]. rewrite length_app. cbn [length].
        replace (length (vars w) + S i)%nat with (length (vars w) + 1 + i)%nat by lia.
        reflexivity.
    + intros g n' Hn'. cbn [StdMap.keys map fst] in Hn'.
      apply not_elem_of_cons in Hn' as [Hne Hn'].
      rewrite Hu by exact Hn'. cbn [w1 pangolinParams].
      apply dict_find_assign2_ne; [exact Hwf|]. congruence.
Qed.

Lemma registry_ok_slots (g : ParameterGroup) (w : World) :
  registry_ok w ->
  Forall (slot_ok w) (StdMap.at_or_default group_compare [] g (parametersDict w)) /\
  ascending name_compare (StdMap.at_or_default group_compare [] g (parametersDict w)).
Proof.
  intros [Ho Hi Hs]. split.
  - apply (at_or_default_Forall group_compare (Forall (slot_ok w))); [exact Hs|]. constructor.
  - apply (at_or_default_Forall group_compare (ascending name_compare)); [exact Hi|].
    constructor.
Qed.

(** X12.  On a registry whose slots all hold live objects,
    [createPangolinEntries] completes.  It leaves the objects as they are,
    appends one control for each name of the group, and binds every
    parameter of the group to one of the controls it has just appended: the
    control shows the value of the parameter (its text for [TEXTINPUT]) and
    the binding is filed under the group and name of the parameter.  The
    controls that existed keep their place and content, and the bindings of
    the names that are not in the group are what they were. *)
Theorem createPangolinEntries_binds_group (panel_name : string) (g : ParameterGroup)
    (w : World) :
  registry_ok w ->
  well_formed (pangolinParams w) ->
  exists w',
    createPangolinEntries panel_name g w = Done tt w' /\
    params w' = params w /\
    length (vars w') = (length (vars w) + length (registered_names g w))%nat /\
    (exists l, vars w' = vars w ++ l) /\
    (forall n a T (p : ParameterT T),
       dict_find g n (parametersDict w) = Some (Some a) ->
       params w !! a = Some (existT T p) ->
       exists va,
         (length (vars w) <= va)%nat /\
         vars w' !! va = Some (pushed_control p) /\
         dict_find (mGroup p) n (pangolinParams w') = Some (Some a, control_pointer p va)) /\
    (forall g' n, n ∉ registered_names g w ->
       dict_find g' n (pangolinParams w') = dict_find g' n (pangolinParams w)).
Proof.
  intros Hok Hwf. destruct (registry_ok_slots g w Hok) as [Hslots Hasc].
  set (slots := StdMap.at_or_default group_compare [] g (parametersDict w)) in *.
  set (w0 := set_parametersDict (touch g) w).
  assert (Hslots0 : Forall (slot_ok w0) slots).
  { eapply Forall_impl; [exact Hslots|]. intros slot. apply slot_ok_params. reflexivity. }
  destruct (create_loop_live panel_name slots w0 Hslots0)
    as (w' & E & Hp & _ & Hlen & Hl & Hctl & _).
  destruct (create_loop_bindings panel_name slots w0 w' Hslots0 Hasc Hwf E)
    as (_ & Hb & Hu).
  exists w'. split; [rewrite createPangolinEntries_unfold, touch_slots; exact E|].
  split; [exact Hp|].
  split; [rewrite Hlen; unfold registered_names, StdMap.keys; rewrite length_map;
          reflexivity|].
  split; [exact Hl|]. split; [|exact Hu].
  intros n a T p Hf Ha.
  apply (find_Some_elem name_compare) in Hf.
  apply list_elem_of_lookup in Hf as [i Hi].
  exists (length (vars w) + i)%nat. split; [lia|]. split.
  - exact (Hctl i n a (existT T p) Hi Ha).
  - exact (Hb i n a (existT T p) Hi Ha).
Qed.

End Bindings.

(** ** Programs that destroy no parameter *)

Lemma evolves_same_params (w w' : World) :
  params w' = params w -> (exists l, vars w' = vars w ++ l) -> evolves w w'.
Proof.
  intros Hp (l & Hl). split.
  - intros a o Ha. exists o. rewrite Hp. auto.
  - intros va c Hv. exists c. rewrite Hl. split; [|reflexivity].
    apply lookup_app_l_Some, Hv.
Qed.

Lemma registry_ok_quiet (w w' : World) :
  registry_ok w -> evolves w w' -> parametersDict w' = parametersDict w -> registry_ok w'.
Proof.
  intros [Ho Hi Hs] [He _] Hd. split; rewrite Hd; try assumption.
  eapply Forall_impl; [exact Hs|]. intros it Hit.
  eapply Forall_impl; [exact Hit|]. intros slot (a & o & Ea & Hp & Hn & Hc).
  destruct (He _ _ Hp) as (o' & Hp' & Hid).
  apply identity_name_group in Hid as (En & _ & Ec).
  exists a, o'. repeat split; try assumption; congruence.
Qed.

Lemma registry_ok_touch (g : ParameterGroup) (w : World) :
  registry_ok w -> registry_ok (set_parametersDict (touch g) w).
Proof.
  intros [Ho Hi Hs]. unfold set_parametersDict, touch.
  destruct (StdMap.find group_compare g (parametersDict w)); [destruct w; split; assumption|].
  split; cbn [parametersDict].
  - apply assign_ascending; [apply _|exact Ho].
  - apply Forall_assign; [exact Hi|]. constructor.
  - apply Forall_assign; [|constructor].
    eapply Forall_impl; [exact Hs|]. intros it Hit.
    eapply Forall_impl; [exact Hit|]. intros slot. apply slot_ok_params. reflexivity.
Qed.

Section Safety.
Context `{TextConversions}.

Lemma bound_created (T : ValueType) (a va : nat) (p : ParameterT T) (w : World) :
  params w !! a = Some (existT T p) ->
  vars w !! va = Some (pushed_control p) ->
  bound w (Some a, control_pointer p va).
Proof.
  intros Hp Hv. exists a, T, p. split; [reflexivity|]. split; [exact Hp|].
  unfold control_pointer, pushed_control in *. cbn [snd].
  destruct (mCategory p) eqn:Ec; eauto 6; (split; [reflexivity|]);
    (split; [discriminate|]); eauto.
Qed.

Lemma safe_quiet (w w' : World) : safe w -> quiet_step w w' -> safe w'.
Proof.
  intros [Hr Hb] (He & Hd & Hg). split.
  - eapply registry_ok_quiet; eassumption.
  - unfold entries. rewrite Hg. eapply Forall_impl; [exact Hb|].
    intros e. apply bound_evolves, He.
Qed.

Lemma safe_construct (d : Declaration) (w w' : World) :
  safe w -> params w !! decl_this d = None -> declare d w = Done tt w' -> safe w'.
Proof.
  intros [Hr Hb] Hfresh E.
  destruct (declare_ok d w w' Hr Hfresh E) as (Hr' & _ & Hp & _).
  split; [exact Hr'|].
  rewrite declare_run in E. injection E as <-.
  eapply Forall_impl; [exact Hb|]. intros e. apply bound_evolves. split.
  - intros a o Ha. exists o. split; [|reflexivity]. cbn [params].
    rewrite lookup_insert_ne; [exact Ha|]. intros <-. congruence.
  - eauto.
Qed.

Lemma safe_create (panel_name : string) (g : ParameterGroup) (w : World) :
  safe w -> exists w', createPangolinEntries panel_name g w = Done tt w' /\ safe w'.
Proof.
  intros [Hr Hb]. destruct (registry_ok_slots g w Hr) as [Hslots _].
  set (w0 := set_parametersDict (touch g) w).
  assert (Hslots0 : Forall (slot_ok w0)
                      (StdMap.at_or_default group_compare [] g (parametersDict w))).
  { eapply Forall_impl; [exact Hslots|]. intros slot. apply slot_ok_params. reflexivity. }
  destruct (create_loop_live panel_name _ w0 Hslots0)
    as (w' & E & Hp & Hd & _ & Hl & _ & Hent).
  exists w'. split; [rewrite createPangolinEntries_unfold, touch_slots; exact E|].
  assert (Hev : evolves w0 w') by (apply evolves_same_params; assumption).
  split.
  - eapply registry_ok_quiet; [apply registry_ok_touch, Hr|exact Hev|exact Hd].
  - apply Forall_forall. intros e He.
    apply Hent in He as [He|(i & n & a & T & p & _ & Ha & -> & Hv)].
    + apply (bound_evolves w0 w' e Hev). rewrite Forall_forall in Hb. apply Hb, He.
    + apply bound_created; [rewrite Hp; exact Ha|exact Hv].
Qed.

Lemma run_call_safe (c : Call) (w w1 : World) :
  safe w -> allowed w c -> is_Destroy c = false ->
  run_call c w = Done tt w1 \/ (exists e, run_call c w = Thrown e w1) ->
  safe w1.
Proof.
  intros Hs Ha Hc E.
  pose proof (run_call_quiet c w Ha) as Q.
  destruct c as [d|a|T a v|T a|T g n|panel_name g| |va c];
    cbn [run_call is_Destroy] in *; try discriminate;
    try (destruct E as [E|(e & E)]; rewrite E in Q; eapply safe_quiet; eassumption).
  - destruct E as [E|(e & E)]; [|rewrite declare_run in E; discriminate].
    eapply safe_construct; eassumption.
  - destruct (safe_create panel_name g w Hs) as (w' & E' & Hs').
    destruct E as [E|(e & E)]; congruence.
Qed.

Lemma reaches_safe (cs : list Call) (w w' : World) :
  reaches w cs w' -> existsb is_Destroy cs = false -> safe w -> safe w'.
Proof.
  induction 1 as [w|w w1 w2 c cs Ha E _ IH|w w1 w2 c cs e Ha E _ IH];
    cbn [existsb]; intros Hd Hs.
  - exact Hs.
  - apply orb_false_iff in Hd as [Hc Hd]. apply IH; [exact Hd|].
    eapply run_call_safe; eauto.
  - apply orb_false_iff in Hd as [Hc Hd]. apply IH; [exact Hd|].
    eapply run_call_safe; eauto.
Qed.

Lemma empty_world_safe : safe empty_world.
Proof. split; [apply empty_world_ok|constructor]. Qed.


End Safety.

(** ** The first pass after the controls were created *)

Lemma declarations_objects (ds : list Declaration) (w0 w : World) :
  for_each declare ds w0 = Done tt w ->
  pangolinParams w = pangolinParams w0 /\
  forall a o, params w !! a = Some o ->
    params w0 !! a = Some o \/ exists d, d ∈ ds /\ o = decl_object d.
Proof.
  revert w0. induction ds as [|d ds IH]; intros w0 E.
  - injection E as <-. auto.
  - cbn [for_each] in E. rewrite (bind_Done _ _ _ _ _ (declare_run d w0)) in E.
    apply IH in E as [Hg Ho]. cbn [pangolinParams params] in *.
    split; [exact Hg|]. intros a o Ha.
    destruct (Ho a o Ha) as [Hb|(d' & Hd' & ->)].
    + destruct (decide (a = decl_this d)) as [->|Hne].
      * rewrite lookup_insert_eq in Hb. injection Hb as <-.
        right. exists d. split; [left|reflexivity].
      * rewrite lookup_insert_ne in Hb by congruence. auto.
    + right. exists d'. split; [right; exact Hd'|reflexivity].
Qed.

Section FirstPass.
Context `{TextConversions}.

Lemma quiet_decl_object (d : Declaration) :
  quiet d = true -> quiet_object (decl_object d) = true.
Proof.
  destruct d as [T this name value toggle group|T this name value lo hi group
                |T this name value group];
    unfold quiet, quiet_object; cbn [decl_object projT1 projT2 mCategory mValue mChangedInCode];
    auto.
  intros _. destruct T, value; reflexivity.
Qed.

Lemma settled_created (T : ValueType) (a va : nat) (p : ParameterT T) (w : World) :
  params w !! a = Some (existT T p) ->
  quiet_object (existT T p) = true ->
  vars w !! va = Some (pushed_control p) ->
  settled w (Some a, control_pointer p va).
Proof.
  intros Hp Hq Hv. exists T, a, p. split; [reflexivity|]. split; [exact Hp|].
  unfold quiet_object in Hq. cbn [projT1 projT2] in Hq.
  unfold control_pointer, pushed_control in *. cbn [snd].
  destruct (mCategory p) eqn:Ec;
    try (split; [reflexivity|]; exists (mValue p);
         split; [exact Hv|]; split; [discriminate|];
         apply self_equal_true, Hq).
  apply andb_true_iff in Hq as [Hf Hq].
  destruct (lexical_cast T (to_string T (mValue p))) as [e|] eqn:El; [|discriminate].
  exists (to_string T (mValue p)), e.
  split; [exact Hv|]. split; [reflexivity|]. split; [exact El|].
  split; [apply negb_true_iff, Hf|apply negb_true_iff, Hq].
Qed.

Lemma settled_extended (w w' : World) (e : ParameterBasePtr * PangolinVariants) :
  params w' = params w -> (exists l, vars w' = vars w ++ l) ->
  settled w e -> settled w' e.
Proof.
  intros Hp (l & Hl) Hs. destruct e as [ptr pv].
  pose proof Hs as (T & a & p & Ea & Ha & Hpv). cbn [fst snd] in Ea, Hpv. subst ptr.
  apply (settled_same w w' a pv); [rewrite Hp; reflexivity| |exact Hs].
  rewrite Hl. destruct pv as [T' va|va]; cbn [var_of].
  - destruct Hpv as (_ & x & Hv & _). rewrite Hv. apply lookup_app_l_Some, Hv.
  - destruct Hpv as (s & e & Hv & _). rewrite Hv. apply lookup_app_l_Some, Hv.
Qed.

(** [createPangolinEntries] keeps a state in which a pass finds nothing to
    do in that condition. *)
Lemma create_settled (panel_name : string) (g : ParameterGroup) (w : World) :
  registry_ok w ->
  (forall a o, params w !! a = Some o -> quiet_object o = true) ->
  Forall (settled w) (entries w) ->
  exists w',
    createPangolinEntries panel_name g w = Done tt w' /\
    registry_ok w' /\
    (forall a o, params w' !! a = Some o -> quiet_object o = true) /\
    Forall (settled w') (entries w').
Proof.
  intros Hr Hq Hs. destruct (registry_ok_slots g w Hr) as [Hslots _].
  set (w0 := set_parametersDict (touch g) w).
  assert (Hslots0 : Forall (slot_ok w0)
                      (StdMap.at_or_default group_compare [] g (parametersDict w))).
  { eapply Forall_impl; [exact Hslots|]. intros slot. apply slot_ok_params. reflexivity. }
  destruct (create_loop_live panel_name _ w0 Hslots0)
    as (w' & E & Hp & Hd & _ & Hl & _ & Hent).
  exists w'. split; [rewrite createPangolinEntries_unfold, touch_slots; exact E|].
  split; [|split].
  - eapply registry_ok_quiet; [apply registry_ok_touch, Hr| |exact Hd].
    apply evolves_same_params; assumption.
  - intros a o. rewrite Hp. apply Hq.
  - apply Forall_forall. intros e He.
    apply Hent in He as [He|(i & n & a & T & p & _ & Ha & -> & Hv)].
    + apply (settled_extended w0 w' e Hp Hl). rewrite Forall_forall in Hs. apply Hs, He.
    + apply settled_created; [rewrite Hp; exact Ha|exact (Hq _ _ Ha)|exact Hv].
Qed.

(** X14.  A program declares its parameters, at distinct addresses, and
    creates the controls of a group.  If the value of every parameter
    compares equal to itself (it is not a NaN) and, for a [TEXTINPUT]
    parameter, the text of the value converts back to a value equal to it,
    the first reconciliation pass completes and changes nothing: no value,
    no flag, no control, and no callback is invoked. *)
Theorem first_pass_after_creation_changes_nothing (ds : list Declaration)
    (panel_name : string) (g : ParameterGroup) :
  NoDup (map decl_this ds) ->
  forallb quiet ds = true ->
  exists w,
    (for_each declare ds ;; createPangolinEntries panel_name g) empty_world = Done tt w /\
    updateParameters w = Done tt w.
Proof.
  intros Hnd Hq.
  destruct (declarations_ok ds empty_world empty_world_ok) as (w0 & E0 & Hr0 & _);
    [intros; apply lookup_empty|exact Hnd|].
  destruct (declarations_objects ds empty_world w0 E0) as [Hg Ho].
  destruct (create_settled panel_name g w0 Hr0) as (w & E & _ & _ & Hs).
  - intros a o Ha. destruct (Ho a o Ha) as [Hb|(d & Hd & ->)].
    + unfold empty_world in Hb. cbn [params] in Hb.
      rewrite lookup_empty in Hb. discriminate.
    + apply quiet_decl_object. rewrite forallb_forall in Hq.
      apply Hq, list_elem_of_In, Hd.
  - unfold entries. rewrite Hg. constructor.
  - exists w. split; [rewrite (bind_Done _ _ _ _ _ E0); exact E|].
    rewrite updateParameters_entries. apply for_each_quiet, Hs.
Qed.

End FirstPass.

(** ** Reading and writing the value *)

(** X15.  [getValue()] and [operator()] on a live object return the value
    given to the last [setValue], and change nothing: in particular they do
    not consume the pending [mChangedInCode]. *)
Theorem reads_return_the_value_set (T : ValueType) (a : nat) (p : ParameterT T)
    (v : carrier T) (w : World) :
  params w !! a = Some (existT T p) ->
  exists w1,
    call_setValue T (Some a) v w = Done tt w1 /\
    call_getValue T (Some a) w1 = Done v w1 /\
    call_operator T (Some a) w1 = Done v w1 /\
    params w1 !! a = Some (existT T (setValue v p)).
Proof.
  intros Hp. eexists. split; [apply write_member_live, Hp|].
  assert (Hp1 : params (set_params (insert a (existT T (setValue v p))) w) !! a =
                Some (existT T (setValue v p))) by apply lookup_insert_eq.
  assert (Eg : call_getValue T (Some a) (set_params (insert a (existT T (setValue v p))) w) =
               Done v (set_params (insert a (existT T (setValue v p))) w)).
  { unfold call_getValue. rewrite (bind_Done _ _ _ _ _ (static_cast_live _ _ _ _ Hp1)).
    reflexivity. }
  split; [exact Eg|]. split; [exact Eg|exact Hp1].
Qed.

Lemma reads_return_the_value_set_witness :
  params Demo.gain_bound !! 1%nat = Some (existT T_double Demo.gain) /\
  exists w1,
    call_setValue T_double (Some 1%nat) Demo.d7_5 Demo.gain_bound = Done tt w1 /\
    call_getValue T_double (Some 1%nat) w1 = Done Demo.d7_5 w1 /\
    call_operator T_double (Some 1%nat) w1 = Done Demo.d7_5 w1.
Proof.
  assert (Hp : params Demo.gain_bound !! 1%nat = Some (existT T_double Demo.gain))
    by (vm_compute; reflexivity).
  split; [exact Hp|].
  destruct (reads_return_the_value_set T_double 1 Demo.gain Demo.d7_5 Demo.gain_bound Hp)
    as (w1 & E & Eg & Eo & _).
  exists w1. auto.
Defined.

Section Coalescing.
Context `{TextConversions}.

(** X16.  Several [setValue] calls made between two passes are seen by
    the pass as one change: the pass pushes the last value to the control
    and invokes the callback once; the earlier value reaches neither the
    control nor the callback.  (For a category other than [TEXTINPUT] this
    takes a control that shows a value different from the last one set;
    otherwise the pass does nothing.) *)
Theorem setValue_calls_are_coalesced (T : ValueType) (a : nat) (pv : PangolinVariants)
    (p : ParameterT T) (v1 v2 : carrier T) (w w' : World) :
  params w !! a = Some (existT T p) ->
  unshared (entries w) ->
  (Some a, pv) ∈ entries w ->
  (call_setValue T (Some a) v1 ;; call_setValue T (Some a) v2 ;; updateParameters) w
    = Done tt w' ->
  exists x,
    shown_value T pv w = Some x /\
    (mCategory p = TEXTINPUT \/ neq T x v2 = true ->
       params w' !! a =
         Some (existT T (with_mChangedInCode false (with_mValue v2 p))) /\
       vars w' !! var_of pv = Some (pushed_control (with_mValue v2 p)) /\
       callbacks a (log w') = S (callbacks a (log w))) /\
    (mCategory p <> TEXTINPUT -> neq T x v2 = false ->
       params w' !! a = Some (existT T (setValue v2 p)) /\
       vars w' !! var_of pv = vars w !! var_of pv /\
       callbacks a (log w') = callbacks a (log w)).
Proof.
  intros Hp Hu Hin E.
  rewrite (bind_Done _ _ _ _ _ (write_member_live _ _ _ _ Hp (setValue v1))) in E.
  set (w1 := set_params _ w) in E.
  assert (Hp1 : params w1 !! a = Some (existT T (setValue v1 p))) by apply lookup_insert_eq.
  rewrite (bind_Done _ _ _ _ _ (write_member_live _ _ _ _ Hp1 (setValue v2))) in E.
  set (w2 := set_params _ w1) in E.
  assert (Hp2 : params w2 !! a = Some (existT T (setValue v2 p))) by apply lookup_insert_eq.
  destruct (updateParameters_local T a pv _ w2 w' E Hu Hin Hp2)
    as (x & c & Hx & Hc & _ & Hp' & Hv' & Hcb).
  exists x. split; [exact Hx|]. split.
  - intros Hpush.
    assert (Hr : reconciled (setValue v2 p) x = with_mChangedInCode false (with_mValue v2 p) /\
                 control_after (setValue v2 p) x c = pushed_control (with_mValue v2 p) /\
                 fires (setValue v2 p) x = true).
    { unfold reconciled, control_after, fires, pushed_control, setValue.
      cbn [mCategory mChangedInCode mValue with_mChangedInCode with_mValue].
      destruct Hpush as [Ht|Hne].
      - rewrite Ht. auto.
      - rewrite Hne. destruct (mCategory p); auto. }
    destruct Hr as (Er & Ec & Ef). rewrite Er in Hp'. rewrite Ec in Hv'. rewrite Ef in Hcb.
    split; [exact Hp'|]. split; [exact Hv'|]. rewrite Hcb. cbn [w2 w1 set_params log]. lia.
  - intros Ht Heq.
    assert (Hr : reconciled (setValue v2 p) x = setValue v2 p /\
                 control_after (setValue v2 p) x c = c /\
                 fires (setValue v2 p) x = false).
    { unfold reconciled, control_after, fires, setValue.
      cbn [mCategory mChangedInCode mValue with_mChangedInCode with_mValue].
      rewrite Heq. destruct (mCategory p); try contradiction; auto. }
    destruct Hr as (Er & Ec & Ef). rewrite Er in Hp'. rewrite Ec in Hv'. rewrite Ef in Hcb.
    split; [exact Hp'|]. split; [rewrite Hv'; symmetry; exact Hc|].
    rewrite Hcb. cbn [w2 w1 set_params log]. lia.
Qed.

End Coalescing.

(** ** Destruction and what follows *)

(** X17.  The destructor leaves the key of the parameter in the registry.
    A parameter declared again with the group and name of a destroyed one
    is therefore reported as a duplicate, although no other parameter of
    that name exists; the lookup then returns the new object. *)
Theorem redeclaring_destroyed_parameter_warns (a : nat) (o : ParameterBase)
    (d : Declaration) (w : World) :
  params w !! a = Some o ->
  decl_group d = group_of o ->
  decl_name d = name_of o ->
  exists w',
    (Parameter_dtor a ;; declare d) w = Done tt w' /\
    log w' = log w ++ [LOG_WARNING_Deleted (name_of o); LOG_WARNING_Duplicate (decl_name d)] /\
    forall T, getParameter T (decl_group d) (decl_name d) w' = Done (Some (decl_this d)) w'.
Proof.
  intros Hp Hg Hn. eexists. split.
  { rewrite (bind_Done _ _ _ _ _ (Parameter_dtor_live a o w Hp)). apply declare_run. }
  cbn [log parametersDict]. rewrite Hg, Hn, dict_find_assign2, <- app_assoc.
  split; [reflexivity|].
  intros T. apply getParameter_found. cbn [parametersDict]. apply dict_find_assign2.
Qed.

Section Unbound.
Context `{TextConversions}.


End Unbound.

(** ** Runs *)

(** A session is run call by call. *)
Ltac allowed_now :=
  first [ exact I
        | vm_compute; reflexivity
        | eexists; split; vm_compute; reflexivity ].

Ltac run_calls :=
  repeat first
    [ apply reaches_nil
    | eapply reaches_done; [allowed_now|vm_compute; reflexivity|]
    | eapply reaches_thrown; [allowed_now|vm_compute; reflexivity|] ].

Section FurtherRuns.
#[local] Existing Instance CLocale.conversions.


Lemma getParameter_never_returns_dangling_pointer_witness :
  exists w,
    reaches empty_world session_with_destructor w /\
    getParameter T_int MAIN "zoom" w = Done (Some 2%nat) w /\
    getParameter T_double MAIN "gain" w = Done nullptr w /\
    exists o, params w !! 2%nat = Some o /\ group_of o = MAIN /\ name_of o = "zoom".
Proof.
  assert (Hr : exists w,
             reaches empty_world session_with_destructor w /\
             getParameter T_int MAIN "zoom" w = Done (Some 2%nat) w /\
             getParameter T_double MAIN "gain" w = Done nullptr w).
  { eexists. split; [unfold session_with_destructor; run_calls|].
    split; vm_compute; reflexivity. }
  destruct Hr as (w & Hr & Hg & Hn). exists w.
  split; [exact Hr|]. split; [exact Hg|]. split; [exact Hn|].
  exact (proj2 (getParameter_never_returns_dangling_pointer _ w w T_int MAIN "zoom" 2 Hr Hg)).
Defined.

Lemma createPangolinEntries_inserts_unknown_group_witness :
  StdMap.find group_compare TRACKING (parametersDict Demo.gain_bound) = None /\
  exists w',
    createPangolinEntries "menu" TRACKING Demo.gain_bound = Done tt w' /\
    vars w' = vars Demo.gain_bound /\
    log w' = log Demo.gain_bound /\
    getParameter T_int TRACKING "window" Demo.gain_bound =
      Done nullptr (set_log (fun l => l ++ [DLOG_WARNING_NoGroup TRACKING]) Demo.gain_bound) /\
    getParameter T_int TRACKING "window" w' =
      Done nullptr (set_log (fun l => l ++ [DLOG_WARNING_NoParameter "window"]) w').
Proof.
  assert (Hg : StdMap.find group_compare TRACKING (parametersDict Demo.gain_bound) = None)
    by (vm_compute; reflexivity).
  split; [exact Hg|].
  destruct (createPangolinEntries_inserts_unknown_group "menu" TRACKING Demo.gain_bound Hg)
    as (w' & E & -> & Hbefore & Hafter).
  eexists. split; [exact E|]. split; [reflexivity|]. split; [reflexivity|].
  split; [apply Hbefore|apply Hafter].
Defined.

Lemma createPangolinEntries_after_destructor_witness :
  registry_sound Demo.gain_bound /\
  params Demo.gain_bound !! 1%nat = Some (existT T_double Demo.gain) /\
  (Parameter_dtor 1 ;; createPangolinEntries "menu" MAIN) Demo.gain_bound =
    Undefined NullDereference.
Proof.
  assert (Hs : registry_sound Demo.gain_bound).
  { apply (reaches_sound
             [Construct (Range T_double 1 "gain" Demo.d1 Demo.d0 Demo.d10 MAIN target_returns);
              CreatePangolinEntries "menu" MAIN] empty_world);
      [run_calls|apply empty_world_sound]. }
  assert (Hp : params Demo.gain_bound !! 1%nat = Some (existT T_double Demo.gain))
    by (vm_compute; reflexivity).
  split; [exact Hs|]. split; [exact Hp|].
  destruct (createPangolinEntries_after_destructor "menu" 1 _ _ Hs Hp) as (w1 & E & E').
  rewrite (bind_Done _ _ _ _ _ E). exact E'.
Defined.

Lemma createPangolinEntries_binds_group_witness :
  exists w w',
    for_each declare zoom_then_alpha empty_world = Done tt w /\
    registry_ok w /\
    well_formed (pangolinParams w) /\
    createPangolinEntries "menu" MAIN w = Done tt w' /\
    length (vars w') = 2%nat /\
    exists va,
      vars w' !! va = Some (Var_T T_int 50) /\
      dict_find MAIN "alpha" (pangolinParams w') = Some (Some 2%nat, PV_T T_int va).
Proof.
  destruct (declarations_ok zoom_then_alpha empty_world empty_world_ok)
    as (w & E & Hok & _).
  { intros. apply lookup_empty. }
  { apply (bool_decide_unpack _). vm_compute. exact I. }
  assert (Ew : w = state_after (for_each declare zoom_then_alpha) empty_world)
    by (unfold state_after; rewrite E; reflexivity).
  assert (Hwf : well_formed (pangolinParams w)).
  { rewrite Ew. vm_compute. split; constructor. }
  destruct (createPangolinEntries_binds_group "menu" MAIN w Hok Hwf)
    as (w' & E' & _ & Hlen & _ & Hb & _).
  exists w, w'. split; [exact E|]. split; [exact Hok|]. split; [exact Hwf|].
  split; [exact E'|]. split; [rewrite Hlen, Ew; vm_compute; reflexivity|].
  destruct (Hb "alpha" 2%nat T_int (@mkParameter T_int MINMAX 0 100 50 "alpha" MAIN false false target_returns))
    as (va & _ & Hv & Hf).
  { rewrite Ew. vm_compute. reflexivity. }
  { rewrite Ew. vm_compute. reflexivity. }
  exists va. split; [exact Hv|exact Hf].
Defined.


Lemma first_pass_after_creation_changes_nothing_witness :
  let ds := [Text T_int 1 "threshold" 3 TRACKING target_returns; Range T_int 2 "window" 5 0 10 TRACKING target_returns;
             Toggle T_bool 3 "show" true true MAIN target_returns] in
  NoDup (map decl_this ds) /\
  forallb quiet ds = true /\
  exists w,
    (for_each declare ds ;; createPangolinEntries "menu" TRACKING) empty_world = Done tt w /\
    length (vars w) = 2%nat /\
    updateParameters w = Done tt w.
Proof.
  intros ds.
  assert (Hnd : NoDup (map decl_this ds)) by (apply (bool_decide_unpack _); vm_compute; exact I).
  assert (Hq : forallb quiet ds = true) by (vm_compute; reflexivity).
  split; [exact Hnd|]. split; [exact Hq|].
  destruct (first_pass_after_creation_changes_nothing ds "menu" TRACKING Hnd Hq)
    as (w & E & Eu).
  exists w. split; [exact E|]. split; [|exact Eu].
  vm_compute in E. injection E as <-. reflexivity.
Defined.

Lemma setValue_calls_are_coalesced_witness :
  exists w',
    (call_setValue T_double (Some 1%nat) Demo.d5 ;;
     call_setValue T_double (Some 1%nat) Demo.d7_5 ;;
     updateParameters) Demo.gain_bound = Done tt w' /\
    vars w' !! 0%nat = Some (Var_T T_double Demo.d7_5) /\
    callbacks 1 (log w') = 1%nat.
Proof.
  eexists. split; [vm_compute; reflexivity|].
  match goal with |- vars ?w !! _ = _ /\ _ => set (w' := w) end.
  assert (E : (call_setValue T_double (Some 1%nat) Demo.d5 ;;
               call_setValue T_double (Some 1%nat) Demo.d7_5 ;;
               updateParameters) Demo.gain_bound = Done tt w')
    by (vm_compute; reflexivity).
  destruct (setValue_calls_are_coalesced T_double 1 (PV_T T_double 0) Demo.gain
              Demo.d5 Demo.d7_5 Demo.gain_bound w') as (x & Hx & Hpush & _).
  - vm_compute. reflexivity.
  - solve_unshared.
  - vm_compute. left.
  - exact E.
  - assert (Ex : x = Demo.d1) by (vm_compute in Hx; injection Hx as <-; reflexivity).
    subst x. destruct Hpush as (_ & Hv & Hc); [right; vm_compute; reflexivity|].
    split; [exact Hv|]. rewrite Hc. vm_compute. reflexivity.
Defined.

Lemma redeclaring_destroyed_parameter_warns_witness :
  params Demo.gain_bound !! 1%nat = Some (existT T_double Demo.gain) /\
  exists w',
    (Parameter_dtor 1 ;; Parameter_minmax T_double 1 "gain" Demo.d5 Demo.d0 Demo.d10 MAIN target_returns)
      Demo.gain_bound = Done tt w' /\
    log w' = log Demo.gain_bound ++
               [LOG_WARNING_Deleted "gain"; LOG_WARNING_Duplicate "gain"] /\
    getParameter T_double MAIN "gain" w' = Done (Some 1%nat) w'.
Proof.
  assert (Hp : params Demo.gain_bound !! 1%nat = Some (existT T_double Demo.gain))
    by (vm_compute; reflexivity).
  split; [exact Hp|].
  destruct (redeclaring_destroyed_parameter_warns 1 _
              (Range T_double 1 "gain" Demo.d5 Demo.d0 Demo.d10 MAIN target_returns) Demo.gain_bound Hp)
    as (w' & E & Hl & Hg); [reflexivity|reflexivity|].
  exists w'. split; [exact E|]. split; [exact Hl|]. exact (Hg T_double).
Defined.


End FurtherRuns.

(** ** Bindings are not shared *)

Section Flatten.
Context {K1 K2 V B : Type} (f : V -> B).

(** The values of a two-level map, both levels without a repeated key, are
    sent to distinct images by a function that tells the keys apart. *)
Lemma NoDup_flatten (m : list (K1 * list (K2 * V))) :
  NoDup (map fst m) ->
  Forall (fun it => NoDup (map fst (snd it))) m ->
  (forall g inner n e g' inner' n' e',
      (g, inner) ∈ m -> (n, e) ∈ inner ->
      (g', inner') ∈ m -> (n', e') ∈ inner' ->
      f e = f e' -> g = g' /\ n = n') ->
  NoDup (map f (concat (map (fun it => map snd (snd it)) m))).
Proof.
  induction m as [|[g inner] m IH]; intros Hk Hi Hinj; cbn [map concat snd].
  - constructor.
  - cbn [map fst] in Hk. apply NoDup_cons in Hk as [Hg Hk].
    apply Forall_cons in Hi as [Hinner Hi]. cbn [snd] in Hinner.
    rewrite map_app. apply NoDup_app. split; [|split].
    + assert (Hsub : forall n e, (n, e) ∈ inner -> (n, e) ∈ inner) by auto.
      revert Hinner Hsub. generalize inner at 1 2 4 as l.
      induction l as [|[n e] l IHl]; intros Hl Hsub; cbn [map snd fst] in *.
      * constructor.
      * apply NoDup_cons in Hl as [Hn Hl]. apply NoDup_cons. split.
        -- intros Hin. apply list_elem_of_In, in_map_iff in Hin as (e' & Ee & Hin).
           apply in_map_iff in Hin as ([n' e''] & <- & Hin). cbn [snd] in Ee.
           apply list_elem_of_In in Hin.
           destruct (Hinj g inner n' e'' g inner n e) as [_ ->]; auto.
           ++ left.
           ++ apply Hsub. right. exact Hin.
           ++ left.
           ++ apply Hsub. left.
           ++ apply Hn. change n with (fst (n, e'')). apply elem_of_map, Hin.
        -- apply IHl; [exact Hl|]. intros n' e' Hin. apply Hsub. right. exact Hin.
    + intros x Hx Hx'.
      apply list_elem_of_In, in_map_iff in Hx as (e & <- & Hx).
      apply in_map_iff in Hx as ([n e0] & <- & Hx). cbn [snd] in *.
      apply list_elem_of_In, in_map_iff in Hx' as (e' & Ee & Hx').
      apply in_concat in Hx' as (l & Hl & Hx').
      apply in_map_iff in Hl as ([g' inner'] & <- & Hl). cbn [snd] in Hx'.
      apply in_map_iff in Hx' as ([n' e''] & <- & Hx'). cbn [snd] in Ee.
      apply list_elem_of_In in Hx, Hl. apply list_elem_of_In in Hx'.
      destruct (Hinj g' inner' n' e'' g inner n e0) as [-> _]; auto.
      * right. exact Hl.
      * left.
      * apply Hg. change g with (fst (g, inner')). apply elem_of_map, Hl.
    + apply IH; [exact Hk|exact Hi|].
      intros g1 i1 n1 e1 g2 i2 n2 e2 H1 H1' H2 H2'.
      apply (Hinj g1 i1 n1 e1 g2 i2 n2 e2); auto; right; assumption.
Qed.
End Flatten.

Section Ascending3.
Context {K V : Type} (cmp : K -> K -> comparison) `{!OrderLaws cmp}.

Lemma ascending_NoDup (m : list (K * V)) : ascending cmp m -> NoDup (map fst m).
Proof.
  induction m as [|[k v] m IH]; intros Hm; cbn [map fst].
  - constructor.
  - apply NoDup_cons. split.
    + apply (ascending_head cmp k v m Hm).
    + apply IH. eapply ascending_tail, Hm.
Qed.
End Ascending3.

Lemma elem_dict_find {V} (g : ParameterGroup) (n : string) (v : V) (inner : list (string * V))
    (m : list (ParameterGroup * list (string * V))) :
  well_formed m -> (g, inner) ∈ m -> (n, v) ∈ inner -> dict_find g n m = Some v.
Proof.
  intros [Ho Hi] Hg Hn. unfold dict_find, StdMap.at_or_default.
  rewrite (find_elem group_compare g inner m Ho Hg).
  apply (find_elem name_compare); [|exact Hn].
  rewrite Forall_forall in Hi. exact (Hi _ Hg).
Qed.

(** In such a table no parameter and no control is bound twice. *)
Lemma keyed_unshared (w : World) : keyed w -> unshared (entries w).
Proof.
  intros [Hwf He Hc]. pose proof Hwf as [Ho Hi]. split; unfold entries.
  - apply (NoDup_flatten fst).
    + apply (ascending_NoDup group_compare), Ho.
    + eapply Forall_impl; [exact Hi|]. intros it. apply (ascending_NoDup name_compare).
    + intros g inner n e g' inner' n' e' Hg Hn Hg' Hn' Eq.
      pose proof (elem_dict_find _ _ _ _ _ Hwf Hg Hn) as F.
      pose proof (elem_dict_find _ _ _ _ _ Hwf Hg' Hn') as F'.
      destruct (He _ _ _ F) as (a & o & Ea & Hp & <- & <- & _).
      destruct (He _ _ _ F') as (a' & o' & Ea' & Hp' & <- & <- & _).
      rewrite Ea, Ea' in Eq. injection Eq as <-. rewrite Hp in Hp'. injection Hp' as <-.
      auto.
  - apply (NoDup_flatten (fun e => var_of (snd e))).
    + apply (ascending_NoDup group_compare), Ho.
    + eapply Forall_impl; [exact Hi|]. intros it. apply (ascending_NoDup name_compare).
    + intros g inner n e g' inner' n' e' Hg Hn Hg' Hn' Eq.
      pose proof (elem_dict_find _ _ _ _ _ Hwf Hg Hn) as F.
      pose proof (elem_dict_find _ _ _ _ _ Hwf Hg' Hn') as F'.
      pose proof (Hc _ _ _ _ _ _ F F' Eq) as [= -> ->]. auto.
Qed.

Lemma keyed_evolves (w w' : World) :
  keyed w -> evolves w w' -> pangolinParams w' = pangolinParams w -> keyed w'.
Proof.
  intros [Hwf He Hc] [Ho Hv] Hg. split; rewrite Hg; [exact Hwf| |exact Hc].
  intros g n e F. destruct (He g n e F) as (a & o & Ea & Hp & Eg & En & [c Hctl]).
  destruct (Ho _ _ Hp) as (o' & Hp' & Hid).
  apply identity_name_group in Hid as (En' & Eg' & _).
  destruct (Hv _ _ Hctl) as (c' & Hctl' & _).
  exists a, o'. split; [exact Ea|]. split; [exact Hp'|].
  split; [congruence|]. split; [congruence|eauto].
Qed.

Lemma keyed_registry (f : ParameterDictionary -> ParameterDictionary) (w : World) :
  keyed w -> keyed (set_parametersDict f w).
Proof. intros [Hwf He Hc]. split; assumption. Qed.

Section Keyed.
Context `{TextConversions}.

Lemma var_of_control_pointer (T : ValueType) (p : ParameterT T) (va : nat) :
  var_of (control_pointer p va) = va.
Proof. unfold control_pointer. destruct (mCategory p); reflexivity. Qed.

Lemma keyed_materialised (panel_name : string) (T : ValueType) (a : nat)
    (p : ParameterT T) (w : World) :
  params w !! a = Some (existT T p) -> keyed w -> keyed (materialised panel_name a p w).
Proof.
  intros Hp Hk.
  destruct (decide (mCategory p = UNDEFINED_CATEGORY)) as [Ec|Ec].
  { unfold materialised. rewrite Ec. exact Hk. }
  rewrite (materialised_defined _ _ _ _ _ Ec). destruct Hk as [Hwf He Hc].
  assert (Hnew : forall g n e,
             dict_find g n (assign2 (mGroup p) (mName p)
                              (Some a, control_pointer p (length (vars w)))
                              (pangolinParams w)) = Some e ->
             ((g, n) = (mGroup p, mName p) /\
              e = (Some a, control_pointer p (length (vars w)))) \/
             ((g, n) <> (mGroup p, mName p) /\
              dict_find g n (pangolinParams w) = Some e)).
  { intros g n e F.
    destruct (decide ((g, n) = (mGroup p, mName p))) as [[= -> ->]|Hne].
    - rewrite dict_find_assign2 in F. injection F as <-. auto.
    - rewrite dict_find_assign2_ne in F by assumption. auto. }
  assert (Hold : forall g n e, dict_find g n (pangolinParams w) = Some e ->
                   (var_of (snd e) < length (vars w))%nat).
  { intros g n e F. destruct (He g n e F) as (_ & _ & _ & _ & _ & _ & [c Hctl]).
    eapply lookup_lt_Some, Hctl. }
  split; cbn [pangolinParams params vars].
  - apply assign2_well_formed, Hwf.
  - intros g n e F. apply Hnew in F as [[[= -> ->] ->]|[_ F]].
    + exists a, (existT T p). cbn [fst snd]. rewrite var_of_control_pointer.
      repeat split; try assumption.
      rewrite lookup_app_r by lia. rewrite Nat.sub_diag. eexists. reflexivity.
    + destruct (He g n e F) as (b & o & Eb & Hb & Eg & En & [c Hctl]).
      exists b, o. repeat split; try assumption.
      exists c. apply lookup_app_l_Some, Hctl.
  - intros g n e g' n' e' F F' Eq.
    apply Hnew in F as [[E1 ->]|[N1 F]]; apply Hnew in F' as [[E2 ->]|[N2 F']].
    + congruence.
    + cbn [snd] in Eq. rewrite var_of_control_pointer in Eq.
      pose proof (Hold _ _ _ F'). lia.
    + cbn [snd] in Eq. rewrite var_of_control_pointer in Eq.
      pose proof (Hold _ _ _ F). lia.
    + exact (Hc _ _ _ _ _ _ F F' Eq).
Qed.

Lemma create_loop_ind (P : World -> Prop) (panel_name : string)
    (slots : list (string * ParameterBasePtr)) (w w' : World) :
  (forall w1 a T (p : ParameterT T),
      params w1 !! a = Some (existT T p) -> P w1 -> P (materialised panel_name a p w1)) ->
  for_each (create_slot panel_name) slots w = Done tt w' ->
  P w -> P w'.
Proof.
  intros Hstep. revert w. induction slots as [|[n [a|]] slots IH]; intros w E Hw.
  - injection E as <-. exact Hw.
  - cbn [for_each] in E. destruct (params w !! a) as [[T p]|] eqn:Hp.
    + rewrite (bind_Done _ _ _ _ _ (create_slot_live _ _ _ panel_name n _ Hp)) in E.
      apply (IH _ E). apply Hstep; assumption.
    + rewrite (bind_Undefined _ _ _ _ (create_slot_destroyed panel_name n a w Hp)) in E.
      discriminate.
  - discriminate.
Qed.

Lemma keyed_create (panel_name : string) (g : ParameterGroup) (w w' : World) :
  keyed w -> createPangolinEntries panel_name g w = Done tt w' -> keyed w'.
Proof.
  intros Hk E. rewrite createPangolinEntries_unfold in E.
  apply (create_loop_ind keyed panel_name _ _ _
           (fun w1 a T p => keyed_materialised panel_name T a p w1) E).
  apply keyed_registry, Hk.
Qed.

Lemma run_call_keyed (c : Call) (w w1 : World) :
  keyed w -> allowed w c -> is_Destroy c = false ->
  run_call c w = Done tt w1 \/ (exists e, run_call c w = Thrown e w1) ->
  keyed w1.
Proof.
  intros Hk Ha Hc E.
  pose proof (run_call_quiet c w Ha) as Q.
  destruct c as [d|a|T a v|T a|T g n|panel_name g| |va c];
    cbn [run_call is_Destroy] in *; try discriminate;
    try (destruct E as [E|(e & E)]; rewrite E in Q; destruct Q as (Q1 & _ & Q2);
         eapply keyed_evolves; eassumption).
  - destruct E as [E|(e & E)]; [|rewrite declare_run in E; discriminate].
    rewrite declare_run in E. injection E as <-.
    apply (keyed_evolves w); [exact Hk| |reflexivity]. split.
    + intros a o Hp. exists o. split; [|reflexivity]. cbn [params].
      rewrite lookup_insert_ne; [exact Hp|]. intros <-. congruence.
    + eauto.
  - pose proof (createPangolinEntries_outcome panel_name g w) as O.
    destruct E as [E|(e & E)]; [|rewrite E in O; contradiction].
    eapply keyed_create; eassumption.
Qed.

Lemma reaches_keyed (cs : list Call) (w w' : World) :
  reaches w cs w' -> existsb is_Destroy cs = false -> keyed w -> keyed w'.
Proof.
  induction 1 as [w|w w1 w2 c cs Ha E _ IH|w w1 w2 c cs e Ha E _ IH];
    cbn [existsb]; intros Hd Hk.
  - exact Hk.
  - apply orb_false_iff in Hd as [Hc Hd]. apply IH; [exact Hd|].
    eapply run_call_keyed; eauto.
  - apply orb_false_iff in Hd as [Hc Hd]. apply IH; [exact Hd|].
    eapply run_call_keyed; eauto.
Qed.

Lemma empty_world_keyed : keyed empty_world.
Proof.
  split; [apply well_formed_nil| |]; cbn [empty_world pangolinParams]; intros; discriminate.
Qed.

(** X19.  In a program that destroys no parameter, no parameter and no
    control is ever bound twice: in every state it can reach, each binding
    is filed under the group and name of the live parameter it holds, and
    no two bindings share a parameter or a control.  The condition under
    which the results on single bindings (C1, C4, C5, C6) are stated thus
    holds in all these states. *)
Theorem bindings_are_unshared_without_destructor (cs : list Call) (w : World) :
  reaches empty_world cs w ->
  existsb is_Destroy cs = false ->
  unshared (entries w) /\
  (forall g n a pv,
      dict_find g n (pangolinParams w) = Some (Some a, pv) ->
      exists o, params w !! a = Some o /\ group_of o = g /\ name_of o = n).
Proof.
  intros Hr Hd. pose proof (reaches_keyed _ _ _ Hr Hd empty_world_keyed) as Hk.
  split; [apply keyed_unshared, Hk|].
  intros g n a pv F.
  destruct (keyed_entry _ Hk _ _ _ F) as (a' & o & [= <-] & Hp & Hg & Hn & _). eauto.
Qed.

End Keyed.

Section KeyedRun.
#[local] Existing Instance CLocale.conversions.

Lemma bindings_are_unshared_without_destructor_witness :
  exists w,
    reaches empty_world session_without_destructor w /\
    existsb is_Destroy session_without_destructor = false /\
    entries w = [(Some 1%nat, PV_string 0); (Some 2%nat, PV_T T_int 1)] /\
    unshared (entries w).
Proof.
  assert (Hr : exists w,
             reaches empty_world session_without_destructor w /\
             entries w = [(Some 1%nat, PV_string 0); (Some 2%nat, PV_T T_int 1)]).
  { eexists. split; [unfold session_without_destructor; run_calls|].
    vm_compute. reflexivity. }
  destruct Hr as (w & Hr & He).
  assert (Hd : existsb is_Destroy session_without_destructor = false) by reflexivity.
  exists w. split; [exact Hr|]. split; [exact Hd|]. split; [exact He|].
  exact (proj1 (bindings_are_unshared_without_destructor _ w Hr Hd)).
Defined.

End KeyedRun.

(** ** A text that does not convert *)

Section Blocked.
Context `{TextConversions}.

(** A pass over a list in which one entry throws whenever it is reached
    with its parameter and control as they are in the initial state. *)
Lemma blocked_pass (l1 l2 : list (ParameterBasePtr * PangolinVariants)) (a : nat)
    (pv : PangolinVariants) (w : World) :
  (forall w0, same_at a (var_of pv) w0 w ->
     update_entry (Some a, pv) w0 = Thrown bad_lexical_cast w0) ->
  Some a ∉ map fst l1 ->
  var_of pv ∉ map (fun e => var_of (snd e)) l1 ->
  match for_each update_entry (l1 ++ (Some a, pv) :: l2) w with
  | Done _ _ => False
  | Thrown _ w' => same_at a (var_of pv) w' w /\ pangolinParams w' = pangolinParams w
  | Undefined _ => True
  end.
Proof.
  intros Hblock Ha Hv. rewrite for_each_app.
  pose proof (for_each_frame_any l1 w) as F.
  destruct (for_each update_entry l1 w) as [[] w1|ex w1|u]; [| |exact I].
  - assert (Hs : same_at a (var_of pv) w1 w).
    { destruct F as [P V C _ _]. repeat split; auto. }
    cbn [for_each]. rewrite (bind_Thrown _ _ _ _ _ (Hblock w1 Hs)).
    split; [exact Hs|apply F].
  - destruct F as [P V C _ G]. repeat split; auto.
Qed.

(** X20.  [updateValue] converts the text of the control before it looks
    at [mChangedInCode], so a pending internal change cannot repair a text
    that does not convert: after [setValue(v)] the pass still does not
    complete, and the exception that leaves it finds the parameter holding
    [v] with [mChangedInCode] still raised, the control holding the same
    text, and the callback not invoked.  The same holds for the next
    [setValue] and the next pass, until the user changes the text. *)
Theorem malformed_text_blocks_internal_changes (T : ValueType) (a va : nat)
    (p : ParameterT T) (s : string) (v : carrier T) (w : World) :
  unshared (entries w) ->
  (Some a, PV_string va) ∈ entries w ->
  params w !! a = Some (existT T p) ->
  mCategory p = TEXTINPUT ->
  vars w !! va = Some (Var_string s) ->
  lexical_cast T s = None ->
  exists w1,
    call_setValue T (Some a) v w = Done tt w1 /\
    match updateParameters w1 with
    | Done _ _ => False
    | Thrown _ w2 =>
        params w2 !! a = Some (existT T (setValue v p)) /\
        mCategory (setValue v p) = TEXTINPUT /\
        vars w2 !! va = Some (Var_string s) /\
        callbacks a (log w2) = callbacks a (log w) /\
        entries w2 = entries w
    | Undefined _ => True
    end.
Proof.
  intros Hu Hin Hp Hc Hv Hl.
  eexists. split; [apply (write_member_live _ _ _ _ Hp)|].
  set (w1 := set_params _ w).
  assert (Hp1 : params w1 !! a = Some (existT T (setValue v p))) by apply lookup_insert_eq.
  destruct (unshared_split _ _ _ Hu Hin) as (l1 & l2 & El & Hna & Hnv).
  rewrite updateParameters_entries. change (entries w1) with (entries w). rewrite El.
  rewrite map_app, not_elem_of_app in Hna. rewrite map_app, not_elem_of_app in Hnv.
  pose proof (blocked_pass l1 l2 a (PV_string va) w1) as B.
  destruct (for_each update_entry (l1 ++ (Some a, PV_string va) :: l2) w1)
    as [[] w2|ex w2|u]; [| |exact I].
  - apply B; [|apply Hna|apply Hnv].
    intros w0 (P0 & V0 & _). cbn [var_of] in V0.
    rewrite (update_entry_live T a (setValue v p) _ w0) by (rewrite P0; exact Hp1).
    rewrite (updateValue_text T a va (setValue v p) s w0);
      [rewrite Hl; reflexivity|rewrite P0; exact Hp1|rewrite V0; exact Hv|exact Hc].
  - destruct B as [(P2 & V2 & C2) G2]; [|apply Hna|apply Hnv|].
    + intros w0 (P0 & V0 & _). cbn [var_of] in V0.
      rewrite (update_entry_live T a (setValue v p) _ w0) by (rewrite P0; exact Hp1).
      rewrite (updateValue_text T a va (setValue v p) s w0);
        [rewrite Hl; reflexivity|rewrite P0; exact Hp1|rewrite V0; exact Hv|exact Hc].
    + cbn [var_of] in V2. rewrite P2, V2, C2.
      split; [exact Hp1|]. split; [exact Hc|]. split; [exact Hv|].
      split; [reflexivity|]. rewrite <- El. unfold entries. rewrite G2. reflexivity.
Qed.

End Blocked.

Section BlockedRun.
#[local] Existing Instance CLocale.conversions.

Lemma malformed_text_blocks_internal_changes_witness :
  unshared (entries abc_typed) /\
  lexical_cast T_int "abc" = None /\
  exists w1 w2,
    call_setValue T_int (Some 1%nat) 9 abc_typed = Done tt w1 /\
    updateParameters w1 = Thrown bad_lexical_cast w2 /\
    vars w2 !! 0%nat = Some (Var_string "abc") /\
    params w2 !! 1%nat =
      Some (existT T_int (@setValue T_int 9 DemoTracking.threshold)).
Proof.
  assert (Hu : unshared (entries abc_typed)) by solve_unshared.
  assert (Hl : lexical_cast T_int "abc" = None) by (vm_compute; reflexivity).
  split; [exact Hu|]. split; [exact Hl|].
  destruct (malformed_text_blocks_internal_changes T_int 1 0 DemoTracking.threshold "abc" 9
              abc_typed Hu) as (w1 & E & Hb).
  - vm_compute. left.
  - vm_compute. reflexivity.
  - reflexivity.
  - vm_compute. reflexivity.
  - exact Hl.
  - assert (Eu : exists w2, updateParameters w1 = Thrown bad_lexical_cast w2).
    { vm_compute in E. injection E as <-. eexists. vm_compute. reflexivity. }
    destruct Eu as (w2 & Eu). rewrite Eu in Hb. destruct Hb as (Hp & _ & Hv & _).
    exists w1, w2. auto.
Defined.

End BlockedRun.

(** ** Callbacks *)

Section AtMostOnce.
Context `{TextConversions}.

(** X21.  In a program that destroys no parameter, a reconciliation pass
    that completes invokes the callback of each parameter at most once, and
    the callback of a parameter that is not bound not at all. *)
Theorem callback_at_most_once_per_pass (cs : list Call) (w w' : World) (a : nat) :
  reaches empty_world cs w ->
  existsb is_Destroy cs = false ->
  updateParameters w = Done tt w' ->
  (callbacks a (log w') <= S (callbacks a (log w)))%nat /\
  (Some a ∉ map fst (entries w) -> callbacks a (log w') = callbacks a (log w)).
Proof.
  intros Hr Hd E.
  pose proof (keyed_unshared _ (reaches_keyed _ _ _ Hr Hd empty_world_keyed)) as Hu.
  pose proof (safe_bindings _ (reaches_safe _ _ _ Hr Hd empty_world_safe)) as Hb.
  assert (Hout : Some a ∉ map fst (entries w) ->
                 callbacks a (log w') = callbacks a (log w)).
  { intros Hn. pose proof E as E'. rewrite updateParameters_entries in E'.
    apply for_each_frame in E'. apply (frame_callbacks _ _ _ _ E'), Hn. }
  split; [|exact Hout].
  destruct (decide (Some a ∈ map fst (entries w))) as [Hin|Hn]; [|rewrite Hout by exact Hn; lia].
  apply list_elem_of_In, in_map_iff in Hin as ([ptr pv] & Ea & Hin).
  cbn [fst] in Ea. subst ptr. apply list_elem_of_In in Hin.
  rewrite Forall_forall in Hb.
  destruct (Hb _ Hin) as (a' & T & p & [= <-] & Hp & _).
  destruct (updateParameters_local T a pv p w w' E Hu Hin Hp)
    as (x & c & _ & _ & _ & _ & _ & Hc).
  rewrite Hc. destruct (fires p x); lia.
Qed.

End AtMostOnce.

Section AtMostOnceRun.
#[local] Existing Instance CLocale.conversions.

Lemma callback_at_most_once_per_pass_witness :
  let cs := [Construct (Range T_double 1 "gain" Demo.d1 Demo.d0 Demo.d10 MAIN target_returns);
             CreatePangolinEntries "menu" MAIN;
             UserEdit 0 (Var_T T_double Demo.d5)] in
  exists w w',
    reaches empty_world cs w /\
    existsb is_Destroy cs = false /\
    updateParameters w = Done tt w' /\
    callbacks 1 (log w) = 0%nat /\
    callbacks 1 (log w') = 1%nat.
Proof.
  intros cs.
  assert (Hr : exists w w',
             reaches empty_world cs w /\ updateParameters w = Done tt w' /\
             callbacks 1 (log w) = 0%nat /\ (1 <= callbacks 1 (log w'))%nat).
  { eexists _, _. split; [unfold cs; run_calls|].
    split; [vm_compute; reflexivity|]. split; vm_compute; [reflexivity|lia]. }
  destruct Hr as (w & w' & Hr & E & H0 & H1).
  assert (Hd : existsb is_Destroy cs = false) by reflexivity.
  exists w, w'. split; [exact Hr|]. split; [exact Hd|]. split; [exact E|].
  split; [exact H0|].
  pose proof (proj1 (callback_at_most_once_per_pass cs w w' 1 Hr Hd E)) as Hle.
  rewrite H0 in Hle. lia.
Defined.

End AtMostOnceRun.
